(** * Takum logarithmic codec: a shallow embedding of [validate_takum.py]

    The development embeds the reference encoder and decoder of
    [.github/skills/takum-arithmetic/scripts/validate_takum.py], the
    self-tests of the script and the integer conversions of its command
    line, and states the properties of the specification about them.

    - Python [int] is [Z]; [<<], [>>], [|], [&] are [Z.shiftl], [Z.shiftr],
      [Z.lor], [Z.land] (two's complement on negative numbers, as in Python),
      with the [ValueError] Python raises on a negative shift count.
    - Python [float] is an IEEE-754 binary64 value, [spec_float] of the
      Standard Library with [prec = 53] and [emax = 1024].
    - Code that can raise returns [result], a small error monad.
    - [math.log] and [math.exp] belong to the C library, not to the script:
      they are Section variables of the encoder and the decoder, and so is
      libm's [pow] behind [2.0 ** n] in the test suite.
    - The tests are modelled by their return values; what they print is
      left out. *)

From Stdlib Require Import ZArith Lia List Bool.
From Stdlib Require Import Floats.SpecFloat.
Import ListNotations.
Local Open Scope Z_scope.

(* ================================================================== *)
(** * Python runtime *)
(* ================================================================== *)

Module Py.

(** Exceptions the embedded code can raise. *)
Inductive exn : Set :=
| ValueError
| OverflowError
| IndexError
| ZeroDivisionError.

Inductive result (A : Type) : Type :=
| Ok (a : A)
| Raise (e : exn).

Arguments Ok {A} a.
Arguments Raise {A} e.

Definition bind {A B : Type} (c : result A) (k : A -> result B) : result B :=
  match c with
  | Ok a => k a
  | Raise e => Raise e
  end.

Definition returns {A : Type} (c : result A) : bool :=
  match c with
  | Ok _ => true
  | Raise _ => false
  end.

(** ** Integers *)

(** [a << n]; a negative count raises [ValueError]. *)
Definition lshift (a n : Z) : result Z :=
  if n <? 0 then Raise ValueError else Ok (Z.shiftl a n).

(** [a >> n]; a negative count raises [ValueError]. *)
Definition rshift (a n : Z) : result Z :=
  if n <? 0 then Raise ValueError else Ok (Z.shiftr a n).

(** [n.bit_length()]: the number of binary digits of [|n|], 0 for 0. *)
Definition bit_length (n : Z) : Z :=
  match n with
  | Z0 => 0
  | Zpos p => Zpos (Pos.size p)
  | Zneg p => Zpos (Pos.size p)
  end.

(** [t[i]] on a tuple: a negative index counts from the end, an index out
    of range raises [IndexError]. *)
Definition tuple_get {A : Type} (t : list A) (i : Z) : result A :=
  let n := Z.of_nat (length t) in
  let j := if i <? 0 then i + n else i in
  if (j <? 0) || (n <=? j) then Raise IndexError
  else match nth_error t (Z.to_nat j) with
       | Some a => Ok a
       | None => Raise IndexError
       end.

(** [range(n)]. *)
Definition range (n : nat) : list Z := map Z.of_nat (seq 0 n).

(** [tuple(f(x) for x in xs)]: the first exception ends the construction. *)
Fixpoint tuple_of {A B : Type} (f : A -> result B) (xs : list A) : result (list B) :=
  match xs with
  | [] => Ok []
  | x :: xs' =>
      bind (f x) (fun y => bind (tuple_of f xs') (fun ys => Ok (y :: ys)))
  end.

(** ** Floats (IEEE-754 binary64) *)

Definition float : Set := spec_float.

Definition prec : Z := 53.
Definition emax : Z := 1024.

Definition fmul : float -> float -> float := SFmul prec emax.
Definition fadd : float -> float -> float := SFadd prec emax.
Definition fsub : float -> float -> float := SFsub prec emax.

Definition fzero : float := S754_zero false.
Definition fone : float := S754_finite false 4503599627370496 (-52).
Definition ftwo : float := S754_finite false 4503599627370496 (-51).

Definition isnan (x : float) : bool :=
  match x with
  | S754_nan => true
  | _ => false
  end.

Definition isinf (x : float) : bool :=
  match x with
  | S754_infinity _ => true
  | _ => false
  end.

(** [x / y] on floats; a zero divisor raises [ZeroDivisionError]. *)
Definition fdiv (x y : float) : result float :=
  match y with
  | S754_zero _ => Raise ZeroDivisionError
  | _ => Ok (SFdiv prec emax x y)
  end.

(** [float(n)], also the implicit conversion of an [int] operand of a float
    operation: round to nearest even, [OverflowError] beyond the doubles. *)
Definition float_of_int (n : Z) : result float :=
  match binary_normalize prec emax n 0 false with
  | S754_infinity _ => Raise OverflowError
  | f => Ok f
  end.

(** [a / b] on two ints: the correctly rounded quotient. *)
Definition int_truediv (a b : Z) : result float :=
  match b with
  | Z0 => Raise ZeroDivisionError
  | _ =>
      match a with
      | Z0 => Ok (S754_zero (b <? 0))
      | _ =>
          let '(q, e, l) := SFdiv_core_binary prec emax (Z.abs a) 0 (Z.abs b) 0 in
          match binary_round_aux prec emax (xorb (a <? 0) (b <? 0)) q e l with
          | S754_infinity _ => Raise OverflowError
          | f => Ok f
          end
      end
  end.

(** Nearest integer to [m * 2^e], ties to the even one. *)
Definition round_half_even (m e : Z) : Z :=
  if 0 <=? e then m * 2 ^ e
  else
    let d := 2 ^ (- e) in
    let q := m / d in
    match 2 * (m mod d) ?= d with
    | Lt => q
    | Gt => q + 1
    | Eq => if Z.even q then q else q + 1
    end.

(** [round(x)] with one argument: an [int], ties to even; [ValueError] on
    NaN and [OverflowError] on an infinity. *)
Definition round (x : float) : result Z :=
  match x with
  | S754_nan => Raise ValueError
  | S754_infinity _ => Raise OverflowError
  | S754_zero _ => Ok 0
  | S754_finite s m e => Ok (cond_Zopp s (round_half_even (Zpos m) e))
  end.

(** [int(x)]: truncation towards zero, same exceptions as [round]. *)
Definition int_of_float (x : float) : result Z :=
  match x with
  | S754_nan => Raise ValueError
  | S754_infinity _ => Raise OverflowError
  | S754_zero _ => Ok 0
  | S754_finite s m e =>
      Ok (cond_Zopp s (if 0 <=? e then Zpos m * 2 ^ e else Zpos m / 2 ^ (- e)))
  end.

End Py.

Import Py.

Declare Scope py_scope.
Delimit Scope py_scope with py.
Notation "x <- c ;; k" := (bind c (fun x => k))
  (at level 61, c at next level, right associativity) : py_scope.
Local Open Scope py_scope.

(* ================================================================== *)
(** * The script *)
(* ================================================================== *)

(** ** [TakumConfig] (lines 41-70) *)

Record TakumConfig : Set := {
  bits : Z;
  sign_bits : Z;
  direction_bits : Z;
  regime_bits : Z
}.

(** [TakumConfig(bits=b)]: the three other fields take their defaults. *)
Definition mkTakumConfig (b : Z) : TakumConfig :=
  {| bits := b; sign_bits := 1; direction_bits := 1; regime_bits := 3 |}.

Definition overhead_bits (config : TakumConfig) : Z :=
  sign_bits config + direction_bits config + regime_bits config.

Definition max_mantissa_bits (config : TakumConfig) : Z :=
  bits config - overhead_bits config.

Definition nar_value (config : TakumConfig) : result Z :=
  x <- lshift 1 (bits config - 1) ;; Ok (- x).

Definition one_value (config : TakumConfig) : result Z :=
  lshift 1 (bits config - 3).

Definition TAKUM8 : TakumConfig := mkTakumConfig 8.
Definition TAKUM16 : TakumConfig := mkTakumConfig 16.
Definition TAKUM32 : TakumConfig := mkTakumConfig 32.
Definition TAKUM64 : TakumConfig := mkTakumConfig 64.

(** The dict [CONFIGS] (lines 79-84), in insertion order. *)
Definition CONFIGS : list (Z * TakumConfig) :=
  [(8, TAKUM8); (16, TAKUM16); (32, TAKUM32); (64, TAKUM64)].

(** [CONFIGS[b]] where the key exists, as [main] looks a width up. *)
Fixpoint CONFIGS_get (d : list (Z * TakumConfig)) (b : Z) : option TakumConfig :=
  match d with
  | [] => None
  | (k, c) :: d' => if k =? b then Some c else CONFIGS_get d' b
  end.

(** A supported configuration is a value of [CONFIGS]. *)
Definition supported (config : TakumConfig) : Prop :=
  In config (map snd CONFIGS).

(** [math.e], 0x1.5bf0a8b145769p+1, and [SQRT_E = math.sqrt(math.e)]
    (line 87); [math.sqrt] is the correctly rounded IEEE square root. *)
Definition math_e : float := S754_finite false 6121026514868073 (-51).
Definition SQRT_E : float := SFsqrt prec emax math_e.

(** ** Characteristic bias (lines 96-121) *)

Definition c_bias (r : Z) : result Z :=
  if negb ((0 <=? r) && (r <=? 7)) then Raise ValueError
  else x <- lshift 1 (r + 1) ;; Ok (x - 1).

(** [tuple(c_bias(r) for r in range(8))], evaluated when the module loads. *)
Definition C_BIAS_LUT_init : result (list Z) := tuple_of c_bias (range 8).

Definition C_BIAS_LUT : list Z :=
  match C_BIAS_LUT_init with
  | Ok t => t
  | Raise _ => []
  end.

(** ** Regime (lines 129-144) *)

Definition compute_regime (l_abs : Z) : Z :=
  if l_abs =? 0 then 0
  else Z.min 7 (bit_length (l_abs + 1) - 1).

(** ** Encoder (lines 147-217) *)

(** The local variables of [encode_takum_log] on the path of a finite,
    non-zero input, as they stand when the bit pattern is assembled. *)
Record enc_locals : Set := {
  e_s : Z;
  e_l_float : float;
  e_l : Z;
  e_d : Z;
  e_r : Z;
  e_c : Z;
  e_m_bits : Z;
  e_l_frac : float;
  e_m : Z
}.

(** Lines 190-194: the characteristic from [l], [l_abs = abs(l)] and [r]. *)
Definition characteristic (l l_abs r : Z) : result Z :=
  if 0 <=? l then
    if 0 <? r then b <- tuple_get C_BIAS_LUT r ;; Ok (l - b) else Ok 0
  else
    if 0 <? r then b <- tuple_get C_BIAS_LUT r ;; Ok (b - 1 - l_abs) else Ok 0.

(** Lines 196-199 and 254-257: the mantissa width, clamped at 0. *)
Definition mantissa_bits (config : TakumConfig) (r : Z) : Z :=
  let m_bits := bits config - overhead_bits config - r in
  if m_bits <? 0 then 0 else m_bits.

(** Lines 181-194 for a rounded logarithm [l] (before the clamp): the
    clamped [l], its regime and its characteristic. *)
Definition encode_characteristic (l : Z) : result Z :=
  let l := Z.max (-255) (Z.min 255 l) in
  let l_abs := Z.abs l in
  let r := compute_regime l_abs in
  characteristic l l_abs r.

(** Lines 205-217: assembly of the bit pattern and conversion to signed. *)
Definition assemble (f : enc_locals) (config : TakumConfig) : result Z :=
  x <- lshift (e_s f) (bits config - 1) ;;
  let result := x in
  x <- lshift (e_d f) (bits config - 2) ;;
  let result := Z.lor result x in
  x <- lshift (e_r f) (bits config - 5) ;;
  let result := Z.lor result x in
  x <- (if 0 <? e_r f then lshift (e_c f) (e_m_bits f) else Ok 0) ;;
  let result := Z.lor result x in
  let result := Z.lor result (e_m f) in
  if e_s f =? 1 then x <- lshift 1 (bits config) ;; Ok (result - x)
  else Ok result.

Section Encoder.

(** [math.log]: [None] stands for the [ValueError] of a domain error. *)
Variable math_log : float -> option float.

(** Lines 171-203, reached when [value] is finite and not zero. *)
Definition encode_locals (value : float) (config : TakumConfig) : result enc_locals :=
  let s := if SFltb fzero value then 0 else 1 in
  let abs_value := SFabs value in
  ln <- match math_log abs_value with
        | Some y => Ok y
        | None => Raise ValueError
        end ;;
  let l_float := fmul ftwo ln in
  l <- round l_float ;;
  let l := Z.max (-255) (Z.min 255 l) in
  let d := if 0 <=? l then 1 else 0 in
  let l_abs := Z.abs l in
  let r := compute_regime l_abs in
  c <- characteristic l l_abs r ;;
  let m_bits := mantissa_bits config r in
  fl <- float_of_int (Z.abs l) ;;
  let l_frac := fsub (SFabs l_float) fl in
  m <- (if 0 <? m_bits then
          p <- lshift 1 m_bits ;;
          fp <- float_of_int p ;;
          int_of_float (fmul l_frac fp)
        else Ok 0) ;;
  Ok {| e_s := s; e_l_float := l_float; e_l := l; e_d := d; e_r := r;
        e_c := c; e_m_bits := m_bits; e_l_frac := l_frac; e_m := m |}.

Definition encode_takum_log (value : float) (config : TakumConfig) : result Z :=
  if isnan value then nar_value config
  else if isinf value then nar_value config
  else if SFeqb value fzero then Ok 0
  else f <- encode_locals value config ;; assemble f config.

End Encoder.

(** ** Decoder (lines 220-281) *)

(** The fields [decode_takum_log] extracts from a pattern, and the integer
    logarithm it rebuilds from them. *)
Record dec_locals : Set := {
  d_s : Z;
  d_d : Z;
  d_r : Z;
  d_m_bits : Z;
  d_c : Z;
  d_m : Z;
  d_l : Z
}.

(** Lines 239-243: the unsigned bit pattern of [encoded]. *)
Definition to_unsigned (encoded : Z) (config : TakumConfig) : result Z :=
  if encoded <? 0 then x <- lshift 1 (bits config) ;; Ok (encoded + x)
  else Ok encoded.

(** Lines 259-263: the characteristic field, [r] bits above the mantissa. *)
Definition extract_characteristic (encoded_u r m_bits : Z) : result Z :=
  if 0 <? r then
    x <- rshift encoded_u m_bits ;;
    y <- lshift 1 r ;;
    Ok (Z.land x (y - 1))
  else Ok 0.

(** Line 266: the mantissa field, the low [m_bits] bits. *)
Definition extract_mantissa (encoded_u m_bits : Z) : result Z :=
  if 0 <? m_bits then
    y <- lshift 1 m_bits ;; Ok (Z.land encoded_u (y - 1))
  else Ok 0.

(** Lines 268-273: the integer logarithm from direction, regime and
    characteristic. *)
Definition rebuild_log (d r c : Z) : result Z :=
  if d =? 1 then
    if 0 <? r then b <- tuple_get C_BIAS_LUT r ;; Ok (b + c) else Ok 0
  else
    l_biased <- (if 0 <? r then b <- tuple_get C_BIAS_LUT r ;; Ok (b - 1 - c)
                 else Ok 0) ;;
    Ok (- (l_biased + 1)).

(** Lines 239-273, reached when [encoded] is neither NaR nor 0. *)
Definition decode_locals (encoded : Z) (config : TakumConfig) : result dec_locals :=
  encoded_u <- to_unsigned encoded config ;;
  x <- rshift encoded_u (bits config - 1) ;;
  let s := Z.land x 1 in
  x <- rshift encoded_u (bits config - 2) ;;
  let d := Z.land x 1 in
  x <- rshift encoded_u (bits config - 5) ;;
  let r := Z.land x 7 in
  let m_bits := mantissa_bits config r in
  c <- extract_characteristic encoded_u r m_bits ;;
  m <- extract_mantissa encoded_u m_bits ;;
  l <- rebuild_log d r c ;;
  Ok {| d_s := s; d_d := d; d_r := r; d_m_bits := m_bits; d_c := c;
        d_m := m; d_l := l |}.

(** Lines 275-276: [l + (m / (1 << m_bits) if m_bits > 0 else 0)].  With
    [m_bits = 0] the sum is the int [l], which line 279 converts when it
    divides it by the float [2.0]. *)
Definition decode_l_float (f : dec_locals) : result float :=
  if 0 <? d_m_bits f then
    p <- lshift 1 (d_m_bits f) ;;
    q <- int_truediv (d_m f) p ;;
    fl <- float_of_int (d_l f) ;;
    Ok (fadd fl q)
  else float_of_int (d_l f).

Section Decoder.

(** [math.exp]: [None] stands for the [OverflowError] of a range error. *)
Variable math_exp : float -> option float.

Definition decode_takum_log (encoded : Z) (config : TakumConfig) : result float :=
  nar <- nar_value config ;;
  if encoded =? nar then Ok S754_nan
  else if encoded =? 0 then Ok fzero
  else
    f <- decode_locals encoded config ;;
    l_float <- decode_l_float f ;;
    x <- fdiv l_float ftwo ;;
    abs_value <- match math_exp x with
                 | Some y => Ok y
                 | None => Raise OverflowError
                 end ;;
    Ok (if d_s f =? 1 then SFopp abs_value else abs_value).

End Decoder.

(** ** Known encodings (lines 289-296) *)

Definition TEST_ENCODINGS : list (float * Z * Z) :=
  [ (fone, 0x2000, 16);
    (SFopp fone, - 0x2000, 16);
    (fzero, 0x0000, 16);
    (math_e, 0x4000, 16);
    (SQRT_E, 0x2800, 16) ].

(** ** Special-value test (lines 364-410) *)

(** The double 0.01, 0x1.47ae147ae147bp-7. *)
Definition f001 : float := S754_finite false 5764607523034235 (-59).

Section SpecialValues.

Variable math_log : float -> option float.
Variable math_exp : float -> option float.

(** [test_special_values(config)] with the default [verbose=False]; the
    prints under [if verbose] do not enter the result. *)
Definition test_special_values (config : TakumConfig) : result bool :=
  let all_passed := true in
  nar <- nar_value config ;;
  nar_decoded <- decode_takum_log math_exp nar config ;;
  let nar_passed := isnan nar_decoded in
  let all_passed := all_passed && nar_passed in
  zero_encoded <- encode_takum_log math_log fzero config ;;
  let zero_passed := zero_encoded =? 0 in
  let all_passed := all_passed && zero_passed in
  one_encoded <- encode_takum_log math_log fone config ;;
  one_decoded <- decode_takum_log math_exp one_encoded config ;;
  let one_passed := SFltb (SFabs (fsub one_decoded fone)) f001 in
  let all_passed := all_passed && one_passed in
  nan_encoded <- encode_takum_log math_log S754_nan config ;;
  nar <- nar_value config ;;
  let nan_passed := nan_encoded =? nar in
  let all_passed := all_passed && nan_passed in
  Ok all_passed.

End SpecialValues.

(** ** Command line (lines 573-601) *)

(** Lines 588-590 of [main]: the integer parsed from the hex argument,
    taken as a signed pattern of the width. *)
Definition to_signed (encoded : Z) (config : TakumConfig) : result Z :=
  x <- lshift 1 (bits config - 1) ;;
  if x <=? encoded then y <- lshift 1 (bits config) ;; Ok (encoded - y)
  else Ok encoded.

(** Lines 354, 382, 399, 407 and 575: [encoded & ((1 << config.bits) - 1)],
    the pattern as it is printed in hex. *)
Definition display_pattern (encoded : Z) (config : TakumConfig) : result Z :=
  x <- lshift 1 (bits config) ;; Ok (Z.land encoded (x - 1)).

(* ================================================================== *)
(** * Vocabulary of the statements *)
(* ================================================================== *)

(** [x] is a signed two's-complement integer of the width of [config]. *)
Definition in_width (config : TakumConfig) (x : Z) : Prop :=
  - 2 ^ (bits config - 1) <= x <= 2 ^ (bits config - 1) - 1.

(** The encoder reaches the assembly of the bit pattern with the local
    variables [f]: [value] passes the special cases of lines 164-169 and
    lines 171-203 run to the end. *)
Definition encoder_reaches (math_log : float -> option float)
  (value : float) (config : TakumConfig) (f : enc_locals) : Prop :=
  isnan value = false /\ isinf value = false /\ SFeqb value fzero = false /\
  encode_locals math_log value config = Ok f.

(** [|x| <= 2^k] for a finite [x = m * 2^e]. *)
Definition mag_le_pow2 (x : float) (k : Z) : bool :=
  match x with
  | S754_zero _ => true
  | S754_finite _ m e => (e <=? k) && (Zpos m <=? 2 ^ (k - e))
  | _ => false
  end.

(** What the decoder needs of [math.exp]: on a finite argument of magnitude
    at most 512 it returns a positive finite double (e^512 is about 2.3e222
    and e^-512 about 4.4e-223, both normal doubles). *)
Definition exp_in_range (math_exp : float -> option float) : Prop :=
  forall x, mag_le_pow2 x 9 = true ->
    exists m e, math_exp x = Some (S754_finite false m e).

(** The doubles 0.5 and 10000.0. *)
Definition fhalf : float := S754_finite false 4503599627370496 (-53).
Definition f10000 : float := S754_finite false 5497558138880000 (-39).

(** Values of [math.log] as CPython returns them on x86-64 (glibc), on the
    inputs the statements evaluate: 0.0 at 1.0, 1.0 at [math.e], 0.5 at
    [SQRT_E] and 0x1.26bb1bbb55516p+3 at 10000.0; the table raises
    elsewhere.  It instantiates the Section variable where a statement is
    run. *)
Definition sample_log (x : float) : option float :=
  if SFeqb x fone then Some fzero
  else if SFeqb x math_e then Some fone
  else if SFeqb x SQRT_E then Some fhalf
  else if SFeqb x f10000 then Some (S754_finite false 5184960683398422 (-49))
  else None.

(** A stand-in for [math.exp]: two to the power of the truncated argument.
    It only shows that [exp_in_range] can be met. *)
Definition pow2_exp (x : float) : option float :=
  match int_of_float x with
  | Ok n => Some (S754_finite false 4503599627370496 (n - 52))
  | Raise _ => None
  end.

(** The computation [c] does not end in [IndexError], the exception of an
    out-of-range regime used as an index of [C_BIAS_LUT]. *)
Definition no_index_error {A : Type} (c : result A) : Prop :=
  c <> Raise IndexError.

(** A result of magnitude at most [2^k]: a zero or a finite number of sign
    [sx] with [m * 2^e <= 2^k]. *)
Definition rounded_within (sx : bool) (k : Z) (x : float) : Prop :=
  match x with
  | S754_zero s => s = sx
  | S754_finite s m e => s = sx /\ e <= k /\ Zpos m <= 2 ^ (k - e)
  | _ => False
  end.

(** A float that holds the integer [l] exactly, with no positive exponent. *)
Definition holds_int (l : Z) (x : float) : Prop :=
  match x with
  | S754_zero _ => l = 0
  | S754_finite s m e => s = (l <? 0) /\ e <= 0 /\ Zpos m = Z.abs l * 2 ^ (- e)
  | _ => False
  end.

(** [float(l)] returns and holds [l] exactly, as a test. *)
Definition holds_intb (l : Z) : bool :=
  match float_of_int l with
  | Ok (S754_zero _) => l =? 0
  | Ok (S754_finite s m e) =>
      Bool.eqb s (l <? 0) && (e <=? 0) && (Zpos m =? Z.abs l * 2 ^ (- e))
  | _ => false
  end.

(** A non-negative float of magnitude at most 1. *)
Definition unit_fraction (x : float) : Prop := rounded_within false 0 x.

(** The word with the fields [s | d | r (3 bits) | c (r bits) | m] from
    the top bit of a [B]-bit pattern down. *)
Definition field_word (B s d r c m : Z) : Z :=
  (((2 * s + d) * 8 + r) * 2 ^ r + c) * 2 ^ (B - 5 - r) + m.

(** The bounds of the fields of a [B]-bit word. *)
Definition fields_in_range (B s d r c m : Z) : Prop :=
  0 <= s <= 1 /\ 0 <= d <= 1 /\ 0 <= r <= 7 /\ r <= B - 5 /\
  0 <= c < 2 ^ r /\ 0 <= m < 2 ^ (B - 5 - r).

(** The encoder's fields are non-negative and of the width the layout
    gives them. *)
Definition fields_fit (config : TakumConfig) (f : enc_locals) : Prop :=
  0 <= e_s f <= 1 /\ 0 <= e_d f <= 1 /\ 0 <= e_r f <= 7 /\
  e_r f <= bits config - 5 /\
  e_m_bits f = mantissa_bits config (e_r f) /\
  0 <= e_c f < 2 ^ e_r f /\ 0 <= e_m f < 2 ^ e_m_bits f.

(** What the encoder needs of [math.log]: on a positive finite double it
    returns a finite double of magnitude at most 1024 (the logarithms of
    the positive doubles lie between -745.2 and 709.8). *)
Definition log_in_range (math_log : float -> option float) : Prop :=
  forall m e, exists y,
    math_log (S754_finite false m e) = Some y /\ mag_le_pow2 y 10 = true.

(** [float(1 << j)] returns a finite double within [2^j], as a test. *)
Definition pow2_floatb (j : Z) : bool :=
  match float_of_int (2 ^ j) with
  | Ok x => mag_le_pow2 x j
  | Raise _ => false
  end.

(** The integers [lo, lo+1, ..., lo+n-1]. *)
Definition Zrange (lo : Z) (n : nat) : list Z :=
  map (fun i => lo + Z.of_nat i) (seq 0 n).

(** ** Vocabulary of the further properties *)

(** [sample_log] with 0.0 where the table has no entry: a [math.log] that
    returns on every positive double.  It only shows that [log_in_range]
    can be met. *)
Definition sample_log_total (x : float) : option float :=
  match sample_log x with
  | Some y => Some y
  | None => Some fzero
  end.

(** [f] with the sign field set to 1. *)
Definition with_sign_1 (f : enc_locals) : enc_locals :=
  {| e_s := 1; e_l_float := e_l_float f; e_l := e_l f; e_d := e_d f;
     e_r := e_r f; e_c := e_c f; e_m_bits := e_m_bits f;
     e_l_frac := e_l_frac f; e_m := e_m f |}.

(** [f] with the sign field set to 1. *)
Definition dec_with_sign_1 (f : dec_locals) : dec_locals :=
  {| d_s := 1; d_d := d_d f; d_r := d_r f; d_m_bits := d_m_bits f;
     d_c := d_c f; d_m := d_m f; d_l := d_l f |}.

(** [math.exp] with its exact value at 0: 1.0 at a zero, [pow2_exp]
    elsewhere. *)
Definition pow2_exp_at_0 (x : float) : option float :=
  match x with
  | S754_zero _ => Some fone
  | _ => pow2_exp x
  end.

(** The doubles 1.2 and 0.8333333333333334 (the nearest to 1/1.2), and
    CPython's [math.log] on them: 0.1823215567939546 and its opposite. *)
Definition f1_2 : float := S754_finite false 5404319552844595 (-52).
Definition f1_2_inv : float := S754_finite false 7505999378950827 (-53).
Definition log_1_2 : float := S754_finite false 6568826361910901 (-55).

Definition sample_log_near_one (x : float) : option float :=
  if SFeqb x f1_2 then Some log_1_2
  else if SFeqb x f1_2_inv then Some (SFopp log_1_2)
  else None.

(** Some bit shifted out by [shr] was set. *)
Definition lost (mrs : shr_record) : bool := shr_r mrs || shr_s mrs.

(** [float(1 << j)] is the canonical double [2^52 * 2^(j-52)], as a test. *)
Definition pow2_float_exactb (j : Z) : bool :=
  match float_of_int (2 ^ j) with
  | Ok (S754_finite false m e) => (Zpos m =? 2 ^ 52) && (e =? j - 52)
  | _ => false
  end.

(** The local variables of the encoder on 1.2 at width 16. *)
Definition locals_1_2 : enc_locals :=
  {| e_s := 0; e_l_float := S754_finite false 6568826361910901 (-54);
     e_l := 0; e_d := 1; e_r := 0; e_c := 0; e_m_bits := 11;
     e_l_frac := S754_finite false 6568826361910901 (-54); e_m := 746 |}.

(** ** Test suite (lines 307-361 and 413-478) *)

(** [max(a, b)] on two floats: [b] if [b > a], else [a]. *)
Definition fmax (a b : float) : float := if SFltb a b then b else a.

(** A [for] loop over a list whose body updates the loop state and may
    raise. *)
Fixpoint for_each {S A : Type} (body : S -> A -> result S) (xs : list A)
  (st : S) : result S :=
  match xs with
  | [] => Ok st
  | x :: xs' => st' <- body st x ;; for_each body xs' st'
  end.

(** The doubles [math.pi], 0.1, 4.0, 10.0 and 100.0. *)
Definition math_pi : float := S754_finite false 7074237752028440 (-51).
Definition f0_1 : float := S754_finite false 7205759403792794 (-56).
Definition f4 : float := S754_finite false 4503599627370496 (-50).
Definition f10 : float := S754_finite false 5629499534213120 (-49).
Definition f100 : float := S754_finite false 7036874417766400 (-46).

Section Suite.

Variable math_log : float -> option float.
Variable math_exp : float -> option float.

(** libm's [pow]: [None] stands for a range error. *)
Variable libm_pow : float -> float -> option float.

(** [2.0 ** n] for an [int] [n], as [float_pow] computes it: the exponent
    is converted to a float, the result is 1.0 when that is zero and libm's
    [pow(2.0, float(n))] otherwise, with [OverflowError] on a range
    error. *)
Definition pow_two (n : Z) : result float :=
  w <- float_of_int n ;;
  if SFeqb w fzero then Ok fone
  else match libm_pow ftwo w with
       | Some z => Ok z
       | None => Raise OverflowError
       end.

Definition roundtrip_test_values : list float :=
  [fzero; fone; SFopp fone; SQRT_E; math_e; math_pi; fhalf; ftwo; f0_1; f10;
   f100; f001].

(** The body of the loop of lines 336-356 on the state
    [(all_passed, max_relative_error)]; the printing is left out. *)
Definition roundtrip_body (config : TakumConfig) (st : bool * float)
  (value : float) : result (bool * float) :=
  let '(all_passed, max_relative_error) := st in
  if SFeqb value fzero then
    encoded <- encode_takum_log math_log value config ;;
    decoded <- decode_takum_log math_exp encoded config ;;
    let passed := SFeqb decoded fzero in
    Ok (all_passed && passed, max_relative_error)
  else
    encoded <- encode_takum_log math_log value config ;;
    decoded <- decode_takum_log math_exp encoded config ;;
    relative_error <- fdiv (SFabs (fsub decoded value)) (SFabs value) ;;
    let max_relative_error := fmax max_relative_error relative_error in
    tolerance <- pow_two (- (bits config - 8)) ;;
    let passed := SFltb relative_error tolerance in
    Ok (all_passed && passed, max_relative_error).

Definition test_encoding_roundtrip (config : TakumConfig) : result bool :=
  st <- for_each (roundtrip_body config) roundtrip_test_values (true, fzero) ;;
  Ok (fst st).

Definition symmetry_test_values : list float :=
  [ftwo; f4; f10; SQRT_E; math_e; math_pi].

(** The body of the loop of lines 427-444 on the state [all_passed]. *)
Definition symmetry_body (config : TakumConfig) (all_passed : bool)
  (x : float) : result bool :=
  inv_x <- fdiv fone x ;;
  enc_x <- encode_takum_log math_log x config ;;
  enc_inv <- encode_takum_log math_log inv_x config ;;
  dec_x <- decode_takum_log math_exp enc_x config ;;
  dec_inv <- decode_takum_log math_exp enc_inv config ;;
  let product := fmul dec_x dec_inv in
  let passed := SFltb (SFabs (fsub product fone)) f0_1 in
  Ok (all_passed && passed).

Definition test_symmetry (config : TakumConfig) : result bool :=
  for_each (symmetry_body config) symmetry_test_values true.



End Suite.

(** CPython's [math.log(2.0)], 0.6931471805599453. *)
Definition log_2 : float := S754_finite false 6243314768165359 (-53).

(** libm's [pow] is exact on the negative powers of two the tolerance of
    line 349 asks for. *)
Definition pow_exact_on_two (libm_pow : float -> float -> option float) : Prop :=
  forall j w, 1 <= j <= 56 -> float_of_int (- j) = Ok w ->
    libm_pow ftwo w = Some (S754_finite false 4503599627370496 (- 52 - j)).

(** A zero or a finite number. *)
Definition finite_value (x : float) : Prop :=
  match x with
  | S754_zero _ | S754_finite _ _ _ => True
  | _ => False
  end.

(** A table of [math.log] with CPython's values at 2.0 and 0.5 and
    [sample_log_total] elsewhere. *)
Definition sample_log_2 (x : float) : option float :=
  if SFeqb x ftwo then Some log_2
  else if SFeqb x fhalf then Some (SFopp log_2)
  else sample_log_total x.

(** [-j] converts to a float that truncates back to [-j], as a test. *)
Definition neg_int_floatb (j : Z) : bool :=
  match float_of_int (- j) with
  | Ok w => match int_of_float w with
            | Ok n => n =? - j
            | Raise _ => false
            end
  | Raise _ => false
  end.

(** A stand-in for libm's [pow] at base 2.0: two to the power of the
    truncated exponent.  It only shows that [pow_exact_on_two] can be
    met. *)
Definition exact_pow (x y : float) : option float := pow2_exp y.

(** A result of sign [sx] and magnitude at least [2^k]: an infinity, or a
    finite number with a mantissa below [2^53] and [m * 2^e >= 2^k] (where
    [e > k] the power [2 ^ (k - e)] is 0 in [Z], and [m >= 1] is enough). *)
Definition at_least (sx : bool) (k : Z) (x : float) : Prop :=
  match x with
  | S754_infinity s => s = sx
  | S754_finite s m e => s = sx /\ Zpos m < 2 ^ 53 /\ 2 ^ (k - e) <= Zpos m
  | _ => False
  end.

(** A result of sign [sx] that is not a NaN. *)
Definition has_sign (sx : bool) (x : float) : Prop :=
  match x with
  | S754_nan => False
  | S754_zero s | S754_infinity s | S754_finite s _ _ => s = sx
  end.

(* ================================================================== *)
(** * Properties *)
(* ================================================================== *)

(** ** The runtime *)

Lemma lshift_nonneg_count (a n : Z) :
  0 <= n -> lshift a n = Ok (a * 2 ^ n).
Proof.
  intro Hn. unfold lshift.
  destruct (Z.ltb_spec n 0) as [Hlt | _]; [lia |].
  now rewrite Z.shiftl_mul_pow2.
Qed.

Lemma rshift_nonneg_count (a n : Z) :
  0 <= n -> rshift a n = Ok (a / 2 ^ n).
Proof.
  intro Hn. unfold rshift.
  destruct (Z.ltb_spec n 0) as [Hlt | _]; [lia |].
  now rewrite Z.shiftr_div_pow2.
Qed.

Lemma bit_length_pos (p : positive) :
  bit_length (Zpos p) = Z.log2 (Zpos p) + 1.
Proof.
  destruct p as [q | q |]; cbn [bit_length Pos.size Z.log2];
    rewrite ?Pos2Z.inj_succ; lia.
Qed.

Lemma tuple_get_C_BIAS_LUT (r : Z) :
  0 <= r <= 7 -> tuple_get C_BIAS_LUT r = Ok (2 ^ (r + 1) - 1).
Proof.
  intro Hr.
  assert (Hcases : r = 0 \/ r = 1 \/ r = 2 \/ r = 3 \/
                   r = 4 \/ r = 5 \/ r = 6 \/ r = 7) by lia.
  repeat (destruct Hcases as [-> | Hcases]; [reflexivity |]).
  now subst r.
Qed.

(** The module-level table is built without an exception. *)
Lemma C_BIAS_LUT_init_ok :
  C_BIAS_LUT_init = Ok [1; 3; 7; 15; 31; 63; 127; 255].
Proof. reflexivity. Qed.

Lemma Zrange_In (lo : Z) (n : nat) (z : Z) :
  lo <= z < lo + Z.of_nat n -> In z (Zrange lo n).
Proof.
  intro Hz. unfold Zrange. apply in_map_iff.
  exists (Z.to_nat (z - lo)). split; [lia |].
  apply in_seq. lia.
Qed.

Lemma Zrange_forallb (P : Z -> bool) (lo : Z) (n : nat) :
  forallb P (Zrange lo n) = true ->
  forall z, lo <= z < lo + Z.of_nat n -> P z = true.
Proof.
  intros Hall z Hz.
  rewrite forallb_forall in Hall. apply Hall, Zrange_In, Hz.
Qed.

(** ** Configurations *)

Lemma supported_cases (config : TakumConfig) :
  supported config ->
  config = TAKUM8 \/ config = TAKUM16 \/ config = TAKUM32 \/ config = TAKUM64.
Proof.
  unfold supported. cbn [map snd CONFIGS In].
  intuition congruence.
Qed.

(** The supported configurations are the ones a lookup in [CONFIGS] finds. *)
Lemma supported_lookup (config : TakumConfig) :
  supported config <-> exists b, CONFIGS_get CONFIGS b = Some config.
Proof.
  split.
  - intro H. apply supported_cases in H.
    destruct H as [-> | [-> | [-> | ->]]];
      [exists 8 | exists 16 | exists 32 | exists 64]; reflexivity.
  - intros [b H]. cbv beta iota delta [CONFIGS CONFIGS_get] in H.
    destruct (8 =? b); [injection H as <-; apply in_eq |].
    destruct (16 =? b); [injection H as <-; right; apply in_eq |].
    destruct (32 =? b); [injection H as <-; do 2 right; apply in_eq |].
    destruct (64 =? b); [injection H as <-; do 3 right; apply in_eq |].
    discriminate.
Qed.

Lemma supported_bits (config : TakumConfig) :
  supported config ->
  overhead_bits config = 5 /\
  (bits config = 8 \/ bits config = 16 \/ bits config = 32 \/ bits config = 64).
Proof.
  intro H. apply supported_cases in H.
  destruct H as [-> | [-> | [-> | ->]]]; cbn; intuition lia.
Qed.

Lemma nar_value_supported (config : TakumConfig) :
  supported config -> nar_value config = Ok (- 2 ^ (bits config - 1)).
Proof.
  intro H. apply supported_cases in H.
  destruct H as [-> | [-> | [-> | ->]]]; reflexivity.
Qed.

(** ** Bias and regime *)

(** C7. [c_bias(r)] is [2^(r+1) - 1] for every [r] in [0, 7], so 1, 15 and
    255 at 0, 3 and 7, and it raises [ValueError], its out-of-range error,
    exactly when [r] is outside [0, 7]. *)
Theorem c_bias_spec :
  (forall r : Z,
      (0 <= r <= 7 -> c_bias r = Ok (2 ^ (r + 1) - 1)) /\
      (c_bias r = Raise ValueError <-> ~ 0 <= r <= 7) /\
      (returns (c_bias r) = false <-> ~ 0 <= r <= 7)) /\
  c_bias 0 = Ok 1 /\ c_bias 3 = Ok 15 /\ c_bias 7 = Ok 255.
Proof.
  split; [| repeat split; reflexivity].
  intro r.
  assert (Hin : 0 <= r <= 7 -> c_bias r = Ok (2 ^ (r + 1) - 1)).
  { intro Hr. unfold c_bias.
    replace ((0 <=? r) && (r <=? 7)) with true
      by (symmetry; apply andb_true_intro; split; apply Z.leb_le; lia).
    cbn [negb]. rewrite lshift_nonneg_count by lia.
    cbn [bind]. f_equal. lia. }
  assert (Hout : ~ 0 <= r <= 7 -> c_bias r = Raise ValueError).
  { intro Hr. unfold c_bias.
    destruct (Z.leb_spec 0 r), (Z.leb_spec r 7); cbn; try reflexivity; lia. }
  split; [exact Hin |].
  split; split.
  - intros Hraise Hr. rewrite (Hin Hr) in Hraise. discriminate.
  - exact Hout.
  - intros Hraise Hr. rewrite (Hin Hr) in Hraise. discriminate.
  - intro Hr. now rewrite (Hout Hr).
Qed.

Lemma compute_regime_pos (p : positive) :
  compute_regime (Zpos p) = Z.min 7 (Z.log2 (Zpos p + 1)).
Proof.
  unfold compute_regime. cbn [Z.eqb].
  change (Zpos p + 1) with (Zpos (p + 1)).
  rewrite bit_length_pos. f_equal. lia.
Qed.

Lemma compute_regime_range (l_abs : Z) :
  0 <= l_abs -> 0 <= compute_regime l_abs <= 7.
Proof.
  intro H. destruct l_abs as [| p | p]; [cbn; lia | | lia].
  rewrite compute_regime_pos.
  pose proof (Z.log2_nonneg (Zpos p + 1)). lia.
Qed.

(** Below the clamp the regime brackets [l_abs + 1] between two powers of
    two. *)
Lemma compute_regime_bracket (l_abs : Z) :
  0 <= l_abs <= 254 ->
  2 ^ compute_regime l_abs <= l_abs + 1 < 2 ^ (compute_regime l_abs + 1).
Proof.
  intro H. destruct l_abs as [| p | p]; [cbn; lia | | lia].
  rewrite compute_regime_pos.
  assert (Hlog : Z.log2 (Zpos p + 1) < 8)
    by (apply Z.log2_lt_pow2; cbn; lia).
  rewrite Z.min_r by lia.
  pose proof (Z.log2_spec (Zpos p + 1) ltac:(lia)) as Hs.
  replace (Z.succ (Z.log2 (Zpos p + 1))) with (Z.log2 (Zpos p + 1) + 1) in Hs by lia.
  exact Hs.
Qed.

(** ** No out-of-range regime *)

Lemma nie_ok {A : Type} (a : A) : no_index_error (Ok a).
Proof. discriminate. Qed.

Lemma nie_bind {A B : Type} (c : result A) (k : A -> result B) :
  no_index_error c -> (forall a, c = Ok a -> no_index_error (k a)) ->
  no_index_error (bind c k).
Proof.
  unfold no_index_error. intros Hc Hk.
  destruct c as [a | e]; cbn [bind]; [now apply Hk |].
  intro Heq. apply Hc. now inversion Heq.
Qed.

Lemma nie_lshift (a n : Z) : no_index_error (lshift a n).
Proof. unfold lshift; destruct (n <? 0); discriminate. Qed.

Lemma nie_rshift (a n : Z) : no_index_error (rshift a n).
Proof. unfold rshift; destruct (n <? 0); discriminate. Qed.

Lemma nie_float_of_int (n : Z) : no_index_error (float_of_int n).
Proof.
  unfold float_of_int; destruct (binary_normalize prec emax n 0 false); discriminate.
Qed.

Lemma nie_round (x : float) : no_index_error (round x).
Proof. destruct x; discriminate. Qed.

Lemma nie_int_of_float (x : float) : no_index_error (int_of_float x).
Proof. destruct x; discriminate. Qed.

Lemma nie_fdiv (x y : float) : no_index_error (fdiv x y).
Proof. destruct y; discriminate. Qed.

Lemma nie_int_truediv (a b : Z) : no_index_error (int_truediv a b).
Proof.
  unfold int_truediv.
  destruct b; [discriminate | |];
    (destruct a; [discriminate | |]);
    destruct (SFdiv_core_binary _ _ _ _ _ _) as [[q e] l];
    destruct (binary_round_aux _ _ _ _ _ _); discriminate.
Qed.

Lemma nie_tuple_get_lut (r : Z) :
  0 <= r <= 7 -> no_index_error (tuple_get C_BIAS_LUT r).
Proof. intro Hr. rewrite tuple_get_C_BIAS_LUT by exact Hr. apply nie_ok. Qed.

Create HintDb nie.
#[local] Hint Resolve nie_ok nie_lshift nie_rshift nie_float_of_int nie_round
  nie_int_of_float nie_fdiv nie_int_truediv nie_tuple_get_lut : nie.

Ltac nie_step :=
  match goal with
  | |- no_index_error (bind _ _) => apply nie_bind; [| intros ? _]
  | |- no_index_error (if ?b then _ else _) => destruct b
  | |- no_index_error (match ?o with Some _ => _ | None => _ end) => destruct o
  | |- no_index_error (Raise _) => discriminate
  | |- no_index_error _ => solve [auto with nie]
  end.

Lemma nie_characteristic (l : Z) :
  no_index_error (characteristic l (Z.abs l) (compute_regime (Z.abs l))).
Proof.
  pose proof (compute_regime_range (Z.abs l) (Z.abs_nonneg l)) as Hr.
  unfold characteristic. repeat nie_step.
Qed.

Lemma land_7_range (x : Z) : 0 <= Z.land x 7 <= 7.
Proof.
  change 7 with (Z.ones 3). rewrite Z.land_ones by lia.
  change (2 ^ 3) with 8. change (Z.ones 3) with 7.
  pose proof (Z.mod_pos_bound x 8 ltac:(lia)). lia.
Qed.

Lemma nie_nar_value (config : TakumConfig) : no_index_error (nar_value config).
Proof. unfold nar_value. repeat nie_step. Qed.

Lemma nie_assemble (f : enc_locals) (config : TakumConfig) :
  no_index_error (assemble f config).
Proof. unfold assemble. repeat nie_step. Qed.

Lemma nie_encode_locals math_log (value : float) (config : TakumConfig) :
  no_index_error (encode_locals math_log value config).
Proof.
  unfold encode_locals. cbv zeta.
  nie_step; [nie_step; nie_step |].
  nie_step; [nie_step |].
  nie_step; [apply nie_characteristic |].
  repeat nie_step.
Qed.

Lemma nie_encode math_log (value : float) (config : TakumConfig) :
  no_index_error (encode_takum_log math_log value config).
Proof.
  unfold encode_takum_log.
  destruct (isnan value); [apply nie_nar_value |].
  destruct (isinf value); [apply nie_nar_value |].
  destruct (SFeqb value fzero); [apply nie_ok |].
  apply nie_bind; [apply nie_encode_locals | intros; apply nie_assemble].
Qed.

Lemma nie_decode_locals (encoded : Z) (config : TakumConfig) :
  no_index_error (decode_locals encoded config).
Proof.
  unfold decode_locals, to_unsigned, extract_characteristic,
    extract_mantissa, rebuild_log. cbv zeta.
  do 4 (nie_step; [repeat nie_step |]).
  match goal with |- context [Z.land ?x 7] => pose proof (land_7_range x) end.
  repeat nie_step.
Qed.

Lemma nie_decode math_exp (encoded : Z) (config : TakumConfig) :
  no_index_error (decode_takum_log math_exp encoded config).
Proof.
  unfold decode_takum_log.
  nie_step; [apply nie_nar_value |].
  do 2 (nie_step; [apply nie_ok |]).
  nie_step; [apply nie_decode_locals |].
  unfold decode_l_float. repeat nie_step.
Qed.

(** ** Characteristic *)

Lemma bind_Ok_inv {A B : Type} (c : result A) (k : A -> result B) (b : B) :
  bind c k = Ok b -> exists a, c = Ok a /\ k a = Ok b.
Proof.
  destruct c as [a | e]; cbn [bind]; [| discriminate].
  intro H. now exists a.
Qed.

Lemma pow2_succ (r : Z) : 0 <= r -> 2 ^ (r + 1) = 2 * 2 ^ r.
Proof. intro H. rewrite Z.pow_add_r by lia. lia. Qed.

Lemma compute_regime_ge_1 (l_abs : Z) :
  1 <= l_abs -> 1 <= compute_regime l_abs <= 7.
Proof.
  intro H. destruct l_abs as [| p | p]; try lia.
  rewrite compute_regime_pos.
  assert (1 <= Z.log2 (Zpos p + 1)); [| lia].
  change 1 with (Z.log2 2) at 1. apply Z.log2_le_mono. lia.
Qed.

(** On the positive side the characteristic is [l - (2^(r+1) - 1)], between
    [-2^r] and [-1]. *)
Lemma characteristic_for_positive_log (l : Z) :
  1 <= l <= 254 ->
  let r := compute_regime (Z.abs l) in
  encode_characteristic l = Ok (l - (2 ^ (r + 1) - 1)) /\
  - 2 ^ r <= l - (2 ^ (r + 1) - 1) <= -1.
Proof.
  intros Hl r.
  assert (Habs : Z.abs l = l) by lia.
  pose proof (compute_regime_ge_1 (Z.abs l) ltac:(lia)) as Hr.
  pose proof (compute_regime_bracket (Z.abs l) ltac:(lia)) as Hb.
  fold r in Hr, Hb. rewrite Habs in Hb.
  rewrite pow2_succ in * by lia.
  split; [| lia].
  unfold encode_characteristic. cbv zeta.
  replace (Z.max (-255) (Z.min 255 l)) with l by lia.
  fold r. unfold characteristic.
  destruct (Z.leb_spec 0 l); [| lia].
  destruct (Z.ltb_spec 0 r); [| lia].
  rewrite tuple_get_C_BIAS_LUT by lia. cbn [bind].
  rewrite pow2_succ by lia. reflexivity.
Qed.

(** C3 (the code departs from it). On every rounded logarithm [l] from 1 to
    254 the characteristic of lines 190-194 is [l - (2^(r+1) - 1)] with
    [r = compute_regime(l)], which lies in [-2^r, -1]: it is negative. *)
Theorem characteristic_negative_for_positive_log :
  forall l : Z, 1 <= l <= 254 ->
    let r := compute_regime (Z.abs l) in
    encode_characteristic l = Ok (l - (2 ^ (r + 1) - 1)) /\
    - 2 ^ r <= l - (2 ^ (r + 1) - 1) <= -1.
Proof. exact characteristic_for_positive_log. Qed.

Lemma characteristic_negative_for_positive_log_witness :
  encode_characteristic 1 = Ok (-2) /\ -2 <= -2 <= -1.
Proof.
  exact (characteristic_negative_for_positive_log 1 (conj (Z.le_refl 1) (Zle_bool_imp_le 1 254 eq_refl))).
Defined.

(** On the negative side the characteristic is the non-negative
    [2^(r+1) - 2 - |l|] below [2^r], down to [l = -254]; the clamp value
    [l = -255] gives [-1]. *)
Lemma characteristic_for_negative_log (l : Z) :
  -254 <= l <= -1 ->
  let r := compute_regime (Z.abs l) in
  encode_characteristic l = Ok (2 ^ (r + 1) - 2 - Z.abs l) /\
  0 <= 2 ^ (r + 1) - 2 - Z.abs l <= 2 ^ r - 1.
Proof.
  intros Hl r.
  pose proof (compute_regime_ge_1 (Z.abs l) ltac:(lia)) as Hr.
  pose proof (compute_regime_bracket (Z.abs l) ltac:(lia)) as Hb.
  fold r in Hr, Hb.
  rewrite pow2_succ in * by lia.
  split; [| lia].
  unfold encode_characteristic. cbv zeta.
  replace (Z.max (-255) (Z.min 255 l)) with l by lia.
  fold r. unfold characteristic.
  destruct (Z.leb_spec 0 l); [lia |].
  destruct (Z.ltb_spec 0 r); [| lia].
  rewrite tuple_get_C_BIAS_LUT by lia. cbn [bind].
  rewrite pow2_succ by lia. f_equal. lia.
Qed.

Lemma characteristic_at_clamps :
  encode_characteristic (-255) = Ok (-1) /\ encode_characteristic 255 = Ok 0 /\
  encode_characteristic 0 = Ok 0.
Proof. repeat split; reflexivity. Qed.

(** ** Field widths *)

Lemma mantissa_bits_supported (config : TakumConfig) (r : Z) :
  supported config ->
  mantissa_bits config r = Z.max 0 (bits config - 5 - r).
Proof.
  intro H. destruct (supported_bits config H) as [Ho _].
  unfold mantissa_bits. rewrite Ho.
  destruct (Z.ltb_spec (bits config - 5 - r) 0); lia.
Qed.

(** What lines 171-203 leave in the local variables when they run to the
    end. *)
Lemma encode_locals_inv math_log (value : float) (config : TakumConfig)
  (f : enc_locals) :
  encode_locals math_log value config = Ok f ->
  e_s f = (if SFltb fzero value then 0 else 1) /\
  (exists ln, math_log (SFabs value) = Some ln /\ e_l_float f = fmul ftwo ln) /\
  (exists l, round (e_l_float f) = Ok l /\ e_l f = Z.max (-255) (Z.min 255 l)) /\
  e_d f = (if 0 <=? e_l f then 1 else 0) /\
  e_r f = compute_regime (Z.abs (e_l f)) /\
  characteristic (e_l f) (Z.abs (e_l f)) (e_r f) = Ok (e_c f) /\
  e_m_bits f = mantissa_bits config (e_r f).
Proof.
  unfold encode_locals. cbv zeta. intro H.
  apply bind_Ok_inv in H. destruct H as (ln & Hln & H).
  apply bind_Ok_inv in H. destruct H as (l & Hl & H).
  apply bind_Ok_inv in H. destruct H as (c & Hc & H).
  apply bind_Ok_inv in H. destruct H as (fl & Hfl & H).
  apply bind_Ok_inv in H. destruct H as (m & Hm & H).
  injection H as <-. cbn.
  destruct (math_log (SFabs value)) as [y |]; [| discriminate].
  injection Hln as ->.
  repeat split; eauto.
Qed.

Lemma encoder_regime_range math_log value config f :
  encode_locals math_log value config = Ok f -> 0 <= e_r f <= 7.
Proof.
  intro H. apply encode_locals_inv in H.
  destruct H as (_ & _ & _ & _ & Hr & _). rewrite Hr.
  apply compute_regime_range, Z.abs_nonneg.
Qed.

(** ** Regimes in the encoder and the decoder *)

Lemma decoder_regime_range (encoded : Z) (config : TakumConfig)
  (g : dec_locals) :
  decode_locals encoded config = Ok g -> 0 <= d_r g <= 7.
Proof.
  unfold decode_locals. cbv zeta. intro H.
  apply bind_Ok_inv in H. destruct H as (u & _ & H).
  apply bind_Ok_inv in H. destruct H as (x1 & _ & H).
  apply bind_Ok_inv in H. destruct H as (x2 & _ & H).
  apply bind_Ok_inv in H. destruct H as (x3 & _ & H).
  apply bind_Ok_inv in H. destruct H as (c & _ & H).
  apply bind_Ok_inv in H. destruct H as (m & _ & H).
  apply bind_Ok_inv in H. destruct H as (l & _ & H).
  injection H as <-. cbn [d_r]. apply land_7_range.
Qed.

(** C8. [compute_regime] is 0 at 0 and [min(7, floor(log2(l_abs + 1)))] at
    every positive [l_abs], so it lies in [0, 7] on the non-negative
    integers.  Every regime the encoder or the decoder computes lies in
    [0, 7], and the lookup [C_BIAS_LUT[r]] never raises: neither function
    ends in [IndexError], on any input. *)
Theorem compute_regime_spec :
  compute_regime 0 = 0 /\
  (forall p : positive,
      compute_regime (Zpos p) = Z.min 7 (Z.log2 (Zpos p + 1))) /\
  (forall n : N, 0 <= compute_regime (Z.of_N n) <= 7) /\
  (forall math_log value config f,
      encode_locals math_log value config = Ok f -> 0 <= e_r f <= 7) /\
  (forall encoded config g,
      decode_locals encoded config = Ok g -> 0 <= d_r g <= 7) /\
  (forall math_log value config,
      no_index_error (encode_takum_log math_log value config)) /\
  (forall math_exp encoded config,
      no_index_error (decode_takum_log math_exp encoded config)).
Proof.
  split; [reflexivity |].
  split; [exact compute_regime_pos |].
  split; [intro n; apply compute_regime_range; lia |].
  split; [exact encoder_regime_range |].
  split; [exact decoder_regime_range |].
  split; [exact nie_encode | exact nie_decode].
Qed.

(** C9, as the code has it. For every supported width and every regime [r]
    the encoder produces on it, [m_bits = max(0, bits - 5 - r)] and
    [1 + 1 + 3 + r + m_bits = max(bits, 5 + r)]: the sum is [bits] exactly
    when [r <= bits - 5], which is every regime at the widths 16, 32 and 64
    and the regimes 0 to 3 at width 8. *)
Theorem field_widths_sum :
  forall math_log value config f,
    supported config ->
    encoder_reaches math_log value config f ->
    let r := e_r f in
    let m_bits := e_m_bits f in
    0 <= r <= 7 /\
    m_bits = Z.max 0 (bits config - 5 - r) /\
    1 + 1 + 3 + r + m_bits = Z.max (bits config) (5 + r) /\
    (1 + 1 + 3 + r + m_bits = bits config <-> r <= bits config - 5) /\
    (16 <= bits config -> 1 + 1 + 3 + r + m_bits = bits config).
Proof.
  intros math_log value config f Hs (_ & _ & _ & Hf) r m_bits.
  pose proof (encoder_regime_range _ _ _ _ Hf) as Hr. fold r in Hr.
  pose proof (encode_locals_inv _ _ _ _ Hf) as (_ & _ & _ & _ & _ & _ & Hm).
  fold r m_bits in Hm.
  rewrite (mantissa_bits_supported config r Hs) in Hm.
  repeat split; lia.
Qed.

Lemma supported_TAKUM8 : supported TAKUM8.
Proof. left. reflexivity. Qed.

Lemma supported_TAKUM16 : supported TAKUM16.
Proof. right. left. reflexivity. Qed.

Lemma supported_TAKUM32 : supported TAKUM32.
Proof. right. right. left. reflexivity. Qed.

Lemma supported_TAKUM64 : supported TAKUM64.
Proof. right. right. right. left. reflexivity. Qed.

(** The encoder on 10000.0 at width 8: [l = 18], regime 4, no mantissa. *)
Lemma encode_locals_10000_takum8 :
  encoder_reaches sample_log f10000 TAKUM8
    {| e_s := 0; e_l_float := S754_finite false 5184960683398422 (-48);
       e_l := 18; e_d := 1; e_r := 4; e_c := -13; e_m_bits := 0;
       e_l_frac := S754_finite false 7578310566823296 (-54); e_m := 0 |}.
Proof. repeat split. Defined.

Lemma field_widths_sum_witness :
  0 <= 4 <= 7 /\
  0 = Z.max 0 (8 - 5 - 4) /\
  1 + 1 + 3 + 4 + 0 = Z.max 8 (5 + 4) /\
  (1 + 1 + 3 + 4 + 0 = 8 <-> 4 <= 8 - 5) /\
  (16 <= 8 -> 1 + 1 + 3 + 4 + 0 = 8).
Proof.
  exact (field_widths_sum sample_log f10000 TAKUM8 _
           supported_TAKUM8 encode_locals_10000_takum8).
Defined.

(** C9 as stated fails at width 8: for 10000.0 the encoder produces regime
    4 and an empty mantissa, and 1 + 1 + 3 + 4 + 0 is 9. *)
Lemma field_widths_sum_not_bits_takum8 :
  ~ (forall math_log value config f,
        supported config ->
        encoder_reaches math_log value config f ->
        1 + 1 + 3 + e_r f + e_m_bits f = bits config).
Proof.
  intro H.
  specialize (H sample_log f10000 TAKUM8 _ supported_TAKUM8
                encode_locals_10000_takum8).
  cbn in H. discriminate.
Qed.

(** ** Special values *)

Lemma encode_nar_inputs math_log (config : TakumConfig) :
  encode_takum_log math_log S754_nan config = nar_value config /\
  (forall s, encode_takum_log math_log (S754_infinity s) config = nar_value config).
Proof. split; reflexivity. Qed.

Lemma decode_nar math_exp (config : TakumConfig) :
  supported config ->
  decode_takum_log math_exp (- 2 ^ (bits config - 1)) config = Ok S754_nan.
Proof.
  intro H. unfold decode_takum_log.
  rewrite (nar_value_supported config H). cbn [bind].
  now rewrite Z.eqb_refl.
Qed.

Lemma decode_zero math_exp (config : TakumConfig) :
  supported config -> decode_takum_log math_exp 0 config = Ok fzero.
Proof.
  intro H. apply supported_cases in H.
  destruct H as [-> | [-> | [-> | ->]]]; reflexivity.
Qed.

(** C5. On every supported width the encoder maps NaN, +infinity and
    -infinity to the NaR pattern [-2^(bits-1)], the most negative integer
    of the width, and the decoder maps that pattern to NaN; all four calls
    return, none raises. *)
Theorem nar_in_band :
  forall math_log math_exp config,
    supported config ->
    let nar := - 2 ^ (bits config - 1) in
    nar_value config = Ok nar /\
    (forall x, in_width config x -> nar <= x) /\
    encode_takum_log math_log S754_nan config = Ok nar /\
    encode_takum_log math_log (S754_infinity false) config = Ok nar /\
    encode_takum_log math_log (S754_infinity true) config = Ok nar /\
    decode_takum_log math_exp nar config = Ok S754_nan.
Proof.
  intros math_log math_exp config H nar.
  pose proof (nar_value_supported config H) as Hnar.
  destruct (encode_nar_inputs math_log config) as [Hnan Hinf].
  split; [exact Hnar |].
  split; [intros x Hx; unfold in_width in Hx; subst nar; lia |].
  rewrite Hnan, !Hinf, Hnar.
  repeat split. apply decode_nar, H.
Qed.

Lemma nar_in_band_witness :
  nar_value TAKUM16 = Ok (-32768) /\
  (forall x, in_width TAKUM16 x -> -32768 <= x) /\
  encode_takum_log sample_log S754_nan TAKUM16 = Ok (-32768) /\
  encode_takum_log sample_log (S754_infinity false) TAKUM16 = Ok (-32768) /\
  encode_takum_log sample_log (S754_infinity true) TAKUM16 = Ok (-32768) /\
  decode_takum_log pow2_exp (-32768) TAKUM16 = Ok S754_nan.
Proof.
  exact (nar_in_band sample_log pow2_exp TAKUM16 supported_TAKUM16).
Defined.

(** C6. On every supported width [encode(0.0)] is the pattern 0 (for the
    zero of either sign), [decode(0)] is exactly [+0.0], and so is
    [decode(encode(0.0))]. *)
Theorem zero_fixpoint :
  forall math_log math_exp config,
    supported config ->
    (forall s, encode_takum_log math_log (S754_zero s) config = Ok 0) /\
    decode_takum_log math_exp 0 config = Ok fzero /\
    (e <- encode_takum_log math_log fzero config ;;
     decode_takum_log math_exp e config) = Ok fzero.
Proof.
  intros math_log math_exp config H.
  pose proof (decode_zero math_exp config H) as Hd.
  split; [intros []; reflexivity |].
  split; [exact Hd |].
  change (encode_takum_log math_log fzero config) with (@Ok Z 0).
  cbn [bind]. exact Hd.
Qed.

Lemma zero_fixpoint_witness :
  (forall s, encode_takum_log sample_log (S754_zero s) TAKUM8 = Ok 0) /\
  decode_takum_log pow2_exp 0 TAKUM8 = Ok fzero /\
  (e <- encode_takum_log sample_log fzero TAKUM8 ;;
   decode_takum_log pow2_exp e TAKUM8) = Ok fzero.
Proof.
  exact (zero_fixpoint sample_log pow2_exp TAKUM8 supported_TAKUM8).
Defined.

(** ** The encoder on the reference inputs *)

(** The encoder consults [math.log] at [abs(value)] only. *)
Lemma encode_takum_log_at math_log (value : float) (config : TakumConfig)
  (y : float) :
  math_log (SFabs value) = Some y ->
  encode_takum_log math_log value config =
  encode_takum_log (fun _ => Some y) value config.
Proof.
  intro H. unfold encode_takum_log, encode_locals. now rewrite H.
Qed.

Lemma encode_locals_at math_log (value : float) (config : TakumConfig)
  (y : float) :
  math_log (SFabs value) = Some y ->
  encode_locals math_log value config =
  encode_locals (fun _ => Some y) value config.
Proof.
  intro H. unfold encode_locals. now rewrite H.
Qed.

(** C1 (the code departs from it). With [math.log] exact on 1, [math.e] and
    [SQRT_E], the encoder at width 16 returns 0x4000 for 1.0, -0x4000 for
    -1.0, -0x400 for e and -0x800 for sqrt(e), where [TEST_ENCODINGS] lists
    0x2000, -0x2000, 0x4000 and 0x2800 and [one_value] is 0x2000; of the
    five entries it reproduces 0x0000 for 0.0 only. *)
Theorem encode_reference_values_16 :
  forall math_log,
    math_log fone = Some fzero ->
    math_log math_e = Some fone ->
    math_log SQRT_E = Some fhalf ->
    encode_takum_log math_log fone TAKUM16 = Ok 0x4000 /\
    encode_takum_log math_log (SFopp fone) TAKUM16 = Ok (- 0x4000) /\
    encode_takum_log math_log math_e TAKUM16 = Ok (- 0x400) /\
    encode_takum_log math_log SQRT_E TAKUM16 = Ok (- 0x800) /\
    encode_takum_log math_log fzero TAKUM16 = Ok 0x0000 /\
    map (fun t => snd (fst t)) TEST_ENCODINGS =
      [0x2000; - 0x2000; 0x0000; 0x4000; 0x2800] /\
    one_value TAKUM16 = Ok 0x2000.
Proof.
  intros math_log H1 He Hs.
  rewrite (encode_takum_log_at math_log fone TAKUM16 fzero H1).
  rewrite (encode_takum_log_at math_log (SFopp fone) TAKUM16 fzero H1).
  rewrite (encode_takum_log_at math_log math_e TAKUM16 fone He).
  rewrite (encode_takum_log_at math_log SQRT_E TAKUM16 fhalf Hs).
  repeat split; vm_compute; reflexivity.
Qed.

Lemma encode_reference_values_16_witness :
  encode_takum_log sample_log fone TAKUM16 = Ok 0x4000 /\
  encode_takum_log sample_log (SFopp fone) TAKUM16 = Ok (- 0x4000) /\
  encode_takum_log sample_log math_e TAKUM16 = Ok (- 0x400) /\
  encode_takum_log sample_log SQRT_E TAKUM16 = Ok (- 0x800) /\
  encode_takum_log sample_log fzero TAKUM16 = Ok 0x0000 /\
  map (fun t => snd (fst t)) TEST_ENCODINGS =
    [0x2000; - 0x2000; 0x0000; 0x4000; 0x2800] /\
  one_value TAKUM16 = Ok 0x2000.
Proof.
  exact (encode_reference_values_16 sample_log eq_refl eq_refl eq_refl).
Defined.

(** C2 (the code departs from it). With [math.log(math.e) = 1.0], the
    encoder on [-e] at width 16 returns -66560, below the least 16-bit
    signed integer -32768. *)
Theorem encode_out_of_width :
  forall math_log,
    math_log math_e = Some fone ->
    encode_takum_log math_log (SFopp math_e) TAKUM16 = Ok (-66560) /\
    ~ in_width TAKUM16 (-66560).
Proof.
  intros math_log He.
  rewrite (encode_takum_log_at math_log (SFopp math_e) TAKUM16 fone He).
  split; [vm_compute; reflexivity |].
  unfold in_width. cbn. lia.
Qed.

Lemma encode_out_of_width_witness :
  encode_takum_log sample_log (SFopp math_e) TAKUM16 = Ok (-66560) /\
  ~ in_width TAKUM16 (-66560).
Proof.
  exact (encode_out_of_width sample_log eq_refl).
Defined.

(** C4 (the code departs from it). At width 16 and with
    [math.log(math.e) = 1.0], the encoder packs [s = 0, d = 1, r = 1,
    c = -1, m = 0, l = 2] for [e] into the pattern -1024, from which the
    decoder extracts [s = 1, d = 1, r = 7, c = 64, m = 0, l = 319].  On the
    negative side the fields come back but the logarithm does not: the
    fields [s = 0, d = 0, r = 1, c = 1, m = 0] of [l = -1] assemble to
    0x0C00, which decodes to the same fields and [l = -2]. *)
Theorem decode_not_inverse_of_encode :
  forall math_log,
    math_log math_e = Some fone ->
    let f := {| e_s := 0; e_l_float := ftwo; e_l := 2; e_d := 1; e_r := 1;
                e_c := -1; e_m_bits := 10; e_l_frac := fzero; e_m := 0 |} in
    let g := {| e_s := 0; e_l_float := SFopp fone; e_l := -1; e_d := 0;
                e_r := 1; e_c := 1; e_m_bits := 10; e_l_frac := fzero;
                e_m := 0 |} in
    encoder_reaches math_log math_e TAKUM16 f /\
    assemble f TAKUM16 = Ok (-1024) /\
    encode_takum_log math_log math_e TAKUM16 = Ok (-1024) /\
    decode_locals (-1024) TAKUM16 =
      Ok {| d_s := 1; d_d := 1; d_r := 7; d_m_bits := 4; d_c := 64;
            d_m := 0; d_l := 319 |} /\
    encode_characteristic (-1) = Ok 1 /\
    assemble g TAKUM16 = Ok 0x0C00 /\
    decode_locals 0x0C00 TAKUM16 =
      Ok {| d_s := 0; d_d := 0; d_r := 1; d_m_bits := 10; d_c := 1;
            d_m := 0; d_l := -2 |}.
Proof.
  intros math_log He f g.
  unfold encoder_reaches.
  rewrite (encode_takum_log_at math_log math_e TAKUM16 fone He).
  rewrite (encode_locals_at math_log math_e TAKUM16 fone He).
  repeat split; vm_compute; reflexivity.
Qed.

Lemma decode_not_inverse_of_encode_witness :
  encode_takum_log sample_log math_e TAKUM16 = Ok (-1024) /\
  decode_locals (-1024) TAKUM16 =
    Ok {| d_s := 1; d_d := 1; d_r := 7; d_m_bits := 4; d_c := 64;
          d_m := 0; d_l := 319 |}.
Proof.
  pose proof (decode_not_inverse_of_encode sample_log eq_refl) as H.
  cbv zeta in H. destruct H as (_ & _ & H1 & H2 & _).
  exact (conj H1 H2).
Defined.

(** ** Rounding of binary64 results *)

Lemma digits2_pos_lower (p : positive) :
  2 ^ (Zpos (digits2_pos p) - 1) <= Zpos p.
Proof.
  induction p as [p IH | p IH |]; cbn [digits2_pos].
  - rewrite Pos2Z.inj_succ.
    replace (Z.succ (Zpos (digits2_pos p)) - 1) with (Zpos (digits2_pos p) - 1 + 1) by lia.
    rewrite Z.pow_add_r by lia. lia.
  - rewrite Pos2Z.inj_succ.
    replace (Z.succ (Zpos (digits2_pos p)) - 1) with (Zpos (digits2_pos p) - 1 + 1) by lia.
    rewrite Z.pow_add_r by lia. lia.
  - cbn. lia.
Qed.

(** [m < 2^j] bounds the number of digits of [m] by [j]. *)
Lemma Zdigits2_le (m j : Z) :
  0 <= m -> 0 <= j -> m < 2 ^ j -> Zdigits2 m <= j.
Proof.
  intros Hm Hj Hlt. destruct m as [| p | p]; cbn [Zdigits2]; try lia.
  pose proof (digits2_pos_lower p) as Hd.
  destruct (Z.le_gt_cases (Zpos (digits2_pos p)) j) as [| Hgt]; [assumption |].
  assert (2 ^ j <= 2 ^ (Zpos (digits2_pos p) - 1))
    by (apply Z.pow_le_mono_r; lia).
  lia.
Qed.

Lemma shr_1_m (r : shr_record) :
  0 <= shr_m r -> shr_m (shr_1 r) = shr_m r / 2.
Proof.
  destruct r as [m b s]. cbn [shr_m].
  destruct m as [| [p | p |] | p]; intro H; cbn [shr_1 shr_m]; try lia.
  - reflexivity.
  - apply Z.div_unique with (r := 1); lia.
  - apply Z.div_unique with (r := 0); lia.
  - reflexivity.
Qed.

Lemma iter_pos_shr_1_m (p : positive) :
  forall r, 0 <= shr_m r ->
    shr_m (iter_pos shr_1 p r) = shr_m r / 2 ^ Zpos p.
Proof.
  induction p as [p IH | p IH |]; intros r Hr; cbn [iter_pos].
  - assert (H1 : 0 <= shr_m (shr_1 r))
      by (rewrite shr_1_m by assumption; apply Z.div_pos; lia).
    assert (H2 : 0 <= shr_m (iter_pos shr_1 p (shr_1 r)))
      by (rewrite IH by assumption; apply Z.div_pos; lia).
    rewrite IH, IH, shr_1_m by assumption.
    rewrite !Z.div_div by lia. f_equal.
    rewrite (Pos2Z.inj_xI p).
    replace (2 * Zpos p + 1) with (1 + Zpos p + Zpos p) by lia.
    rewrite !Z.pow_add_r by lia. change (2 ^ 1) with 2. lia.
  - assert (H2 : 0 <= shr_m (iter_pos shr_1 p r))
      by (rewrite IH by assumption; apply Z.div_pos; lia).
    rewrite IH, IH by assumption.
    rewrite Z.div_div by lia. f_equal.
    rewrite (Pos2Z.inj_xO p).
    replace (2 * Zpos p) with (Zpos p + Zpos p) by lia.
    rewrite Z.pow_add_r by lia. reflexivity.
  - rewrite shr_1_m by assumption. reflexivity.
Qed.

Lemma shr_spec (mrs : shr_record) (e n : Z) :
  0 <= shr_m mrs ->
  shr_m (fst (shr mrs e n)) = shr_m mrs / 2 ^ Z.max 0 n /\
  snd (shr mrs e n) = e + Z.max 0 n.
Proof.
  intro H. destruct n as [| p | p]; cbn [shr fst snd].
  - cbn. rewrite Z.div_1_r. lia.
  - rewrite iter_pos_shr_1_m by assumption.
    replace (Z.max 0 (Zpos p)) with (Zpos p) by lia. lia.
  - replace (Z.max 0 (Zneg p)) with 0 by lia. cbn. rewrite Z.div_1_r. lia.
Qed.

Lemma shr_m_of_loc (m : Z) (l : location) :
  shr_m (shr_record_of_loc m l) = m.
Proof. destruct l as [| []]; reflexivity. Qed.

Lemma shr_fexp_spec (m e : Z) (l : location) :
  0 <= m ->
  let n := Z.max 0 (fexp prec emax (Zdigits2 m + e) - e) in
  shr_m (fst (shr_fexp prec emax m e l)) = m / 2 ^ n /\
  snd (shr_fexp prec emax m e l) = e + n.
Proof.
  intros H n. unfold shr_fexp.
  pose proof (shr_spec (shr_record_of_loc m l) e
                (fexp prec emax (Zdigits2 m + e) - e)) as Hs.
  rewrite shr_m_of_loc in Hs. apply Hs, H.
Qed.

Lemma round_nearest_even_range (m : Z) (l : location) :
  m <= round_nearest_even m l <= m + 1.
Proof.
  destruct l as [| []]; cbn [round_nearest_even]; try lia.
  destruct (Z.even m); lia.
Qed.

Lemma pow2_div_lt (m a n : Z) :
  0 <= n <= a -> m < 2 ^ a -> m / 2 ^ n < 2 ^ (a - n).
Proof.
  intros Hn Hm. apply Z.div_lt_upper_bound; [lia |].
  rewrite <- Z.pow_add_r by lia. now replace (n + (a - n)) with a by lia.
Qed.

Lemma pow2_div_le (m a n : Z) :
  0 <= n <= a -> m <= 2 ^ a -> m / 2 ^ n <= 2 ^ (a - n).
Proof.
  intros Hn Hm.
  assert (H : m / 2 ^ n <= 2 ^ a / 2 ^ n) by (apply Z.div_le_mono; lia).
  replace (2 ^ a) with (2 ^ (a - n) * 2 ^ n) in H
    by (rewrite <- Z.pow_add_r by lia; f_equal; lia).
  rewrite Z.div_mul in H by lia. exact H.
Qed.

(** Rounding [mx * 2^ex < 2^k] to binary64 neither overflows nor passes
    [2^k]. *)
Lemma binary_round_aux_within (sx : bool) (mx ex : Z) (lx : location) (k : Z) :
  0 <= mx -> ex <= k -> mx < 2 ^ (k - ex) ->
  -1074 <= k < 1024 -> ex <= 971 ->
  rounded_within sx k (binary_round_aux prec emax sx mx ex lx).
Proof.
  intros Hmx Hex Hlt Hk Hex'.
  unfold binary_round_aux.
  pose proof (shr_fexp_spec mx ex lx Hmx) as H1. cbv zeta in H1.
  destruct (shr_fexp prec emax mx ex lx) as [mrs1 e1]. cbn [fst snd] in H1.
  destruct H1 as [Hm1 He1].
  set (n1 := Z.max 0 (fexp prec emax (Zdigits2 mx + ex) - ex)) in *.
  assert (Hd : Zdigits2 mx <= k - ex) by (apply Zdigits2_le; lia).
  assert (Hf1 : fexp prec emax (Zdigits2 mx + ex) <= Z.min k 971)
    by (unfold fexp, emin, prec, emax; lia).
  assert (Hn1 : 0 <= n1 <= k - ex) by lia.
  assert (Hm1lt : shr_m mrs1 < 2 ^ (k - e1)).
  { rewrite Hm1, He1. replace (k - (ex + n1)) with (k - ex - n1) by lia.
    apply pow2_div_lt; lia. }
  assert (Hm1nn : 0 <= shr_m mrs1) by (rewrite Hm1; apply Z.div_pos; lia).
  pose proof (round_nearest_even_range (shr_m mrs1) (loc_of_shr_record mrs1)) as Hr.
  set (m1' := round_nearest_even (shr_m mrs1) (loc_of_shr_record mrs1)) in *.
  pose proof (shr_fexp_spec m1' e1 loc_Exact ltac:(lia)) as H2. cbv zeta in H2.
  destruct (shr_fexp prec emax m1' e1 loc_Exact) as [mrs2 e2]. cbn [fst snd] in H2.
  destruct H2 as [Hm2 He2].
  set (n2 := Z.max 0 (fexp prec emax (Zdigits2 m1' + e1) - e1)) in *.
  assert (Hd' : Zdigits2 m1' <= k - e1 + 1).
  { apply Zdigits2_le; try lia.
    rewrite Z.pow_add_r by lia. lia. }
  assert (Hf2 : fexp prec emax (Zdigits2 m1' + e1) <= Z.min k 971)
    by (unfold fexp, emin, prec, emax; lia).
  assert (Hn2 : 0 <= n2 <= k - e1) by lia.
  assert (Hm2le : shr_m mrs2 <= 2 ^ (k - e2)).
  { rewrite Hm2, He2. replace (k - (e1 + n2)) with (k - e1 - n2) by lia.
    apply pow2_div_le; lia. }
  assert (Hm2nn : 0 <= shr_m mrs2) by (rewrite Hm2; apply Z.div_pos; lia).
  destruct (shr_m mrs2) as [| m | m] eqn:Em; cbn [rounded_within].
  - reflexivity.
  - destruct (Z.leb_spec e2 (emax - prec)) as [_ | Hbad];
      [| unfold emax, prec in Hbad; lia].
    cbn. repeat split; lia.
  - lia.
Qed.

Lemma pos_iter_xO (d : positive) (m : positive) :
  Zpos (Pos.iter xO m d) = Zpos m * 2 ^ Zpos d.
Proof.
  revert m. induction d as [d IH | d IH |]; intro m; cbn [Pos.iter].
  - rewrite (Pos2Z.inj_xO (Pos.iter xO (Pos.iter xO m d) d)), !IH.
    rewrite (Pos2Z.inj_xI d).
    replace (2 * Zpos d + 1) with (1 + Zpos d + Zpos d) by lia.
    rewrite !Z.pow_add_r by lia. change (2 ^ 1) with 2. lia.
  - rewrite !IH. rewrite (Pos2Z.inj_xO d).
    replace (2 * Zpos d) with (Zpos d + Zpos d) by lia.
    rewrite Z.pow_add_r by lia. lia.
  - rewrite (Pos2Z.inj_xO m). change (2 ^ 1) with 2. lia.
Qed.

(** [shl_align] keeps the value and never raises the exponent. *)
Lemma shl_align_spec (mx : positive) (ex ex' : Z) :
  let '(mz, ez) := shl_align mx ex ex' in
  ez = Z.min ex ex' /\ Zpos mz = Zpos mx * 2 ^ (ex - ez).
Proof.
  unfold shl_align.
  destruct (ex' - ex) as [| d | d] eqn:E.
  - split; [lia |]. rewrite Z.sub_diag. cbn. lia.
  - split; [lia |]. rewrite Z.sub_diag. cbn. lia.
  - split; [lia |]. rewrite pos_iter_xO. f_equal. f_equal. lia.
Qed.

Lemma binary_round_within (sx : bool) (mx : positive) (ex k : Z) :
  ex <= k -> Zpos mx < 2 ^ (k - ex) ->
  -1074 <= k < 1024 -> ex <= 971 ->
  rounded_within sx k (binary_round prec emax sx mx ex).
Proof.
  intros Hex Hlt Hk Hex'. unfold binary_round.
  pose proof (shl_align_spec mx ex
                (fexp prec emax (Zpos (digits2_pos mx) + ex))) as Hs.
  destruct (shl_align mx ex _) as [mz ez]. destruct Hs as [Hez Hmz].
  apply binary_round_aux_within; try lia.
  rewrite Hmz.
  replace (k - ez) with ((k - ex) + (ex - ez)) by lia.
  rewrite Z.pow_add_r by lia.
  apply Z.mul_lt_mono_pos_r; [apply Z.pow_pos_nonneg; lia | exact Hlt].
Qed.

Lemma mag_le_pow2_of_within (s : bool) (k : Z) (x : float) :
  rounded_within s k x -> mag_le_pow2 x k = true.
Proof.
  destruct x as [| | | s' m e]; cbn; try tauto.
  intros (_ & He & Hm). apply andb_true_intro. split; [apply Z.leb_le | apply Z.leb_le]; lia.
Qed.

Lemma pow2_le_mono (a b : Z) : 0 <= a <= b -> 2 ^ a <= 2 ^ b.
Proof. intro H. apply Z.pow_le_mono_r; lia. Qed.

(** [l + q] for an exactly held [|l| <= 510] and a fraction [q] in [0, 1]
    stays within 512. *)
Lemma fadd_int_fraction (l : Z) (x q : float) :
  holds_int l x -> unit_fraction q -> Z.abs l <= 510 ->
  mag_le_pow2 (fadd x q) 9 = true.
Proof.
  intros Hx Hq Hl. unfold fadd, unit_fraction in *.
  destruct x as [sx | | | sx mx ex]; cbn [holds_int] in Hx; try tauto;
    destruct q as [sy | | | sy my ey]; cbn [rounded_within] in Hq; try tauto.
  - cbn. destruct sx, sy; reflexivity.
  - destruct Hq as (_ & He & Hm). cbn [SFadd mag_le_pow2].
    apply andb_true_intro; split; apply Z.leb_le; [lia |].
    pose proof (pow2_le_mono (0 - ey) (9 - ey) ltac:(lia)). lia.
  - destruct Hx as (_ & He & Hm). cbn [SFadd mag_le_pow2].
    apply andb_true_intro; split; apply Z.leb_le; [lia |].
    rewrite Hm.
    replace (9 - ex) with (9 + (- ex)) by lia. rewrite Z.pow_add_r by lia.
    apply Z.mul_le_mono_nonneg_r; [apply Z.pow_nonneg; lia |].
    change (2 ^ 9) with 512. lia.
  - destruct Hx as (_ & Hex & Hmx). destruct Hq as (_ & Hey & Hmy).
    cbn [SFadd].
    set (ez := Z.min ex ey).
    pose proof (shl_align_spec mx ex ez) as Hax.
    pose proof (shl_align_spec my ey ez) as Hay.
    destruct (shl_align mx ex ez) as [mx' ex'], (shl_align my ey ez) as [my' ey'].
    cbn [fst]. destruct Hax as [Hex' Hmx'], Hay as [Hey' Hmy'].
    assert (Eex : ex' = ez) by (subst ez; lia).
    assert (Eey : ey' = ez) by (subst ez; lia).
    rewrite Eex in Hmx'. rewrite Eey in Hmy'.
    assert (Hbx : Zpos mx' = Z.abs l * 2 ^ (- ez)).
    { rewrite Hmx', Hmx, <- Z.mul_assoc, <- Z.pow_add_r by lia.
      f_equal. f_equal. lia. }
    assert (Hby : Zpos my' <= 2 ^ (- ez)).
    { rewrite Hmy'. replace (- ez) with ((0 - ey) + (ey - ez)) by lia.
      rewrite Z.pow_add_r by lia.
      apply Z.mul_le_mono_nonneg_r; [apply Z.pow_nonneg; lia | exact Hmy]. }
    assert (Hpow : 0 < 2 ^ (- ez)) by (apply Z.pow_pos_nonneg; lia).
    assert (Hsum : Z.abs (cond_Zopp sx (Zpos mx') + cond_Zopp sy (Zpos my'))
                   < 2 ^ (9 - ez)).
    { replace (9 - ez) with (9 + (- ez)) by lia. rewrite Z.pow_add_r by lia.
      change (2 ^ 9) with 512.
      assert (Z.abs (cond_Zopp sx (Zpos mx') + cond_Zopp sy (Zpos my'))
              <= Zpos mx' + Zpos my') by (destruct sx, sy; cbn [cond_Zopp]; lia).
      nia. }
    assert (Hez : ez <= 0) by (subst ez; lia).
    destruct (cond_Zopp sx (Zpos mx') + cond_Zopp sy (Zpos my')) as [| p | p];
      cbn [binary_normalize].
    + reflexivity.
    + apply (mag_le_pow2_of_within false), binary_round_within; lia.
    + apply (mag_le_pow2_of_within true), binary_round_within; lia.
Qed.

(** The quotient digits [SFdiv_core_binary] hands to the rounding. *)
Lemma SFdiv_core_binary_spec (m1 e1 m2 e2 : Z) :
  0 < m1 -> 0 < m2 ->
  let '(q, e', _) := SFdiv_core_binary prec emax m1 e1 m2 e2 in
  e' = Z.min (fexp prec emax (Zdigits2 m1 + e1 - (Zdigits2 m2 + e2))) (e1 - e2) /\
  0 <= q /\ q * m2 <= m1 * 2 ^ (e1 - e2 - e').
Proof.
  intros H1 H2. unfold SFdiv_core_binary.
  set (e' := Z.min _ (e1 - e2)).
  assert (Hs : 0 <= e1 - e2 - e') by (subst e'; lia).
  set (m' := match e1 - e2 - e' with
             | Z0 => m1
             | Zpos _ => Z.shiftl m1 (e1 - e2 - e')
             | Zneg _ => 0
             end).
  assert (Hm' : m' = m1 * 2 ^ (e1 - e2 - e')).
  { subst m'. destruct (e1 - e2 - e') as [| p | p] eqn:E; try lia.
    now rewrite Z.shiftl_mul_pow2. }
  pose proof (Z_div_mod m' m2 ltac:(lia)) as Hdiv.
  destruct (Z.div_eucl m' m2) as [q r]. destruct Hdiv as [Heq Hr].
  split; [reflexivity |].
  assert (0 <= m') by (rewrite Hm'; apply Z.mul_nonneg_nonneg; [lia | apply Z.pow_nonneg; lia]).
  split; [nia |]. rewrite <- Hm'. nia.
Qed.

(** Halving keeps a float within [2^k]. *)
Lemma fdiv_two_within (x : float) (k : Z) :
  -1074 <= k < 1024 -> mag_le_pow2 x k = true ->
  exists y, fdiv x ftwo = Ok y /\ mag_le_pow2 y k = true.
Proof.
  intros Hk Hx. unfold fdiv, ftwo.
  eexists; split; [reflexivity |].
  destruct x as [sx | | | sx mx ex]; cbn [mag_le_pow2] in Hx; try discriminate.
  - reflexivity.
  - apply andb_prop in Hx. destruct Hx as [Hex Hmx].
    apply Z.leb_le in Hex, Hmx.
    cbn [SFdiv].
    pose proof (SFdiv_core_binary_spec (Zpos mx) ex 4503599627370496 (-51)
                  ltac:(lia) ltac:(lia)) as Hc.
    destruct (SFdiv_core_binary prec emax (Zpos mx) ex 4503599627370496 (-51))
      as [[q e'] l].
    destruct Hc as (He' & Hq & Hle).
    change (Zdigits2 4503599627370496) with 53 in He'.
    assert (Hd : Zdigits2 (Zpos mx) <= k - ex + 1).
    { apply Zdigits2_le; try lia. rewrite Z.pow_add_r by lia. lia. }
    assert (Hf : fexp prec emax (Zdigits2 (Zpos mx) + ex - (53 + -51)) <= Z.min k 971)
      by (unfold fexp, emin, prec, emax; lia).
    apply (mag_le_pow2_of_within (xorb sx false)).
    apply binary_round_aux_within; try lia.
    assert (Hpow : Zpos mx * 2 ^ (ex - -51 - e') <= 2 ^ (k - e') * 2 ^ 51).
    { rewrite <- Z.pow_add_r by lia.
      replace (k - e' + 51) with ((k - ex) + (ex - -51 - e')) by lia.
      rewrite Z.pow_add_r by lia.
      apply Z.mul_le_mono_nonneg_r; [apply Z.pow_nonneg; lia | exact Hmx]. }
    assert (0 < 2 ^ (k - e')) by (apply Z.pow_pos_nonneg; lia).
    change (2 ^ 51) with 2251799813685248 in Hpow. lia.
Qed.

(** [m / 2^j] for [0 <= m < 2^j] is a fraction in [0, 1]. *)
Lemma int_truediv_fraction (m j : Z) :
  0 <= j -> 0 <= m < 2 ^ j ->
  exists q, int_truediv m (2 ^ j) = Ok q /\ unit_fraction q.
Proof.
  intros Hj Hm. unfold int_truediv.
  assert (Hp : 0 < 2 ^ j) by (apply Z.pow_pos_nonneg; lia).
  destruct (2 ^ j) as [| b | b] eqn:Eb; try lia.
  destruct m as [| a | a]; try lia.
  - eexists; split; [reflexivity |]. reflexivity.
  - cbn [Z.abs Z.ltb Z.compare xorb].
    pose proof (SFdiv_core_binary_spec (Zpos a) 0 (Zpos b) 0
                  ltac:(lia) ltac:(lia)) as Hc.
    destruct (SFdiv_core_binary prec emax (Zpos a) 0 (Zpos b) 0) as [[q e'] l].
    destruct Hc as (He' & Hq & Hle).
    assert (He0 : e' <= 0) by lia.
    assert (Hlt : q < 2 ^ (0 - e')).
    { replace (0 - 0 - e') with (0 - e') in Hle by lia.
      assert (0 < 2 ^ (0 - e')) by (apply Z.pow_pos_nonneg; lia). nia. }
    pose proof (binary_round_aux_within false q e' l 0
                  Hq He0 Hlt ltac:(lia) ltac:(lia)) as Hw.
    unfold unit_fraction.
    destruct (binary_round_aux prec emax false q e' l) as [s | | | s m e];
      cbn [rounded_within] in Hw; try tauto;
      eexists; (split; [reflexivity |]); exact Hw.
Qed.

(** Every integer logarithm the decoder can rebuild converts exactly. *)
Lemma float_of_int_exact (l : Z) :
  -255 <= l <= 382 ->
  exists x, float_of_int l = Ok x /\ holds_int l x.
Proof.
  intro Hl.
  assert (Hall : forallb holds_intb (Zrange (-255) 638) = true)
    by (vm_compute; reflexivity).
  pose proof (Zrange_forallb holds_intb (-255) 638 Hall l ltac:(lia)) as Hb.
  unfold holds_intb in Hb.
  destruct (float_of_int l) as [[s | | | s m e] | ]; try discriminate;
    eexists; (split; [reflexivity |]); cbn [holds_int].
  - now apply Z.eqb_eq.
  - apply andb_prop in Hb. destruct Hb as [Hb H3].
    apply andb_prop in Hb. destruct Hb as [H1 H2].
    apply Bool.eqb_prop in H1. apply Z.leb_le in H2. apply Z.eqb_eq in H3.
    auto.
Qed.

Lemma holds_int_within (l : Z) (x : float) :
  holds_int l x -> Z.abs l <= 512 -> mag_le_pow2 x 9 = true.
Proof.
  intros Hx Hl.
  destruct x as [sx | | | sx mx ex]; cbn [holds_int] in Hx;
    [reflexivity | contradiction | contradiction |].
  destruct Hx as (_ & He & Hm). cbn [mag_le_pow2].
  apply andb_true_intro; split; apply Z.leb_le; [lia |].
  rewrite Hm.
  replace (9 - ex) with (9 + (- ex)) by lia. rewrite Z.pow_add_r by lia.
  apply Z.mul_le_mono_nonneg_r; [apply Z.pow_nonneg; lia |].
  change (2 ^ 9) with 512. lia.
Qed.

(** ** The decoder *)

Lemma to_unsigned_ok (encoded : Z) (config : TakumConfig) :
  supported config -> exists u, to_unsigned encoded config = Ok u.
Proof.
  intro H. destruct (supported_bits config H) as [_ Hb].
  unfold to_unsigned. destruct (encoded <? 0); [| eauto].
  rewrite lshift_nonneg_count by lia. cbn [bind]. eauto.
Qed.

Lemma land_mask_range (x n : Z) :
  0 <= n -> 0 <= Z.land x (1 * 2 ^ n - 1) < 2 ^ n.
Proof.
  intro Hn.
  replace (1 * 2 ^ n - 1) with (Z.ones n) by (rewrite Z.ones_equiv; lia).
  rewrite Z.land_ones by exact Hn.
  apply Z.mod_pos_bound, Z.pow_pos_nonneg; lia.
Qed.

Lemma extract_characteristic_range (u r m_bits : Z) :
  0 <= r -> 0 <= m_bits ->
  exists c, extract_characteristic u r m_bits = Ok c /\ 0 <= c < 2 ^ r.
Proof.
  intros Hr Hm. unfold extract_characteristic.
  destruct (Z.ltb_spec 0 r).
  - rewrite rshift_nonneg_count, lshift_nonneg_count by lia. cbn [bind].
    eexists; split; [reflexivity |]. apply land_mask_range, Hr.
  - exists 0. split; [reflexivity |].
    assert (0 < 2 ^ r) by (apply Z.pow_pos_nonneg; lia). lia.
Qed.

Lemma extract_mantissa_range (u m_bits : Z) :
  0 <= m_bits ->
  exists m, extract_mantissa u m_bits = Ok m /\ 0 <= m < 2 ^ m_bits.
Proof.
  intro Hm. unfold extract_mantissa.
  destruct (Z.ltb_spec 0 m_bits).
  - rewrite lshift_nonneg_count by lia. cbn [bind].
    eexists; split; [reflexivity |]. apply land_mask_range, Hm.
  - exists 0. split; [reflexivity |].
    assert (0 < 2 ^ m_bits) by (apply Z.pow_pos_nonneg; lia). lia.
Qed.

(** The rebuilt logarithm is bounded: at most 255 + 127 and at least -255. *)
Lemma rebuild_log_range (d r c : Z) :
  0 <= r <= 7 -> 0 <= c < 2 ^ r ->
  exists l, rebuild_log d r c = Ok l /\ -255 <= l <= 382.
Proof.
  intros Hr Hc. unfold rebuild_log.
  assert (Hp : 1 <= 2 ^ r <= 2 ^ 7).
  { split; [| apply Z.pow_le_mono_r; lia].
    assert (0 < 2 ^ r) by (apply Z.pow_pos_nonneg; lia). lia. }
  change (2 ^ 7) with 128 in Hp.
  pose proof (pow2_succ r ltac:(lia)) as Hs.
  destruct (d =? 1), (Z.ltb_spec 0 r);
    rewrite ?tuple_get_C_BIAS_LUT by lia; cbn [bind];
    eexists; (split; [reflexivity |]); lia.
Qed.

Lemma mantissa_bits_range (config : TakumConfig) (r : Z) :
  supported config -> 0 <= r -> 0 <= mantissa_bits config r <= 59.
Proof.
  intros H Hr. rewrite mantissa_bits_supported by exact H.
  destruct (supported_bits config H) as [_ Hb]. lia.
Qed.

(** Field extraction succeeds on every pattern, with every field in its
    range. *)
Lemma decode_locals_total (encoded : Z) (config : TakumConfig) :
  supported config ->
  exists f, decode_locals encoded config = Ok f /\
    0 <= d_r f <= 7 /\
    0 <= d_m_bits f <= 59 /\
    0 <= d_c f < 2 ^ d_r f /\
    0 <= d_m f < 2 ^ d_m_bits f /\
    -255 <= d_l f <= 382.
Proof.
  intro H. destruct (supported_bits config H) as [_ Hb].
  unfold decode_locals.
  destruct (to_unsigned_ok encoded config H) as [u ->]. cbn [bind].
  rewrite !rshift_nonneg_count by lia. cbn [bind]. cbv zeta.
  set (r := Z.land (u / 2 ^ (bits config - 5)) 7).
  pose proof (land_7_range (u / 2 ^ (bits config - 5))) as Hr. fold r in Hr.
  pose proof (mantissa_bits_range config r H ltac:(lia)) as Hm.
  destruct (extract_characteristic_range u r (mantissa_bits config r))
    as (c & -> & Hc); try lia.
  destruct (extract_mantissa_range u (mantissa_bits config r))
    as (m & -> & Hmm); try lia.
  cbn [bind].
  destruct (rebuild_log_range (Z.land (u / 2 ^ (bits config - 2)) 1) r c Hr Hc)
    as (l & -> & Hl).
  cbn [bind]. eexists; split; [reflexivity |]. cbn. auto.
Qed.

(** The float the decoder hands to [math.exp] after halving has magnitude
    at most 512. *)
Lemma decode_l_float_within (f : dec_locals) :
  0 <= d_m_bits f -> 0 <= d_m f < 2 ^ d_m_bits f -> -255 <= d_l f <= 382 ->
  exists x, decode_l_float f = Ok x /\ mag_le_pow2 x 9 = true.
Proof.
  intros Hmb Hm Hl. unfold decode_l_float.
  destruct (float_of_int_exact (d_l f) Hl) as (fl & Hfl & Hint).
  destruct (Z.ltb_spec 0 (d_m_bits f)).
  - rewrite lshift_nonneg_count by lia. cbn [bind].
    rewrite Z.mul_1_l.
    destruct (int_truediv_fraction (d_m f) (d_m_bits f) Hmb Hm) as (q & -> & Hq).
    cbn [bind]. rewrite Hfl. cbn [bind].
    eexists; split; [reflexivity |].
    apply (fadd_int_fraction (d_l f)); [assumption | assumption | lia].
  - rewrite Hfl. eexists; split; [reflexivity |].
    apply (holds_int_within (d_l f)); [assumption | lia].
Qed.

(** C10. On every supported width, with [math.exp] a positive finite double
    on arguments of magnitude at most 512, the decoder returns on every
    integer pattern (so on every signed integer of the width), never with
    an infinity: NaN for the NaR pattern [-2^(bits-1)], [+0.0] for 0, and a
    non-zero finite double for every other pattern.  The rebuilt logarithm
    lies in [-255, 382] ([rebuild_log_range]), so the argument of
    [math.exp] stays within 512 ([decode_l_float_within]). *)
Theorem decode_total :
  forall math_exp config encoded,
    supported config ->
    exp_in_range math_exp ->
    let nar := - 2 ^ (bits config - 1) in
    exists y, decode_takum_log math_exp encoded config = Ok y /\
      isinf y = false /\
      (encoded = nar -> y = S754_nan) /\
      (encoded = 0 -> y = fzero) /\
      (encoded <> nar -> encoded <> 0 -> exists s m e, y = S754_finite s m e).
Proof.
  intros math_exp config encoded H Hexp nar.
  destruct (supported_bits config H) as [_ Hb].
  assert (Hnar0 : nar <> 0).
  { subst nar. assert (0 < 2 ^ (bits config - 1)) by (apply Z.pow_pos_nonneg; lia). lia. }
  unfold decode_takum_log.
  rewrite (nar_value_supported config H). cbn [bind]. fold nar.
  destruct (Z.eqb_spec encoded nar) as [Enar | Nnar].
  { exists S754_nan. repeat split; try reflexivity; intros; subst; contradiction. }
  destruct (Z.eqb_spec encoded 0) as [E0 | N0].
  { exists fzero. repeat split; try reflexivity; intros; subst; contradiction. }
  destruct (decode_locals_total encoded config H)
    as (f & -> & Hr & Hmb & Hc & Hm & Hl).
  cbn [bind].
  destruct (decode_l_float_within f ltac:(lia) Hm Hl) as (lf & -> & Hlf).
  cbn [bind].
  destruct (fdiv_two_within lf 9 ltac:(lia) Hlf) as (x & -> & Hx).
  cbn [bind].
  destruct (Hexp x Hx) as (m & e & ->). cbn [bind].
  destruct (d_s f =? 1); cbn [SFopp negb];
    eexists; (split; [reflexivity |]);
    (split; [reflexivity |]);
    (split; [intros; contradiction |]);
    (split; [intros; contradiction |]); intros; eauto.
Qed.

Lemma pow2_exp_in_range : exp_in_range pow2_exp.
Proof.
  intros x Hx. unfold pow2_exp.
  destruct x as [s | | | s m e]; cbn [mag_le_pow2] in Hx; try discriminate;
    cbn [int_of_float]; eauto.
Qed.

Lemma decode_total_witness :
  exists y, decode_takum_log pow2_exp 0x4000 TAKUM16 = Ok y /\
    isinf y = false /\
    (0x4000 = - 2 ^ (16 - 1) -> y = S754_nan) /\
    (0x4000 = 0 -> y = fzero) /\
    (0x4000 <> - 2 ^ (16 - 1) -> 0x4000 <> 0 -> exists s m e, y = S754_finite s m e).
Proof.
  exact (decode_total pow2_exp TAKUM16 0x4000 supported_TAKUM16 pow2_exp_in_range).
Defined.

(** ** Bit assembly and field extraction *)

(** OR-ing a field below a word whose low [n] bits are clear adds it. *)
Lemma lor_low_field (a b n : Z) :
  0 <= n -> 0 <= b < 2 ^ n -> Z.lor (a * 2 ^ n) b = a * 2 ^ n + b.
Proof.
  intros Hn Hb.
  enough (Hland : Z.land (a * 2 ^ n) b = 0)
    by (pose proof (Z.add_lor_land (a * 2 ^ n) b); lia).
  apply Z.bits_inj'. intros i Hi.
  rewrite Z.land_spec, Z.bits_0.
  destruct (Z.lt_ge_cases i n) as [Hlt | Hge].
  - rewrite Z.mul_pow2_bits_low by lia. reflexivity.
  - destruct (Z.eq_dec b 0) as [-> | Hb0];
      [rewrite Z.bits_0; apply andb_false_r |].
    rewrite (Z.bits_above_log2 b i); [apply andb_false_r | lia |].
    apply Z.log2_lt_pow2; [lia |].
    apply Z.lt_le_trans with (2 ^ n); [lia |].
    apply Z.pow_le_mono_r; lia.
Qed.

Lemma land_1_mod (x : Z) : Z.land x 1 = x mod 2.
Proof. change 1 with (Z.ones 1). now rewrite Z.land_ones by lia. Qed.

Lemma land_7_mod (x : Z) : Z.land x 7 = x mod 8.
Proof. change 7 with (Z.ones 3). now rewrite Z.land_ones by lia. Qed.

Lemma land_mask_mod (x n : Z) :
  0 <= n -> Z.land x (1 * 2 ^ n - 1) = x mod 2 ^ n.
Proof.
  intro Hn.
  replace (1 * 2 ^ n - 1) with (Z.ones n) by (rewrite Z.ones_equiv; lia).
  now rewrite Z.land_ones.
Qed.

Lemma assemble_out_of_width (f : enc_locals) (config : TakumConfig) :
  supported config ->
  e_s f = 1 -> 0 < e_r f -> e_c f < 0 -> 0 <= e_m_bits f ->
  exists p, assemble f config = Ok p /\ p < - 2 ^ (bits config - 1) /\
            ~ in_width config p.
Proof.
  intros H Hs Hr Hc Hm. destruct (supported_bits config H) as [_ Hb].
  unfold assemble. rewrite Hs.
  repeat (rewrite lshift_nonneg_count by lia; cbn [bind]).
  destruct (Z.ltb_spec 0 (e_r f)); [| lia].
  repeat (rewrite lshift_nonneg_count by lia; cbn [bind]).
  cbn [Z.eqb Pos.eqb].
  repeat (rewrite lshift_nonneg_count by lia; cbn [bind]).
  eexists; split; [reflexivity |].
  match goal with |- ?x - _ < _ /\ _ => assert (Hneg : x < 0) end.
  { apply Z.lor_neg. left. apply Z.lor_neg. right.
    assert (0 < 2 ^ e_m_bits f) by (apply Z.pow_pos_nonneg; lia). nia. }
  assert (Hpow : 2 ^ (bits config) = 2 * 2 ^ (bits config - 1)).
  { replace (bits config) with (bits config - 1 + 1) at 1 by lia.
    rewrite Z.pow_add_r by lia. lia. }
  assert (0 < 2 ^ (bits config - 1)) by (apply Z.pow_pos_nonneg; lia).
  split; [lia |]. unfold in_width. lia.
Qed.

Lemma div_mod_pack (hi lo k : Z) :
  0 <= lo < k -> (hi * k + lo) / k = hi /\ (hi * k + lo) mod k = lo.
Proof.
  intro H. split.
  - symmetry. apply Z.div_unique with (r := lo); lia.
  - symmetry. apply Z.mod_unique with (q := hi); lia.
Qed.

Lemma pow2_split (a b : Z) : 0 <= a -> 0 <= b -> 2 ^ (a + b) = 2 ^ a * 2 ^ b.
Proof. intros. now rewrite Z.pow_add_r. Qed.

Lemma fields_pow (B r : Z) :
  0 <= r <= B - 5 ->
  0 < 2 ^ r /\ 0 < 2 ^ (B - 5 - r) /\
  2 ^ (B - 5) = 2 ^ (B - 5 - r) * 2 ^ r /\
  2 ^ (B - 2) = 2 ^ (B - 5) * 8 /\
  2 ^ (B - 1) = 2 ^ (B - 2) * 2 /\
  2 ^ B = 2 ^ (B - 1) * 2.
Proof.
  intro H.
  repeat split; try (apply Z.pow_pos_nonneg; lia).
  - rewrite <- pow2_split by lia. f_equal. lia.
  - replace (B - 2) with (B - 5 + 3) by lia. now rewrite pow2_split by lia.
  - replace (B - 1) with (B - 2 + 1) at 1 by lia. now rewrite pow2_split by lia.
  - replace B with (B - 1 + 1) at 1 by lia. now rewrite pow2_split by lia.
Qed.

(** The OR chain of lines 207-211 is the sum of the shifted fields. *)
Lemma assemble_word (B s d r c m : Z) :
  fields_in_range B s d r c m ->
  Z.lor (Z.lor (Z.lor (Z.lor (s * 2 ^ (B - 1)) (d * 2 ^ (B - 2)))
                  (r * 2 ^ (B - 5))) (c * 2 ^ (B - 5 - r))) m
  = field_word B s d r c m.
Proof.
  intros (Hs & Hd & Hr & Hfit & Hc & Hm).
  destruct (fields_pow B r ltac:(lia)) as (Hy & Hz & P1 & P2 & P3 & P4).
  unfold field_word.
  set (N4 := (2 * s + d) * 8 + r).
  set (N3 := N4 * 2 ^ r + c).
  rewrite (lor_low_field s (d * 2 ^ (B - 2)) (B - 1)) by nia.
  replace (s * 2 ^ (B - 1) + d * 2 ^ (B - 2)) with ((2 * s + d) * 2 ^ (B - 2)) by lia.
  rewrite (lor_low_field (2 * s + d) (r * 2 ^ (B - 5)) (B - 2)) by nia.
  replace ((2 * s + d) * 2 ^ (B - 2) + r * 2 ^ (B - 5)) with (N4 * 2 ^ (B - 5))
    by (subst N4; lia).
  rewrite (lor_low_field N4 (c * 2 ^ (B - 5 - r)) (B - 5)) by nia.
  replace (N4 * 2 ^ (B - 5) + c * 2 ^ (B - 5 - r)) with (N3 * 2 ^ (B - 5 - r))
    by (subst N3; rewrite P1; ring).
  rewrite (lor_low_field N3 m (B - 5 - r)) by lia.
  reflexivity.
Qed.

Lemma field_word_range (B s d r c m : Z) :
  fields_in_range B s d r c m ->
  s * 2 ^ (B - 1) <= field_word B s d r c m < s * 2 ^ (B - 1) + 2 ^ (B - 1).
Proof.
  intros (Hs & Hd & Hr & Hfit & Hc & Hm).
  destruct (fields_pow B r ltac:(lia)) as (Hy & Hz & P1 & P2 & P3 & P4).
  unfold field_word. rewrite P3, P2, P1. nia.
Qed.

(** Slicing the word gives the fields back. *)
Lemma field_word_slices (B s d r c m : Z) :
  fields_in_range B s d r c m ->
  let W := field_word B s d r c m in
  (W / 2 ^ (B - 1)) mod 2 = s /\
  (W / 2 ^ (B - 2)) mod 2 = d /\
  (W / 2 ^ (B - 5)) mod 8 = r /\
  (W / 2 ^ (B - 5 - r)) mod 2 ^ r = c /\
  W mod 2 ^ (B - 5 - r) = m.
Proof.
  intros (Hs & Hd & Hr & Hfit & Hc & Hm).
  destruct (fields_pow B r ltac:(lia)) as (Hy & Hz & P1 & P2 & P3 & P4).
  intro W. subst W. unfold field_word.
  set (N4 := (2 * s + d) * 8 + r).
  set (N3 := N4 * 2 ^ r + c).
  set (W := N3 * 2 ^ (B - 5 - r) + m).
  destruct (div_mod_pack N3 m (2 ^ (B - 5 - r)) Hm) as [D1 M1]. fold W in D1, M1.
  destruct (div_mod_pack N4 c (2 ^ r) Hc) as [D2 M2]. fold N3 in D2, M2.
  destruct (div_mod_pack (2 * s + d) r 8 ltac:(lia)) as [D3 M3]. fold N4 in D3, M3.
  destruct (div_mod_pack s d 2 ltac:(lia)) as [D4 M4].
  replace (s * 2 + d) with (2 * s + d) in D4, M4 by lia.
  assert (E5 : W / 2 ^ (B - 5) = N4)
    by (rewrite P1, <- Z.div_div, D1, D2 by lia; reflexivity).
  assert (E2 : W / 2 ^ (B - 2) = 2 * s + d)
    by (rewrite P2, <- Z.div_div, E5, D3 by lia; reflexivity).
  assert (E1 : W / 2 ^ (B - 1) = s)
    by (rewrite P3, <- Z.div_div, E2, D4 by lia; reflexivity).
  rewrite E1, E2, E5, D1.
  repeat split; try assumption.
  apply Z.mod_small. lia.
Qed.

Lemma assemble_fit (f : enc_locals) (config : TakumConfig) :
  supported config -> fields_fit config f ->
  let W := field_word (bits config) (e_s f) (e_d f) (e_r f) (e_c f) (e_m f) in
  assemble f config = Ok (if e_s f =? 1 then W - 2 ^ bits config else W).
Proof.
  intros H (Hs & Hd & Hr & Hfit & Hmb & Hc & Hm) W.
  destruct (supported_bits config H) as [_ Hb].
  rewrite mantissa_bits_supported in Hmb by exact H.
  replace (Z.max 0 (bits config - 5 - e_r f)) with (bits config - 5 - e_r f) in Hmb by lia.
  rewrite Hmb in Hm.
  unfold assemble.
  repeat (rewrite lshift_nonneg_count by lia; cbn [bind]).
  assert (Hx : (if 0 <? e_r f then Ok (e_c f * 2 ^ e_m_bits f) else Ok 0)
               = Ok (e_c f * 2 ^ (bits config - 5 - e_r f))).
  { destruct (Z.ltb_spec 0 (e_r f)).
    - now rewrite Hmb.
    - replace (e_r f) with 0 in * by lia. f_equal.
      change (2 ^ 0) with 1 in Hc. lia. }
  rewrite Hx. cbn [bind].
  rewrite assemble_word by (repeat split; lia). fold W.
  destruct (e_s f =? 1); [| reflexivity].
  cbn [bind]. f_equal. lia.
Qed.

(** Where every field fits its width, the pattern is of the width of the
    configuration and the decoder extracts the very fields the encoder
    assembled; the logarithm is then rebuilt from them by lines 268-273. *)
Lemma decode_locals_of_assemble (f : enc_locals) (config : TakumConfig) :
  supported config -> fields_fit config f ->
  exists p l, assemble f config = Ok p /\ in_width config p /\
    rebuild_log (e_d f) (e_r f) (e_c f) = Ok l /\
    decode_locals p config =
      Ok {| d_s := e_s f; d_d := e_d f; d_r := e_r f;
            d_m_bits := e_m_bits f; d_c := e_c f; d_m := e_m f; d_l := l |}.
Proof.
  intros H Hfit.
  pose proof (assemble_fit f config H Hfit) as Ha. cbv zeta in Ha.
  destruct Hfit as (Hs & Hd & Hr & Hfit & Hmb & Hc & Hm).
  destruct (supported_bits config H) as [Ho Hb].
  pose proof Hmb as Hmb'.
  rewrite mantissa_bits_supported in Hmb' by exact H.
  replace (Z.max 0 (bits config - 5 - e_r f)) with (bits config - 5 - e_r f)
    in Hmb' by lia.
  rewrite Hmb' in Hm.
  set (W := field_word (bits config) (e_s f) (e_d f) (e_r f) (e_c f) (e_m f)) in *.
  assert (Hin : fields_in_range (bits config) (e_s f) (e_d f) (e_r f) (e_c f)
                  (e_m f)) by (repeat split; lia).
  pose proof (field_word_range _ _ _ _ _ _ Hin) as HW. fold W in HW.
  pose proof (field_word_slices _ _ _ _ _ _ Hin) as HS. cbv zeta in HS.
  fold W in HS.
  destruct HS as (S1 & S2 & S3 & S4 & S5).
  destruct (fields_pow (bits config) (e_r f) ltac:(lia))
    as (Hy & Hz & P1 & P2 & P3 & P4).
  destruct (rebuild_log_range (e_d f) (e_r f) (e_c f) Hr Hc) as (l & Hl & _).
  eexists; exists l. split; [exact Ha |].
  assert (Hu : to_unsigned (if e_s f =? 1 then W - 2 ^ bits config else W) config
               = Ok W).
  { unfold to_unsigned. destruct (Z.eqb_spec (e_s f) 1) as [E | E].
    - rewrite E in HW. destruct (Z.ltb_spec (W - 2 ^ bits config) 0); [| lia].
      rewrite lshift_nonneg_count by lia. cbn [bind]. f_equal. lia.
    - replace (e_s f) with 0 in HW by lia.
      destruct (Z.ltb_spec W 0); [lia | reflexivity]. }
  split.
  { unfold in_width. destruct (Z.eqb_spec (e_s f) 1) as [E | E].
    - rewrite E in HW. lia.
    - replace (e_s f) with 0 in HW by lia. lia. }
  split; [exact Hl |].
  unfold decode_locals. rewrite Hu. cbn [bind].
  repeat (rewrite rshift_nonneg_count by lia; cbn [bind]).
  cbv zeta. rewrite !land_1_mod, land_7_mod, S1, S2, S3.
  rewrite <- Hmb.
  assert (Hxc : extract_characteristic W (e_r f) (e_m_bits f) = Ok (e_c f)).
  { unfold extract_characteristic. destruct (Z.ltb_spec 0 (e_r f)).
    - rewrite rshift_nonneg_count, lshift_nonneg_count by lia. cbn [bind].
      rewrite land_mask_mod by lia. rewrite Hmb'. now rewrite S4.
    - replace (e_r f) with 0 in Hc by lia. change (2 ^ 0) with 1 in Hc.
      f_equal. lia. }
  assert (Hxm : extract_mantissa W (e_m_bits f) = Ok (e_m f)).
  { unfold extract_mantissa. destruct (Z.ltb_spec 0 (e_m_bits f)).
    - rewrite lshift_nonneg_count by lia. cbn [bind].
      rewrite land_mask_mod by lia. rewrite Hmb'. now rewrite S5.
    - replace (bits config - 5 - e_r f) with 0 in Hm by lia.
      change (2 ^ 0) with 1 in Hm. f_equal. lia. }
  rewrite Hxc, Hxm. cbn [bind]. rewrite Hl. reflexivity.
Qed.

(** In the positive direction lines 268-273 invert lines 190-194 (on a
    characteristic that is negative and so never reaches them intact); in
    the negative direction they return [l - 1]. *)
Lemma rebuild_log_of_characteristic (l : Z) :
  let r := compute_regime (Z.abs l) in
  (1 <= l <= 254 ->
   exists c, encode_characteristic l = Ok c /\ rebuild_log 1 r c = Ok l) /\
  (-254 <= l <= -1 ->
   exists c, encode_characteristic l = Ok c /\ rebuild_log 0 r c = Ok (l - 1)).
Proof.
  intro r. split; intro Hl.
  - destruct (characteristic_for_positive_log l Hl) as [Hc _].
    pose proof (compute_regime_ge_1 (Z.abs l) ltac:(lia)) as Hr. fold r in Hr, Hc.
    eexists; split; [exact Hc |].
    unfold rebuild_log. cbn [Z.eqb Pos.eqb].
    destruct (Z.ltb_spec 0 r); [| lia].
    rewrite tuple_get_C_BIAS_LUT by lia. cbn [bind]. f_equal. lia.
  - destruct (characteristic_for_negative_log l Hl) as [Hc _].
    pose proof (compute_regime_ge_1 (Z.abs l) ltac:(lia)) as Hr. fold r in Hr, Hc.
    eexists; split; [exact Hc |].
    unfold rebuild_log. cbn [Z.eqb].
    destruct (Z.ltb_spec 0 r); [| lia].
    rewrite tuple_get_C_BIAS_LUT by lia. cbn [bind]. f_equal. lia.
Qed.

(** ** The extent of the out-of-width results *)

(** Whenever the encoder reaches the assembly for a negative [value] with a
    rounded logarithm from 1 to 254, the characteristic is negative and the
    result lies below every integer of the width. *)
Lemma encode_negative_value_out_of_width math_log (value : float)
  (config : TakumConfig) (f : enc_locals) :
  supported config ->
  encoder_reaches math_log value config f ->
  e_s f = 1 -> 1 <= e_l f <= 254 ->
  exists p, encode_takum_log math_log value config = Ok p /\
            p < - 2 ^ (bits config - 1) /\ ~ in_width config p.
Proof.
  intros H (Hnan & Hinf & Hz & Hf) Hs Hl.
  pose proof (encode_locals_inv _ _ _ _ Hf) as (_ & _ & _ & _ & Hr & Hc & Hm).
  destruct (characteristic_for_positive_log (e_l f) Hl) as [Hc' Hneg].
  unfold encode_characteristic in Hc'. cbv zeta in Hc', Hneg.
  replace (Z.max (-255) (Z.min 255 (e_l f))) with (e_l f) in Hc' by lia.
  rewrite <- Hr in Hc', Hneg. rewrite Hc in Hc'. injection Hc' as Hc'.
  pose proof (compute_regime_ge_1 (Z.abs (e_l f)) ltac:(lia)) as Hr1.
  rewrite <- Hr in Hr1.
  pose proof (mantissa_bits_range config (e_r f) H ltac:(lia)) as Hmb.
  rewrite <- Hm in Hmb.
  destruct (assemble_out_of_width f config H Hs ltac:(lia) ltac:(lia) ltac:(lia))
    as (p & Hp & Hlt & Hout).
  exists p. split; [| split; assumption].
  unfold encode_takum_log. rewrite Hnan, Hinf, Hz, Hf. cbn [bind]. exact Hp.
Qed.

(** ** The encoder returns on every input *)

Lemma mag_le_pow2_finite (x : float) (k : Z) :
  mag_le_pow2 x k = true ->
  match x with
  | S754_zero _ => True
  | S754_finite _ m e => e <= k /\ Zpos m <= 2 ^ (k - e)
  | _ => False
  end.
Proof.
  destruct x as [s | s | | s m e]; cbn [mag_le_pow2]; try discriminate; auto.
  intro H. apply andb_prop in H. destruct H as [H1 H2].
  apply Z.leb_le in H1, H2. auto.
Qed.

Lemma mag_le_pow2_mono (x : float) (j k : Z) :
  j <= k -> mag_le_pow2 x j = true -> mag_le_pow2 x k = true.
Proof.
  intros Hjk H. apply mag_le_pow2_finite in H.
  destruct x as [s | s | | s m e]; try contradiction; [reflexivity |].
  destruct H as [He Hm]. cbn [mag_le_pow2].
  apply andb_true_intro; split; apply Z.leb_le; [lia |].
  pose proof (pow2_le_mono (j - e) (k - e) ltac:(lia)). lia.
Qed.

Lemma mag_le_pow2_abs (x : float) (k : Z) :
  mag_le_pow2 (SFabs x) k = mag_le_pow2 x k.
Proof. destruct x; reflexivity. Qed.

(** The product of two floats within [2^a] and [2^b] is within
    [2^(a+b+1)]. *)
Lemma fmul_within (x y : float) (a b : Z) :
  mag_le_pow2 x a = true -> mag_le_pow2 y b = true ->
  -1074 <= a + b + 1 < 1024 -> a + b <= 971 ->
  mag_le_pow2 (fmul x y) (a + b + 1) = true.
Proof.
  intros Hx Hy Hk Hab.
  apply mag_le_pow2_finite in Hx. apply mag_le_pow2_finite in Hy.
  destruct x as [sx | sx | | sx mx ex]; try contradiction;
    destruct y as [sy | sy | | sy my ey]; try contradiction;
    try reflexivity.
  destruct Hx as [Hex Hmx], Hy as [Hey Hmy].
  unfold fmul. cbn [SFmul].
  apply (mag_le_pow2_of_within (xorb sx sy)).
  apply binary_round_aux_within; try lia.
  rewrite Pos2Z.inj_mul.
  assert (0 < 2 ^ (a - ex)) by (apply Z.pow_pos_nonneg; lia).
  assert (0 < 2 ^ (b - ey)) by (apply Z.pow_pos_nonneg; lia).
  replace (a + b + 1 - (ex + ey)) with ((a - ex) + (b - ey) + 1) by lia.
  rewrite !Z.pow_add_r by lia. change (2 ^ 1) with 2. nia.
Qed.

(** The difference of two floats within [2^a] is within [2^(a+2)]. *)
Lemma fsub_within (x y : float) (a : Z) :
  mag_le_pow2 x a = true -> mag_le_pow2 y a = true ->
  -1074 <= a + 2 < 1024 -> a <= 971 ->
  mag_le_pow2 (fsub x y) (a + 2) = true.
Proof.
  intros Hx Hy Hk Ha.
  pose proof (mag_le_pow2_mono x a (a + 2) ltac:(lia) Hx) as Hx2.
  pose proof (mag_le_pow2_mono y a (a + 2) ltac:(lia) Hy) as Hy2.
  apply mag_le_pow2_finite in Hx. apply mag_le_pow2_finite in Hy.
  destruct x as [sx | sx | | sx mx ex]; try contradiction;
    destruct y as [sy | sy | | sy my ey]; try contradiction.
  - destruct sx, sy; reflexivity.
  - exact Hy2.
  - exact Hx2.
  - destruct Hx as [Hex Hmx], Hy as [Hey Hmy].
    unfold fsub. cbn [SFsub].
    set (ez := Z.min ex ey).
    pose proof (shl_align_spec mx ex ez) as Hax.
    pose proof (shl_align_spec my ey ez) as Hay.
    destruct (shl_align mx ex ez) as [mx' ex'], (shl_align my ey ez) as [my' ey'].
    cbn [fst]. destruct Hax as [Hex' Hmx'], Hay as [Hey' Hmy'].
    assert (Eex : ex' = ez) by (subst ez; lia).
    assert (Eey : ey' = ez) by (subst ez; lia).
    rewrite Eex in Hmx'. rewrite Eey in Hmy'.
    assert (Hez : ez <= a) by (subst ez; lia).
    assert (Hbx : Zpos mx' <= 2 ^ (a - ez)).
    { rewrite Hmx'. replace (a - ez) with ((a - ex) + (ex - ez)) by lia.
      rewrite Z.pow_add_r by lia.
      apply Z.mul_le_mono_nonneg_r; [apply Z.pow_nonneg; lia | exact Hmx]. }
    assert (Hby : Zpos my' <= 2 ^ (a - ez)).
    { rewrite Hmy'. replace (a - ez) with ((a - ey) + (ey - ez)) by lia.
      rewrite Z.pow_add_r by lia.
      apply Z.mul_le_mono_nonneg_r; [apply Z.pow_nonneg; lia | exact Hmy]. }
    assert (Hpow : 0 < 2 ^ (a - ez)) by (apply Z.pow_pos_nonneg; lia).
    assert (Hsum : Z.abs (cond_Zopp sx (Zpos mx') - cond_Zopp sy (Zpos my'))
                   < 2 ^ (a + 2 - ez)).
    { replace (a + 2 - ez) with ((a - ez) + 2) by lia.
      rewrite Z.pow_add_r by lia. change (2 ^ 2) with 4.
      destruct sx, sy; cbn [cond_Zopp]; lia. }
    destruct (cond_Zopp sx (Zpos mx') - cond_Zopp sy (Zpos my')) as [| p | p];
      cbn [binary_normalize].
    + reflexivity.
    + apply (mag_le_pow2_of_within false), binary_round_within; lia.
    + apply (mag_le_pow2_of_within true), binary_round_within; lia.
Qed.

Lemma round_finite (x : float) (k : Z) :
  mag_le_pow2 x k = true -> exists l, round x = Ok l.
Proof.
  destruct x; cbn [mag_le_pow2]; try discriminate; intros _; cbn [round]; eauto.
Qed.

Lemma int_of_float_finite (x : float) (k : Z) :
  mag_le_pow2 x k = true -> exists n, int_of_float x = Ok n.
Proof.
  destruct x; cbn [mag_le_pow2]; try discriminate; intros _; cbn [int_of_float]; eauto.
Qed.

Lemma float_of_int_pow2 (j : Z) :
  0 <= j <= 59 ->
  exists x, float_of_int (1 * 2 ^ j) = Ok x /\ mag_le_pow2 x 59 = true.
Proof.
  intro Hj. rewrite Z.mul_1_l.
  assert (Hall : forallb pow2_floatb (Zrange 0 60) = true)
    by (vm_compute; reflexivity).
  pose proof (Zrange_forallb pow2_floatb 0 60 Hall j ltac:(lia)) as Hb.
  unfold pow2_floatb in Hb.
  destruct (float_of_int (2 ^ j)) as [x |]; [| discriminate].
  exists x. split; [reflexivity |].
  apply (mag_le_pow2_mono x j 59); [lia | exact Hb].
Qed.

Lemma characteristic_returns (l : Z) :
  exists c, characteristic l (Z.abs l) (compute_regime (Z.abs l)) = Ok c.
Proof.
  pose proof (compute_regime_range (Z.abs l) (Z.abs_nonneg l)) as Hr.
  unfold characteristic.
  destruct (0 <=? l), (0 <? compute_regime (Z.abs l));
    rewrite ?tuple_get_C_BIAS_LUT by lia; cbn [bind]; eauto.
Qed.

(** Lines 171-203 run to the end on every finite non-zero input. *)
Lemma encode_locals_total math_log (sv : bool) (mv : positive) (ev : Z)
  (config : TakumConfig) :
  supported config -> log_in_range math_log ->
  exists f, encode_locals math_log (S754_finite sv mv ev) config = Ok f.
Proof.
  intros H Hlog. unfold encode_locals. cbn [SFabs].
  destruct (Hlog mv ev) as (ln & -> & Hln). cbn [bind]. cbv zeta.
  pose proof (fmul_within ftwo ln 1 10 eq_refl Hln ltac:(lia) ltac:(lia)) as Hlf.
  change (1 + 10 + 1) with 12 in Hlf.
  set (l_float := fmul ftwo ln) in *.
  destruct (round_finite l_float 12 Hlf) as (l0 & ->). cbn [bind].
  set (l := Z.max (-255) (Z.min 255 l0)).
  destruct (characteristic_returns l) as (c & ->). cbn [bind].
  destruct (float_of_int_exact (Z.abs l) ltac:(lia)) as (fl & -> & Hfl).
  cbn [bind].
  pose proof (holds_int_within (Z.abs l) fl Hfl ltac:(lia)) as Hflm.
  pose proof (fsub_within (SFabs l_float) fl 12
                ltac:(now rewrite mag_le_pow2_abs)
                (mag_le_pow2_mono fl 9 12 ltac:(lia) Hflm)
                ltac:(lia) ltac:(lia)) as Hfrac.
  change (12 + 2) with 14 in Hfrac.
  pose proof (mantissa_bits_range config (compute_regime (Z.abs l)) H
                ltac:(pose proof (compute_regime_range (Z.abs l) (Z.abs_nonneg l)); lia))
    as Hmb.
  destruct (Z.ltb_spec 0 (mantissa_bits config (compute_regime (Z.abs l)))).
  - rewrite lshift_nonneg_count by lia. cbn [bind].
    destruct (float_of_int_pow2 (mantissa_bits config (compute_regime (Z.abs l)))
                ltac:(lia)) as (fp & -> & Hfp).
    cbn [bind].
    pose proof (fmul_within _ fp 14 59 Hfrac Hfp ltac:(lia) ltac:(lia)) as Hprod.
    destruct (int_of_float_finite _ _ Hprod) as (m & ->). cbn [bind]. eauto.
  - cbn [bind]. eauto.
Qed.

Lemma assemble_returns (f : enc_locals) (config : TakumConfig) :
  supported config -> 0 <= e_m_bits f ->
  exists p, assemble f config = Ok p.
Proof.
  intros H Hm. destruct (supported_bits config H) as [_ Hb].
  unfold assemble.
  repeat (rewrite lshift_nonneg_count by lia; cbn [bind]).
  destruct (0 <? e_r f), (e_s f =? 1); cbn [bind]; eauto.
Qed.

(** The encoder returns on every input, provided [math.log] is finite on
    the positive doubles. *)
Lemma encode_total math_log (value : float) (config : TakumConfig) :
  supported config -> log_in_range math_log ->
  exists p, encode_takum_log math_log value config = Ok p.
Proof.
  intros H Hlog. unfold encode_takum_log.
  destruct value as [s | s | | s m e]; cbn [isnan isinf].
  - cbn. eauto.
  - rewrite nar_value_supported by exact H. eauto.
  - rewrite nar_value_supported by exact H. eauto.
  - replace (SFeqb (S754_finite s m e) fzero) with false
      by (destruct s; reflexivity).
    destruct (encode_locals_total math_log s m e config H Hlog) as (f & Hf).
    rewrite Hf. cbn [bind].
    apply assemble_returns; [exact H |].
    pose proof (encode_locals_inv _ _ _ _ Hf) as (_ & _ & _ & _ & _ & _ & Hm).
    pose proof (encoder_regime_range _ _ _ _ Hf) as Hr.
    pose proof (mantissa_bits_range config (e_r f) H ltac:(lia)). lia.
Qed.

(* ================================================================== *)
(** * Further properties *)
(* ================================================================== *)

(** ** Further properties of the table, the regime and the configurations *)

Lemma tuple_get_C_BIAS_LUT_wrap (r : Z) :
  -8 <= r <= -1 -> tuple_get C_BIAS_LUT r = Ok (2 ^ (r + 8 + 1) - 1).
Proof.
  intro Hr.
  assert (Hcases : r = -8 \/ r = -7 \/ r = -6 \/ r = -5 \/
                   r = -4 \/ r = -3 \/ r = -2 \/ r = -1) by lia.
  repeat (destruct Hcases as [-> | Hcases]; [reflexivity |]).
  now subst r.
Qed.

Lemma tuple_get_C_BIAS_LUT_out (r : Z) :
  r < -8 \/ 7 < r -> tuple_get C_BIAS_LUT r = Raise IndexError.
Proof.
  intro Hr. unfold tuple_get.
  change (Z.of_nat (length C_BIAS_LUT)) with 8.
  destruct (Z.ltb_spec r 0).
  - destruct (Z.ltb_spec (r + 8) 0); [reflexivity | lia].
  - destruct (Z.ltb_spec r 0); [lia |].
    destruct (Z.leb_spec 8 r); [reflexivity | lia].
Qed.

(** X1. [C_BIAS_LUT[r]] is [c_bias(r)] for every [r] in [0, 7].  Unlike
    [c_bias], which raises [ValueError] on every other integer, the table
    takes an index from -8 to -1 from its end, returning [c_bias(r + 8)],
    and raises [IndexError] exactly below -8 and above 7. *)
Theorem C_BIAS_LUT_lookup :
  forall r : Z,
    (0 <= r <= 7 -> tuple_get C_BIAS_LUT r = c_bias r) /\
    (-8 <= r <= -1 ->
       tuple_get C_BIAS_LUT r = c_bias (r + 8) /\ c_bias r = Raise ValueError) /\
    (tuple_get C_BIAS_LUT r = Raise IndexError <-> r < -8 \/ 7 < r).
Proof.
  intro r.
  assert (Hb : forall q, 0 <= q <= 7 -> c_bias q = Ok (2 ^ (q + 1) - 1)).
  { intros q Hq. unfold c_bias.
    replace ((0 <=? q) && (q <=? 7)) with true
      by (symmetry; apply andb_true_intro; split; apply Z.leb_le; lia).
    cbn [negb]. rewrite lshift_nonneg_count by lia. cbn [bind]. f_equal. lia. }
  split; [| split].
  - intro Hr. now rewrite tuple_get_C_BIAS_LUT, Hb.
  - intro Hr. split.
    + now rewrite tuple_get_C_BIAS_LUT_wrap, Hb by lia.
    + unfold c_bias. destruct (Z.leb_spec 0 r); [lia | reflexivity].
  - split; [| apply tuple_get_C_BIAS_LUT_out].
    intro Hraise.
    destruct (Z.lt_ge_cases r (-8)) as [| H1]; [now left |].
    destruct (Z.lt_ge_cases 7 r) as [| H2]; [now right |].
    destruct (Z.lt_ge_cases r 0).
    + rewrite tuple_get_C_BIAS_LUT_wrap in Hraise by lia. discriminate.
    + rewrite tuple_get_C_BIAS_LUT in Hraise by lia. discriminate.
Qed.

Lemma compute_regime_mono (a b : Z) :
  0 <= a <= b -> compute_regime a <= compute_regime b.
Proof.
  intro H.
  destruct a as [| p | p]; [| | lia].
  - pose proof (compute_regime_range b ltac:(lia)). cbn. lia.
  - destruct b as [| q | q]; try lia.
    rewrite !compute_regime_pos.
    pose proof (Z.log2_le_mono (Zpos p + 1) (Zpos q + 1) ltac:(lia)). lia.
Qed.

Lemma compute_regime_saturates (a : Z) : 127 <= a -> compute_regime a = 7.
Proof.
  intro H. destruct a as [| p | p]; try lia.
  rewrite compute_regime_pos.
  pose proof (Z.log2_le_mono 128 (Zpos p + 1) ltac:(lia)) as Hl.
  change (Z.log2 128) with 7 in Hl. lia.
Qed.

(** X2. On the non-negative integers [compute_regime] is monotone; up to
    254 the regime [r] of [l_abs] brackets it, [2^r <= l_abs + 1 < 2^(r+1)];
    from 127 on the regime is 7.  Outside the documented domain
    [compute_regime(-1)] is -1, not a regime. *)
Theorem compute_regime_shape :
  (forall a b : N,
      (a <= b)%N -> compute_regime (Z.of_N a) <= compute_regime (Z.of_N b)) /\
  (forall a : N,
      (a <= 254)%N ->
      2 ^ compute_regime (Z.of_N a) <= Z.of_N a + 1
        < 2 ^ (compute_regime (Z.of_N a) + 1)) /\
  (forall a : Z, 127 <= a -> compute_regime a = 7) /\
  compute_regime (-1) = -1.
Proof.
  split; [intros a b H; apply compute_regime_mono; lia |].
  split; [intros a H; apply compute_regime_bracket; lia |].
  split; [exact compute_regime_saturates | reflexivity].
Qed.

(** X3. On a supported configuration the overhead is 5 bits,
    [max_mantissa_bits] is [bits - 5] and is the mantissa width at regime
    0; at every regime [r >= 0] the mantissa width lies between 0 and
    [max_mantissa_bits], shrinks by one bit per regime, and is 0 exactly
    when [r >= bits - 5]. *)
Theorem mantissa_width_budget :
  forall config, supported config ->
    overhead_bits config = 5 /\
    max_mantissa_bits config = bits config - 5 /\
    mantissa_bits config 0 = max_mantissa_bits config /\
    (forall r, 0 <= r ->
       0 <= mantissa_bits config r <= max_mantissa_bits config /\
       mantissa_bits config r = Z.max 0 (max_mantissa_bits config - r) /\
       (mantissa_bits config r = 0 <-> bits config - 5 <= r)).
Proof.
  intros config H. destruct (supported_bits config H) as [Ho Hb].
  unfold max_mantissa_bits. rewrite Ho.
  split; [reflexivity |]. split; [reflexivity |].
  split; [rewrite mantissa_bits_supported by exact H; lia |].
  intros r Hr. rewrite mantissa_bits_supported by exact H. lia.
Qed.

Lemma mantissa_width_budget_witness :
  overhead_bits TAKUM8 = 5 /\
  max_mantissa_bits TAKUM8 = 8 - 5 /\
  mantissa_bits TAKUM8 0 = max_mantissa_bits TAKUM8 /\
  (forall r, 0 <= r ->
     0 <= mantissa_bits TAKUM8 r <= max_mantissa_bits TAKUM8 /\
     mantissa_bits TAKUM8 r = Z.max 0 (max_mantissa_bits TAKUM8 - r) /\
     (mantissa_bits TAKUM8 r = 0 <-> 8 - 5 <= r)).
Proof. exact (mantissa_width_budget TAKUM8 supported_TAKUM8). Defined.

(** ** The encoder on a value and on its negation *)

Lemma sample_log_total_in_range : log_in_range sample_log_total.
Proof.
  intros m e. unfold sample_log_total, sample_log.
  repeat match goal with
         | |- context [if ?b then _ else _] => destruct b
         end; eexists; split; reflexivity.
Qed.

Lemma encode_locals_negated math_log (m : positive) (e : Z)
  (config : TakumConfig) :
  encode_locals math_log (S754_finite true m e) config =
  (f <- encode_locals math_log (S754_finite false m e) config ;;
   Ok (with_sign_1 f)).
Proof.
  unfold encode_locals. cbn [SFabs].
  change (SFltb fzero (S754_finite true m e)) with false.
  change (SFltb fzero (S754_finite false m e)) with true.
  cbv zeta.
  repeat match goal with
         | |- context [bind ?c _] =>
             lazymatch c with
             | bind _ _ => fail
             | _ => destruct c; cbn [bind]; try reflexivity
             end
         end.
Qed.

Lemma assemble_with_sign_1 (f : enc_locals) (config : TakumConfig) (p : Z) :
  supported config -> e_s f = 0 ->
  assemble f config = Ok p ->
  assemble (with_sign_1 f) config =
  Ok (Z.lor (2 ^ (bits config - 1)) p - 2 ^ bits config).
Proof.
  intros H Hs. destruct (supported_bits config H) as [_ Hb].
  unfold assemble. cbn [with_sign_1 e_s e_d e_r e_c e_m e_m_bits]. rewrite Hs.
  repeat (rewrite lshift_nonneg_count by lia; cbn [bind]).
  destruct (if 0 <? e_r f then lshift (e_c f) (e_m_bits f) else Ok 0)
    as [x | err]; cbn [bind]; [| discriminate].
  cbn [Z.eqb Pos.eqb].
  intro Hp. injection Hp as <-.
  rewrite ?lshift_nonneg_count by lia. cbn [bind].
  rewrite ?Z.mul_0_l, ?Z.lor_0_l, !Z.mul_1_l, !Z.lor_assoc. reflexivity.
Qed.

(** X4. Provided [math.log] returns a finite double of magnitude at most
    1024 on every positive double, [encode_takum_log] returns an integer,
    without raising, on every input and every supported width. *)
Theorem encode_returns :
  forall math_log value config,
    supported config -> log_in_range math_log ->
    exists p, encode_takum_log math_log value config = Ok p.
Proof. exact encode_total. Qed.

Lemma encode_returns_witness :
  exists p, encode_takum_log sample_log_total f10000 TAKUM32 = Ok p.
Proof.
  exact (encode_returns sample_log_total f10000 TAKUM32
           supported_TAKUM32 sample_log_total_in_range).
Defined.

(** X5. The encoder treats a value and its negation alike up to the sign
    bit: if it returns [p] for a positive finite [x], it returns
    [(p | (1 << (bits-1))) - (1 << bits)] for [-x]. *)
Theorem encode_negation :
  forall math_log config m e p,
    supported config ->
    encode_takum_log math_log (S754_finite false m e) config = Ok p ->
    encode_takum_log math_log (S754_finite true m e) config =
    Ok (Z.lor (2 ^ (bits config - 1)) p - 2 ^ bits config).
Proof.
  intros math_log config m e p H.
  unfold encode_takum_log. cbn [isnan isinf].
  change (SFeqb (S754_finite false m e) fzero) with false.
  change (SFeqb (S754_finite true m e) fzero) with false.
  rewrite encode_locals_negated.
  destruct (encode_locals math_log (S754_finite false m e) config) as [f |] eqn:Hf;
    cbn [bind]; [| discriminate].
  apply assemble_with_sign_1; [exact H |].
  apply encode_locals_inv in Hf. destruct Hf as (Hs & _). exact Hs.
Qed.

Lemma encode_negation_witness :
  encode_takum_log sample_log (SFopp math_e) TAKUM16 =
  Ok (Z.lor (2 ^ (16 - 1)) (-1024) - 2 ^ 16).
Proof.
  exact (encode_negation sample_log TAKUM16 6121026514868073 (-51) (-1024)
           supported_TAKUM16 eq_refl).
Defined.

(** X6. Whenever the encoder reaches the assembly for a negative input
    whose rounded logarithm lies between 1 and 254, its result is below
    [-2^(bits-1)]: it is not a signed integer of the width. *)
Theorem encode_negative_out_of_width :
  forall math_log value config f,
    supported config ->
    encoder_reaches math_log value config f ->
    e_s f = 1 -> 1 <= e_l f <= 254 ->
    exists p, encode_takum_log math_log value config = Ok p /\
              p < - 2 ^ (bits config - 1) /\ ~ in_width config p.
Proof. exact encode_negative_value_out_of_width. Qed.

Lemma encode_locals_neg_e_takum16 :
  encoder_reaches sample_log (SFopp math_e) TAKUM16
    {| e_s := 1; e_l_float := ftwo; e_l := 2; e_d := 1; e_r := 1;
       e_c := -1; e_m_bits := 10; e_l_frac := fzero; e_m := 0 |}.
Proof. repeat split. Defined.

Lemma encode_negative_out_of_width_witness :
  exists p, encode_takum_log sample_log (SFopp math_e) TAKUM16 = Ok p /\
            p < - 2 ^ (16 - 1) /\ ~ in_width TAKUM16 p.
Proof.
  exact (encode_negative_out_of_width sample_log (SFopp math_e) TAKUM16 _
           supported_TAKUM16 encode_locals_neg_e_takum16 eq_refl
           (conj (Zle_bool_imp_le 1 2 eq_refl) (Zle_bool_imp_le 2 254 eq_refl))).
Defined.

Lemma encode_characteristic_clamped_low (l : Z) :
  l <= -255 -> encode_characteristic l = Ok (-1).
Proof.
  intro H. unfold encode_characteristic. cbv zeta.
  replace (Z.max (-255) (Z.min 255 l)) with (-255) by lia. reflexivity.
Qed.

Lemma encode_characteristic_clamped_high (l : Z) :
  255 <= l -> encode_characteristic l = Ok 0.
Proof.
  intro H. unfold encode_characteristic. cbv zeta.
  replace (Z.max (-255) (Z.min 255 l)) with 255 by lia. reflexivity.
Qed.

(** X7. For a rounded logarithm [l] from -254 to -1 the characteristic is
    [2^(r+1) - 2 - |l|], a non-negative number below [2^r] that decreases
    as [|l|] grows within a regime.  The clamp makes every [l <= -255]
    give -1 and every [l >= 255] give 0; [l = 0] gives 0. *)
Theorem characteristic_outside_positive_logs :
  (forall l : Z, -254 <= l <= -1 ->
     let r := compute_regime (Z.abs l) in
     encode_characteristic l = Ok (2 ^ (r + 1) - 2 - Z.abs l) /\
     0 <= 2 ^ (r + 1) - 2 - Z.abs l <= 2 ^ r - 1) /\
  (forall l : Z, l <= -255 -> encode_characteristic l = Ok (-1)) /\
  (forall l : Z, 255 <= l -> encode_characteristic l = Ok 0) /\
  encode_characteristic 0 = Ok 0.
Proof.
  split; [exact characteristic_for_negative_log |].
  split; [exact encode_characteristic_clamped_low |].
  split; [exact encode_characteristic_clamped_high | reflexivity].
Qed.

(** X8. Decoder against encoder on the logarithm: from the characteristic
    the encoder computes for [l], lines 268-273 rebuild [l] itself in the
    positive direction ([1 <= l <= 254], [d = 1]) and [l - 1] in the
    negative direction ([-254 <= l <= -1], [d = 0]). *)
Theorem rebuild_log_after_characteristic :
  forall l : Z,
    let r := compute_regime (Z.abs l) in
    (1 <= l <= 254 ->
     exists c, encode_characteristic l = Ok c /\ rebuild_log 1 r c = Ok l) /\
    (-254 <= l <= -1 ->
     exists c, encode_characteristic l = Ok c /\ rebuild_log 0 r c = Ok (l - 1)).
Proof. exact rebuild_log_of_characteristic. Qed.

(** X9. Assembly and extraction are inverse on fields that fit: if the
    sign and direction are bits, [0 <= r <= min(7, bits - 5)],
    [0 <= c < 2^r] and [0 <= m < 2^m_bits], then [assemble] returns a
    signed integer of the width, and [decode_locals] extracts from it the
    same [s], [d], [r], [m_bits], [c] and [m]. *)
Theorem extraction_inverts_assembly :
  forall f config,
    supported config -> fields_fit config f ->
    exists p l, assemble f config = Ok p /\ in_width config p /\
      rebuild_log (e_d f) (e_r f) (e_c f) = Ok l /\
      decode_locals p config =
        Ok {| d_s := e_s f; d_d := e_d f; d_r := e_r f;
              d_m_bits := e_m_bits f; d_c := e_c f; d_m := e_m f; d_l := l |}.
Proof. exact decode_locals_of_assemble. Qed.

Lemma fields_fit_example :
  fields_fit TAKUM16
    {| e_s := 1; e_l_float := fzero; e_l := -5; e_d := 0; e_r := 2;
       e_c := 1; e_m_bits := 9; e_l_frac := fzero; e_m := 300 |}.
Proof. unfold fields_fit. cbn. lia. Defined.

Lemma extraction_inverts_assembly_witness :
  exists p l,
    assemble {| e_s := 1; e_l_float := fzero; e_l := -5; e_d := 0; e_r := 2;
                e_c := 1; e_m_bits := 9; e_l_frac := fzero; e_m := 300 |}
      TAKUM16 = Ok p /\
    in_width TAKUM16 p /\
    rebuild_log 0 2 1 = Ok l /\
    decode_locals p TAKUM16 =
      Ok {| d_s := 1; d_d := 0; d_r := 2; d_m_bits := 9; d_c := 1;
            d_m := 300; d_l := l |}.
Proof.
  exact (extraction_inverts_assembly _ TAKUM16 supported_TAKUM16
           fields_fit_example).
Defined.

(** ** The decoder: fields, sign and negation *)

Lemma land_1_range (x : Z) : 0 <= Z.land x 1 <= 1.
Proof.
  rewrite land_1_mod. pose proof (Z.mod_pos_bound x 2 ltac:(lia)). lia.
Qed.

Lemma rebuild_log_direction (d r c : Z) (l : Z) :
  0 <= r <= 7 -> 0 <= c < 2 ^ r -> rebuild_log d r c = Ok l ->
  (d = 1 -> 0 <= l) /\ (d <> 1 -> l <= -1).
Proof.
  intros Hr Hc. unfold rebuild_log.
  assert (Hp : 1 <= 2 ^ r)
    by (assert (0 < 2 ^ r) by (apply Z.pow_pos_nonneg; lia); lia).
  pose proof (pow2_succ r ltac:(lia)) as Hs.
  destruct (Z.eqb_spec d 1), (Z.ltb_spec 0 r);
    rewrite ?tuple_get_C_BIAS_LUT by lia; cbn [bind];
    intro Hl; injection Hl as <-; split; intro; try contradiction; lia.
Qed.

Lemma decode_locals_fields (encoded : Z) (config : TakumConfig) :
  supported config ->
  exists f, decode_locals encoded config = Ok f /\
    0 <= d_s f <= 1 /\ 0 <= d_d f <= 1 /\ 0 <= d_r f <= 7 /\
    d_m_bits f = Z.max 0 (bits config - 5 - d_r f) /\
    0 <= d_c f < 2 ^ d_r f /\
    0 <= d_m f < 2 ^ d_m_bits f /\
    -255 <= d_l f <= 382 /\
    (d_d f = 1 -> 0 <= d_l f) /\ (d_d f = 0 -> d_l f <= -1).
Proof.
  intro H. destruct (supported_bits config H) as [_ Hb].
  unfold decode_locals.
  destruct (to_unsigned_ok encoded config H) as [u ->]. cbn [bind].
  rewrite !rshift_nonneg_count by lia. cbn [bind]. cbv zeta.
  set (r := Z.land (u / 2 ^ (bits config - 5)) 7).
  set (d := Z.land (u / 2 ^ (bits config - 2)) 1).
  pose proof (land_7_range (u / 2 ^ (bits config - 5))) as Hr. fold r in Hr.
  pose proof (land_1_range (u / 2 ^ (bits config - 2))) as Hd. fold d in Hd.
  pose proof (land_1_range (u / 2 ^ (bits config - 1))) as Hs.
  pose proof (mantissa_bits_range config r H ltac:(lia)) as Hm.
  pose proof (mantissa_bits_supported config r H) as Hmb.
  destruct (extract_characteristic_range u r (mantissa_bits config r))
    as (c & -> & Hc); try lia.
  destruct (extract_mantissa_range u (mantissa_bits config r))
    as (m & -> & Hmm); try lia.
  cbn [bind].
  destruct (rebuild_log_range d r c Hr Hc) as (l & Hl & Hlr).
  destruct (rebuild_log_direction d r c l Hr Hc Hl) as [Hd1 Hd0].
  rewrite Hl. cbn [bind]. eexists; split; [reflexivity |].
  cbn [d_s d_d d_r d_m_bits d_c d_m d_l].
  repeat split; try lia; auto.
Qed.

(** X10. On every integer pattern and every supported width,
    [decode_locals] returns: sign and direction are bits, the regime is in
    [0, 7], the mantissa width is [max(0, bits - 5 - r)], the
    characteristic is below [2^r], the mantissa below [2^m_bits], and the
    rebuilt logarithm lies in [-255, 382], non-negative exactly when the
    direction bit is 1. *)
Theorem decoded_fields_in_range :
  forall encoded config,
    supported config ->
    exists f, decode_locals encoded config = Ok f /\
      0 <= d_s f <= 1 /\ 0 <= d_d f <= 1 /\ 0 <= d_r f <= 7 /\
      d_m_bits f = Z.max 0 (bits config - 5 - d_r f) /\
      0 <= d_c f < 2 ^ d_r f /\
      0 <= d_m f < 2 ^ d_m_bits f /\
      -255 <= d_l f <= 382 /\
      (d_d f = 1 -> 0 <= d_l f) /\ (d_d f = 0 -> d_l f <= -1).
Proof. exact decode_locals_fields. Qed.

Lemma decoded_fields_in_range_witness :
  exists f, decode_locals 0x3C48 TAKUM16 = Ok f /\
    0 <= d_s f <= 1 /\ 0 <= d_d f <= 1 /\ 0 <= d_r f <= 7 /\
    d_m_bits f = Z.max 0 (16 - 5 - d_r f) /\
    0 <= d_c f < 2 ^ d_r f /\
    0 <= d_m f < 2 ^ d_m_bits f /\
    -255 <= d_l f <= 382 /\
    (d_d f = 1 -> 0 <= d_l f) /\ (d_d f = 0 -> d_l f <= -1).
Proof. exact (decoded_fields_in_range 0x3C48 TAKUM16 supported_TAKUM16). Defined.

Lemma pow2_double (n : Z) : 1 <= n -> 2 ^ n = 2 * 2 ^ (n - 1).
Proof.
  intro H. replace n with (n - 1 + 1) at 1 by lia.
  rewrite Z.pow_add_r by lia. lia.
Qed.

(** The sign field is 1 exactly on the negative patterns of the width. *)
Lemma decode_locals_sign (encoded : Z) (config : TakumConfig) (f : dec_locals) :
  supported config -> in_width config encoded ->
  decode_locals encoded config = Ok f ->
  d_s f = (if encoded <? 0 then 1 else 0).
Proof.
  intros H Hw. destruct (supported_bits config H) as [_ Hb].
  unfold in_width in Hw.
  pose proof (pow2_double (bits config) ltac:(lia)) as Hp.
  assert (Hpos : 0 < 2 ^ (bits config - 1)) by (apply Z.pow_pos_nonneg; lia).
  unfold decode_locals, to_unsigned. intro Hf.
  assert (Hu : exists u, (if encoded <? 0
                          then x <- lshift 1 (bits config) ;; Ok (encoded + x)
                          else Ok encoded) = Ok u /\
                         u / 2 ^ (bits config - 1) = (if encoded <? 0 then 1 else 0)).
  { destruct (Z.ltb_spec encoded 0).
    - rewrite lshift_nonneg_count by lia. cbn [bind].
      eexists; split; [reflexivity |].
      symmetry. apply Z.div_unique with (r := encoded + 2 ^ (bits config - 1)); lia.
    - eexists; split; [reflexivity |]. apply Z.div_small. lia. }
  destruct Hu as (u & Hu & Hdiv). rewrite Hu in Hf. cbn [bind] in Hf.
  rewrite rshift_nonneg_count in Hf by lia. cbn [bind] in Hf.
  apply bind_Ok_inv in Hf. destruct Hf as (x2 & _ & Hf).
  apply bind_Ok_inv in Hf. destruct Hf as (x3 & _ & Hf).
  cbv zeta in Hf.
  apply bind_Ok_inv in Hf. destruct Hf as (c & _ & Hf).
  apply bind_Ok_inv in Hf. destruct Hf as (m & _ & Hf).
  apply bind_Ok_inv in Hf. destruct Hf as (l & _ & Hf).
  injection Hf as <-. cbn [d_s]. rewrite Hdiv.
  destruct (encoded <? 0); reflexivity.
Qed.

Lemma decode_finite_with_sign math_exp (config : TakumConfig) (encoded : Z) :
  supported config -> exp_in_range math_exp -> in_width config encoded ->
  encoded <> - 2 ^ (bits config - 1) -> encoded <> 0 ->
  exists m e,
    decode_takum_log math_exp encoded config =
    Ok (S754_finite (encoded <? 0) m e).
Proof.
  intros H Hexp Hw Nnar N0.
  unfold decode_takum_log.
  rewrite (nar_value_supported config H). cbn [bind].
  destruct (Z.eqb_spec encoded (- 2 ^ (bits config - 1))); [contradiction |].
  destruct (Z.eqb_spec encoded 0); [contradiction |].
  destruct (decode_locals_total encoded config H)
    as (f & Hf & Hr & Hmb & Hc & Hm & Hl).
  pose proof (decode_locals_sign encoded config f H Hw Hf) as Hs.
  rewrite Hf. cbn [bind].
  destruct (decode_l_float_within f ltac:(lia) Hm Hl) as (lf & -> & Hlf).
  cbn [bind].
  destruct (fdiv_two_within lf 9 ltac:(lia) Hlf) as (x & -> & Hx).
  cbn [bind].
  destruct (Hexp x Hx) as (m & e & ->). cbn [bind].
  exists m, e. rewrite Hs.
  destruct (encoded <? 0); reflexivity.
Qed.

(** X11. The decoder reads the sign off the pattern: on a supported width,
    with [math.exp] positive and finite on arguments within 512, every
    signed integer of the width other than 0 and the NaR pattern decodes
    to a finite non-zero double that is negative exactly when the pattern
    is negative. *)
Theorem decode_sign :
  forall math_exp config encoded,
    supported config -> exp_in_range math_exp -> in_width config encoded ->
    encoded <> - 2 ^ (bits config - 1) -> encoded <> 0 ->
    exists m e,
      decode_takum_log math_exp encoded config =
      Ok (S754_finite (encoded <? 0) m e).
Proof. exact decode_finite_with_sign. Qed.

Lemma in_width_example : in_width TAKUM16 (-1024).
Proof. unfold in_width. cbn. lia. Defined.

Lemma decode_sign_witness :
  exists m e,
    decode_takum_log pow2_exp (-1024) TAKUM16 =
    Ok (S754_finite (-1024 <? 0) m e).
Proof.
  refine (decode_sign pow2_exp TAKUM16 (-1024) supported_TAKUM16
            pow2_exp_in_range in_width_example _ _); discriminate.
Defined.

(** Adding the bit [j] to a word leaves every field below it as it was. *)
Lemma field_below_bit (u j k n : Z) :
  0 <= k -> 0 <= n -> k + n <= j ->
  ((u + 2 ^ j) / 2 ^ k) mod 2 ^ n = (u / 2 ^ k) mod 2 ^ n.
Proof.
  intros Hk Hn Hj.
  replace (2 ^ j) with (2 ^ (j - k) * 2 ^ k)
    by (rewrite <- Z.pow_add_r by lia; f_equal; lia).
  rewrite Z.div_add by (apply Z.pow_nonzero; lia).
  replace (2 ^ (j - k)) with (2 ^ (j - k - n) * 2 ^ n)
    by (rewrite <- Z.pow_add_r by lia; f_equal; lia).
  apply Z.mod_add. apply Z.pow_nonzero; lia.
Qed.

Lemma extract_characteristic_below_bit (u j r m_bits : Z) :
  0 <= r -> 0 <= m_bits -> m_bits + r <= j ->
  extract_characteristic (u + 2 ^ j) r m_bits = extract_characteristic u r m_bits.
Proof.
  intros Hr Hm Hj. unfold extract_characteristic.
  destruct (0 <? r); [| reflexivity].
  rewrite !rshift_nonneg_count, lshift_nonneg_count by lia. cbn [bind].
  rewrite !land_mask_mod by lia. now rewrite field_below_bit by lia.
Qed.

Lemma extract_mantissa_below_bit (u j m_bits : Z) :
  0 <= m_bits <= j ->
  extract_mantissa (u + 2 ^ j) m_bits = extract_mantissa u m_bits.
Proof.
  intros Hm. unfold extract_mantissa.
  destruct (0 <? m_bits); [| reflexivity].
  rewrite lshift_nonneg_count by lia. cbn [bind].
  rewrite !land_mask_mod by lia.
  pose proof (field_below_bit u j 0 m_bits ltac:(lia) ltac:(lia) ltac:(lia)) as Hf.
  change (2 ^ 0) with 1 in Hf. rewrite !Z.div_1_r in Hf. now rewrite Hf.
Qed.

(** Setting the top bit of a positive pattern changes the sign field
    only. *)
Lemma decode_locals_top_bit (p : Z) (config : TakumConfig) :
  supported config -> 0 < p < 2 ^ (bits config - 1) ->
  decode_locals (p - 2 ^ (bits config - 1)) config =
  (f <- decode_locals p config ;; Ok (dec_with_sign_1 f)).
Proof.
  intros H Hp. destruct (supported_bits config H) as [_ Hb].
  pose proof (pow2_double (bits config) ltac:(lia)) as Hpow.
  unfold decode_locals, to_unsigned.
  destruct (Z.ltb_spec (p - 2 ^ (bits config - 1)) 0); [| lia].
  destruct (Z.ltb_spec p 0); [lia |].
  rewrite lshift_nonneg_count by lia. cbn [bind].
  replace (p - 2 ^ (bits config - 1) + 1 * 2 ^ bits config) with (p + 2 ^ (bits config - 1)) by lia.
  rewrite !rshift_nonneg_count by lia. cbn [bind]. cbv zeta.
  rewrite !land_1_mod, !land_7_mod.
  assert (E1 : ((p + 2 ^ (bits config - 1)) / 2 ^ (bits config - 2)) mod 2
               = (p / 2 ^ (bits config - 2)) mod 2)
    by (apply (field_below_bit p (bits config - 1) (bits config - 2) 1); lia).
  assert (E3 : ((p + 2 ^ (bits config - 1)) / 2 ^ (bits config - 5)) mod 8
               = (p / 2 ^ (bits config - 5)) mod 8)
    by (apply (field_below_bit p (bits config - 1) (bits config - 5) 3); lia).
  assert (E0 : ((p + 2 ^ (bits config - 1)) / 2 ^ (bits config - 1)) mod 2 = 1).
  { replace ((p + 2 ^ (bits config - 1)) / 2 ^ (bits config - 1)) with 1; [reflexivity |].
    apply Z.div_unique with (r := p); lia. }
  rewrite E0, E1, E3.
  set (r := (p / 2 ^ (bits config - 5)) mod 8).
  assert (Hr : 0 <= r <= 7)
    by (subst r; pose proof (Z.mod_pos_bound (p / 2 ^ (bits config - 5)) 8
                               ltac:(lia)); lia).
  pose proof (mantissa_bits_supported config r H) as Hmb.
  rewrite (extract_characteristic_below_bit p (bits config - 1) r (mantissa_bits config r))
    by lia.
  rewrite (extract_mantissa_below_bit p (bits config - 1) (mantissa_bits config r))
    by lia.
  destruct (extract_characteristic p r (mantissa_bits config r)) as [c |];
    cbn [bind]; [| reflexivity].
  destruct (extract_mantissa p (mantissa_bits config r)) as [m |];
    cbn [bind]; [| reflexivity].
  destruct (rebuild_log _ r c) as [l |]; cbn [bind]; reflexivity.
Qed.

(** X12. Two patterns that differ in the top bit decode to opposite
    numbers: for [0 < p < 2^(bits-1)] on a supported width,
    [decode(p - 2^(bits-1))] is [-decode(p)] (and raises where [decode(p)]
    raises). *)
Theorem decode_top_bit_negates :
  forall math_exp config p,
    supported config -> 0 < p < 2 ^ (bits config - 1) ->
    decode_takum_log math_exp (p - 2 ^ (bits config - 1)) config =
    (y <- decode_takum_log math_exp p config ;; Ok (SFopp y)).
Proof.
  intros math_exp config p H Hp.
  pose proof (decode_locals_sign p config) as Hsign.
  assert (Hw : in_width config p) by (unfold in_width; lia).
  unfold decode_takum_log.
  rewrite (nar_value_supported config H). cbn [bind].
  destruct (Z.eqb_spec (p - 2 ^ (bits config - 1)) (- 2 ^ (bits config - 1)));
    [lia |].
  destruct (Z.eqb_spec (p - 2 ^ (bits config - 1)) 0); [lia |].
  destruct (Z.eqb_spec p (- 2 ^ (bits config - 1))); [lia |].
  destruct (Z.eqb_spec p 0); [lia |].
  rewrite decode_locals_top_bit by assumption.
  destruct (decode_locals p config) as [f |] eqn:Hf; cbn [bind]; [| reflexivity].
  specialize (Hsign f H Hw eq_refl).
  replace (p <? 0) with false in Hsign by (symmetry; apply Z.ltb_ge; lia).
  change (decode_l_float (dec_with_sign_1 f)) with (decode_l_float f).
  destruct (decode_l_float f) as [lf |]; cbn [bind]; [| reflexivity].
  destruct (fdiv lf ftwo) as [x |]; cbn [bind]; [| reflexivity].
  destruct (math_exp x) as [y |]; cbn [bind]; [| reflexivity].
  cbn [dec_with_sign_1 d_s]. rewrite Hsign. reflexivity.
Qed.

Lemma decode_top_bit_negates_witness :
  decode_takum_log pow2_exp (0x4000 - 2 ^ (16 - 1)) TAKUM16 =
  (y <- decode_takum_log pow2_exp 0x4000 TAKUM16 ;; Ok (SFopp y)).
Proof.
  exact (decode_top_bit_negates pow2_exp TAKUM16 0x4000 supported_TAKUM16
           (conj (eq_refl : 0 < 0x4000) (eq_refl : 0x4000 < 2 ^ (16 - 1)))).
Defined.

(** ** The pattern of 1.0 and the special-value test *)

(** The decoder consults [math.exp] once, at the halved logarithm. *)
Lemma decode_takum_log_one math_exp (config : TakumConfig) :
  supported config -> math_exp fzero = Some fone ->
  decode_takum_log math_exp (2 ^ (bits config - 2)) config = Ok fone.
Proof.
  intros H Hexp. apply supported_cases in H.
  unfold decode_takum_log.
  destruct H as [-> | [-> | [-> | ->]]];
    match goal with
    | |- context [decode_locals ?p ?c] =>
        let v := eval vm_compute in (decode_locals p c) in
        change (decode_locals p c) with v
    end;
    cbn [bind nar_value lshift bits TAKUM8 TAKUM16 TAKUM32 TAKUM64
         mkTakumConfig Z.sub Z.add Z.opp Z.pos_sub Z.ltb Z.compare];
    match goal with
    | |- context [decode_l_float ?f] =>
        let v := eval vm_compute in (decode_l_float f) in
        change (decode_l_float f) with v
    end;
    cbn [bind];
    change (fdiv (S754_zero false) ftwo) with (Ok fzero);
    cbn [bind]; rewrite Hexp; reflexivity.
Qed.

Lemma encode_takum_log_one math_log (config : TakumConfig) :
  supported config -> math_log fone = Some fzero ->
  encode_takum_log math_log fone config = Ok (2 ^ (bits config - 2)) /\
  encode_takum_log math_log (SFopp fone) config = Ok (- 2 ^ (bits config - 2)).
Proof.
  intros H Hlog. apply supported_cases in H.
  rewrite (encode_takum_log_at math_log fone config fzero Hlog).
  rewrite (encode_takum_log_at math_log (SFopp fone) config fzero Hlog).
  destruct H as [-> | [-> | [-> | ->]]]; split; vm_compute; reflexivity.
Qed.

(** X13. On every supported width, with [math.log(1.0) = 0.0], the
    encoder gives 1.0 the pattern [1 << (bits-2)] and -1.0 its negative,
    which is twice [one_value], the pattern the configuration documents as
    the encoding of 1.0.  The decoder extracts from [one_value] the fields
    [s = 0, d = 0, r = 4, c = 0, m = 0] and the logarithm -31. *)
Theorem one_value_is_not_encode_one :
  forall math_log config,
    supported config -> math_log fone = Some fzero ->
    let one := 2 ^ (bits config - 3) in
    one_value config = Ok one /\ in_width config one /\
    encode_takum_log math_log fone config = Ok (2 * one) /\
    encode_takum_log math_log (SFopp fone) config = Ok (- (2 * one)) /\
    decode_locals one config =
      Ok {| d_s := 0; d_d := 0; d_r := 4;
            d_m_bits := Z.max 0 (bits config - 9); d_c := 0; d_m := 0;
            d_l := -31 |}.
Proof.
  intros math_log config H Hlog one. subst one.
  destruct (encode_takum_log_one math_log config H Hlog) as [E1 E2].
  rewrite E1, E2. apply supported_cases in H.
  destruct H as [-> | [-> | [-> | ->]]];
    repeat split; try reflexivity; try (cbn; lia).
Qed.

Lemma one_value_is_not_encode_one_witness :
  one_value TAKUM16 = Ok 0x2000 /\ in_width TAKUM16 0x2000 /\
  encode_takum_log sample_log fone TAKUM16 = Ok 0x4000 /\
  encode_takum_log sample_log (SFopp fone) TAKUM16 = Ok (- 0x4000) /\
  decode_locals 0x2000 TAKUM16 =
    Ok {| d_s := 0; d_d := 0; d_r := 4; d_m_bits := 7; d_c := 0; d_m := 0;
          d_l := -31 |}.
Proof.
  exact (one_value_is_not_encode_one sample_log TAKUM16 supported_TAKUM16 eq_refl).
Defined.

(** X14. [test_special_values] returns [True] on every supported width,
    given [math.log(1.0) = 0.0] and [math.exp(0.0) = 1.0]: NaR decodes to
    NaN, 0.0 encodes to 0, 1.0 comes back as 1.0 exactly, and NaN encodes
    to NaR. *)
Theorem test_special_values_passes :
  forall math_log math_exp config,
    supported config ->
    math_log fone = Some fzero -> math_exp fzero = Some fone ->
    test_special_values math_log math_exp config = Ok true.
Proof.
  intros math_log math_exp config H Hlog Hexp.
  unfold test_special_values.
  rewrite (nar_value_supported config H). cbn [bind].
  rewrite (decode_nar math_exp config H). cbn [bind].
  change (encode_takum_log math_log fzero config) with (@Ok Z 0). cbn [bind].
  destruct (encode_takum_log_one math_log config H Hlog) as [-> _]. cbn [bind].
  rewrite (decode_takum_log_one math_exp config H Hexp). cbn [bind].
  change (encode_takum_log math_log S754_nan config) with (nar_value config).
  rewrite (nar_value_supported config H). cbn [bind].
  rewrite !Z.eqb_refl. reflexivity.
Qed.

Lemma test_special_values_passes_witness :
  test_special_values sample_log pow2_exp_at_0 TAKUM64 = Ok true.
Proof.
  exact (test_special_values_passes sample_log pow2_exp_at_0 TAKUM64
           supported_TAKUM64 eq_refl eq_refl).
Defined.

(** ** Signed and unsigned patterns on the command line *)

(** X15. On a supported width the conversions of the command line and of
    the decoder agree: an unsigned [u] in [0, 2^bits) becomes, by lines
    588-590, a signed integer [p] of the width that [to_unsigned] and the
    display mask [p & ((1 << bits) - 1)] both send back to [u]; and every
    signed integer of the width arises so. *)
Theorem signed_unsigned_patterns :
  forall config,
    supported config ->
    (forall u, 0 <= u < 2 ^ bits config ->
       exists p, to_signed u config = Ok p /\ in_width config p /\
                 to_unsigned p config = Ok u /\
                 display_pattern p config = Ok u) /\
    (forall p, in_width config p ->
       exists u, to_unsigned p config = Ok u /\ 0 <= u < 2 ^ bits config /\
                 to_signed u config = Ok p /\
                 display_pattern p config = Ok u).
Proof.
  intros config H. destruct (supported_bits config H) as [_ Hb].
  pose proof (pow2_double (bits config) ltac:(lia)) as Hp.
  assert (Hpos : 0 < 2 ^ (bits config - 1)) by (apply Z.pow_pos_nonneg; lia).
  unfold to_signed, to_unsigned, display_pattern, in_width.
  split.
  - intros u Hu.
    rewrite !lshift_nonneg_count by lia. cbn [bind]. rewrite ?Z.mul_1_l.
    destruct (Z.leb_spec (2 ^ (bits config - 1)) u).
    + rewrite ?lshift_nonneg_count by lia. cbn [bind]. rewrite ?Z.mul_1_l.
      eexists; split; [reflexivity |]. split; [lia |].
      destruct (Z.ltb_spec (u - 2 ^ bits config) 0); [| lia].
      rewrite ?lshift_nonneg_count by lia. cbn [bind]. rewrite ?Z.mul_1_l.
      split; [f_equal; lia |]. f_equal.
      replace (2 ^ bits config - 1) with (1 * 2 ^ bits config - 1) by lia.
      rewrite land_mask_mod by lia.
      symmetry. apply Z.mod_unique with (q := -1); lia.
    + eexists; split; [reflexivity |]. split; [lia |].
      destruct (Z.ltb_spec u 0); [lia |].
      split; [reflexivity |]. f_equal.
      replace (2 ^ bits config - 1) with (1 * 2 ^ bits config - 1) by lia.
      rewrite land_mask_mod by lia. apply Z.mod_small. lia.
  - intros p Hw.
    rewrite !lshift_nonneg_count by lia. cbn [bind]. rewrite ?Z.mul_1_l.
    replace (2 ^ bits config - 1) with (1 * 2 ^ bits config - 1) by lia.
    rewrite land_mask_mod by lia.
    destruct (Z.ltb_spec p 0).
    + rewrite ?lshift_nonneg_count by lia. cbn [bind]. rewrite ?Z.mul_1_l.
      eexists; split; [reflexivity |]. split; [lia |].
      destruct (Z.leb_spec (2 ^ (bits config - 1)) (p + 2 ^ bits config)); [| lia].
      rewrite ?lshift_nonneg_count by lia. cbn [bind]. rewrite ?Z.mul_1_l.
      split; [f_equal; lia |]. f_equal.
      symmetry. apply Z.mod_unique with (q := -1); lia.
    + eexists; split; [reflexivity |]. split; [lia |].
      destruct (Z.leb_spec (2 ^ (bits config - 1)) p); [lia |].
      split; [reflexivity |]. f_equal. apply Z.mod_small. lia.
Qed.

Lemma signed_unsigned_patterns_witness :
  (forall u, 0 <= u < 2 ^ 8 ->
     exists p, to_signed u TAKUM8 = Ok p /\ in_width TAKUM8 p /\
               to_unsigned p TAKUM8 = Ok u /\
               display_pattern p TAKUM8 = Ok u) /\
  (forall p, in_width TAKUM8 p ->
     exists u, to_unsigned p TAKUM8 = Ok u /\ 0 <= u < 2 ^ 8 /\
               to_signed u TAKUM8 = Ok p /\
               display_pattern p TAKUM8 = Ok u).
Proof. exact (signed_unsigned_patterns TAKUM8 supported_TAKUM8). Defined.

(** ** The sign of a logarithm that rounds to 0 *)

Lemma binary_round_aux_opp (s : bool) (m e : Z) (l : location) :
  binary_round_aux prec emax (negb s) m e l =
  SFopp (binary_round_aux prec emax s m e l).
Proof.
  unfold binary_round_aux.
  destruct (shr_fexp prec emax m e l) as [mrs e'].
  destruct (shr_fexp prec emax _ e' loc_Exact) as [mrs' e''].
  destruct (shr_m mrs'); [reflexivity | | reflexivity].
  destruct (e'' <=? emax - prec); reflexivity.
Qed.

Lemma fmul_opp_r (x y : float) : fmul x (SFopp y) = SFopp (fmul x y).
Proof.
  unfold fmul.
  destruct x as [sx | sx | | sx mx ex], y as [sy | sy | | sy my ey];
    cbn [SFmul SFopp]; try reflexivity;
    try (now destruct sx, sy).
  replace (xorb sx (negb sy)) with (negb (xorb sx sy)) by (now destruct sx, sy).
  apply binary_round_aux_opp.
Qed.

Lemma round_opp_0 (x : float) : round x = Ok 0 -> round (SFopp x) = Ok 0.
Proof.
  destruct x as [s | s | | s m e]; cbn [round SFopp]; try discriminate; auto.
  intro H. injection H as H. f_equal.
  destruct s; cbn [negb cond_Zopp] in *; lia.
Qed.

Lemma SFabs_opp (x : float) : SFabs (SFopp x) = SFabs x.
Proof. destruct x; reflexivity. Qed.

Lemma encode_sign_of_small_log math_log (v w y : float) (config : TakumConfig) :
  isnan v = false -> isinf v = false -> SFeqb v fzero = false ->
  isnan w = false -> isinf w = false -> SFeqb w fzero = false ->
  SFltb fzero v = SFltb fzero w ->
  math_log (SFabs v) = Some y -> math_log (SFabs w) = Some (SFopp y) ->
  round (fmul ftwo y) = Ok 0 ->
  encode_takum_log math_log v config = encode_takum_log math_log w config.
Proof.
  intros Hv1 Hv2 Hv3 Hw1 Hw2 Hw3 Hsign Hlv Hlw Hround.
  unfold encode_takum_log. rewrite Hv1, Hv2, Hv3, Hw1, Hw2, Hw3.
  unfold encode_locals. rewrite Hlv, Hlw, Hsign. cbn [bind]. cbv zeta.
  rewrite fmul_opp_r, (round_opp_0 _ Hround), Hround, SFabs_opp. cbn [bind].
  repeat match goal with
         | |- context [bind ?c _] =>
             lazymatch c with
             | bind _ _ => fail
             | _ => destruct c; cbn [bind]; try reflexivity
             end
         end.
Qed.

(** X16. The encoder drops the sign of a logarithm that rounds to 0: two
    finite non-zero inputs of the same sign whose [math.log] values are
    opposite, with [round(2 * log)] equal to 0, get the same pattern (so
    1.2 and its reciprocal encode alike). *)
Theorem encode_drops_sign_of_small_log :
  forall math_log v w y config,
    isnan v = false -> isinf v = false -> SFeqb v fzero = false ->
    isnan w = false -> isinf w = false -> SFeqb w fzero = false ->
    SFltb fzero v = SFltb fzero w ->
    math_log (SFabs v) = Some y -> math_log (SFabs w) = Some (SFopp y) ->
    round (fmul ftwo y) = Ok 0 ->
    encode_takum_log math_log v config = encode_takum_log math_log w config.
Proof. exact encode_sign_of_small_log. Qed.

Lemma encode_drops_sign_of_small_log_witness :
  encode_takum_log sample_log_near_one f1_2 TAKUM16 =
  encode_takum_log sample_log_near_one f1_2_inv TAKUM16.
Proof.
  exact (encode_drops_sign_of_small_log sample_log_near_one f1_2 f1_2_inv
           log_1_2 TAKUM16 eq_refl eq_refl eq_refl eq_refl eq_refl eq_refl
           eq_refl eq_refl eq_refl eq_refl).
Defined.

(** ** Exact rounding: nothing is added unless a bit was lost *)

Lemma shr_1_lost (mrs : shr_record) :
  0 <= shr_m mrs -> lost (shr_1 mrs) = lost mrs || Z.odd (shr_m mrs).
Proof.
  destruct mrs as [m r s]. unfold lost. cbn [shr_m shr_r shr_s].
  destruct m as [| [p | p |] | p]; intro H; cbn [shr_1 shr_r shr_s Z.odd];
    try lia; destruct r, s; reflexivity.
Qed.

Lemma mod_pow2_split (m a b : Z) :
  0 <= a -> 0 <= b ->
  (m mod 2 ^ (a + b) =? 0) = (m mod 2 ^ a =? 0) && ((m / 2 ^ a) mod 2 ^ b =? 0).
Proof.
  intros Ha Hb.
  assert (Hpa : 0 < 2 ^ a) by (apply Z.pow_pos_nonneg; lia).
  assert (Hpb : 0 < 2 ^ b) by (apply Z.pow_pos_nonneg; lia).
  rewrite Z.pow_add_r by lia.
  rewrite Z.rem_mul_r by lia.
  pose proof (Z.mod_pos_bound m (2 ^ a) Hpa).
  pose proof (Z.mod_pos_bound (m / 2 ^ a) (2 ^ b) Hpb).
  destruct (Z.eqb_spec (m mod 2 ^ a) 0) as [E1 | E1],
           (Z.eqb_spec ((m / 2 ^ a) mod 2 ^ b) 0) as [E2 | E2]; cbn [andb];
    apply Z.eqb_eq || apply Z.eqb_neq; nia.
Qed.

Lemma odd_mod_2 (m : Z) : Z.odd m = negb (m mod 2 ^ 1 =? 0).
Proof.
  change (2 ^ 1) with 2. rewrite Zmod_odd.
  destruct (Z.odd m); reflexivity.
Qed.

Lemma iter_pos_shr_1_lost (p : positive) :
  forall mrs, 0 <= shr_m mrs ->
    lost (iter_pos shr_1 p mrs) = lost mrs || negb (shr_m mrs mod 2 ^ Zpos p =? 0).
Proof.
  induction p as [p IH | p IH |]; intros mrs Hm; cbn [iter_pos].
  - assert (H1 : 0 <= shr_m (shr_1 mrs))
      by (rewrite shr_1_m by assumption; apply Z.div_pos; lia).
    assert (H2 : 0 <= shr_m (iter_pos shr_1 p (shr_1 mrs)))
      by (rewrite iter_pos_shr_1_m by assumption; apply Z.div_pos; lia).
    rewrite IH, IH, shr_1_lost by assumption.
    rewrite iter_pos_shr_1_m, shr_1_m by assumption.
    rewrite (Pos2Z.inj_xI p).
    replace (2 * Zpos p + 1) with (1 + (Zpos p + Zpos p)) by lia.
    rewrite (mod_pow2_split (shr_m mrs) 1 (Zpos p + Zpos p)) by lia.
    change (2 ^ 1) with 2 at 2.
    rewrite (mod_pow2_split (shr_m mrs / 2) (Zpos p) (Zpos p)) by lia.
    rewrite odd_mod_2.
    repeat match goal with |- context [?a =? 0] =>
      lazymatch a with 0 => fail | _ => destruct (a =? 0) end end;
      destruct (lost mrs); reflexivity.
  - assert (H2 : 0 <= shr_m (iter_pos shr_1 p mrs))
      by (rewrite iter_pos_shr_1_m by assumption; apply Z.div_pos; lia).
    rewrite IH, IH by assumption.
    rewrite iter_pos_shr_1_m by assumption.
    rewrite (Pos2Z.inj_xO p).
    replace (2 * Zpos p) with (Zpos p + Zpos p) by lia.
    rewrite (mod_pow2_split (shr_m mrs) (Zpos p) (Zpos p)) by lia.
    repeat match goal with |- context [?a =? 0] =>
      lazymatch a with 0 => fail | _ => destruct (a =? 0) end end;
      destruct (lost mrs); reflexivity.
  - rewrite shr_1_lost by assumption. now rewrite odd_mod_2.
Qed.

Lemma loc_of_lost (mrs : shr_record) :
  lost mrs = false -> loc_of_shr_record mrs = loc_Exact.
Proof.
  destruct mrs as [m [] []]; unfold lost; cbn; intro H;
    try discriminate; reflexivity.
Qed.

(** After the shift of an exact mantissa, either no bit was lost and the
    location is exact, or the quotient is strictly below the mantissa. *)
Lemma shr_fexp_exact (m e : Z) :
  0 <= m ->
  let n := Z.max 0 (fexp prec emax (Zdigits2 m + e) - e) in
  let mrs := fst (shr_fexp prec emax m e loc_Exact) in
  loc_of_shr_record mrs = loc_Exact \/ shr_m mrs * 2 ^ n < m.
Proof.
  intros Hm n mrs. subst mrs. unfold shr_fexp.
  fold (Z.max 0 (fexp prec emax (Zdigits2 m + e) - e)) in n.
  destruct (fexp prec emax (Zdigits2 m + e) - e) as [| p | p] eqn:En;
    cbn [shr fst]; try (left; reflexivity).
  pose proof (iter_pos_shr_1_lost p (shr_record_of_loc m loc_Exact)) as Hl.
  pose proof (iter_pos_shr_1_m p (shr_record_of_loc m loc_Exact)) as Hq.
  change (shr_m (shr_record_of_loc m loc_Exact)) with m in Hl, Hq.
  specialize (Hl Hm). specialize (Hq Hm).
  change (lost (shr_record_of_loc m loc_Exact)) with false in Hl.
  cbn [orb] in Hl.
  destruct (Z.eqb_spec (m mod 2 ^ Zpos p) 0) as [E | E].
  - left. apply loc_of_lost. exact Hl.
  - right. rewrite Hq. subst n. replace (Z.max 0 (Zpos p)) with (Zpos p) by lia.
    pose proof (Z.div_mod m (2 ^ Zpos p) ltac:(lia)).
    pose proof (Z.mod_pos_bound m (2 ^ Zpos p) ltac:(lia)). lia.
Qed.

(** Rounding an exact [mx * 2^ex <= 2^k] to binary64 stays within [2^k]. *)
Lemma binary_round_aux_exact_within (sx : bool) (mx ex k : Z) :
  0 <= mx -> ex <= k -> mx <= 2 ^ (k - ex) ->
  -1074 <= k < 1024 -> ex <= 971 ->
  rounded_within sx k (binary_round_aux prec emax sx mx ex loc_Exact).
Proof.
  intros Hmx Hex Hle Hk Hex'.
  unfold binary_round_aux.
  pose proof (shr_fexp_spec mx ex loc_Exact Hmx) as H1. cbv zeta in H1.
  pose proof (shr_fexp_exact mx ex Hmx) as Hx. cbv zeta in Hx.
  destruct (shr_fexp prec emax mx ex loc_Exact) as [mrs1 e1]. cbn [fst snd] in H1, Hx.
  destruct H1 as [Hm1 He1].
  set (n1 := Z.max 0 (fexp prec emax (Zdigits2 mx + ex) - ex)) in *.
  assert (Hd : Zdigits2 mx <= k - ex + 1).
  { apply Zdigits2_le; try lia. rewrite Z.pow_add_r by lia. lia. }
  assert (Hf1 : fexp prec emax (Zdigits2 mx + ex) <= Z.min k 971)
    by (unfold fexp, emin, prec, emax; lia).
  assert (Hn1 : 0 <= n1 <= k - ex) by lia.
  assert (Hpn : 0 < 2 ^ n1) by (apply Z.pow_pos_nonneg; lia).
  assert (Hsplit : 2 ^ (k - ex) = 2 ^ (k - e1) * 2 ^ n1).
  { rewrite <- Z.pow_add_r by lia. f_equal. lia. }
  assert (Hm1nn : 0 <= shr_m mrs1) by (rewrite Hm1; apply Z.div_pos; lia).
  assert (Hm1le : shr_m mrs1 * 2 ^ n1 <= mx).
  { rewrite Hm1. pose proof (Z.mul_div_le mx (2 ^ n1) Hpn). lia. }
  pose proof (round_nearest_even_range (shr_m mrs1) (loc_of_shr_record mrs1)) as Hr.
  assert (Hm1' : round_nearest_even (shr_m mrs1) (loc_of_shr_record mrs1)
                 <= 2 ^ (k - e1)).
  { destruct Hx as [Hx | Hx].
    - rewrite Hx. cbn [round_nearest_even]. nia.
    - assert (shr_m mrs1 < 2 ^ (k - e1)) by nia. lia. }
  set (m1' := round_nearest_even (shr_m mrs1) (loc_of_shr_record mrs1)) in *.
  pose proof (shr_fexp_spec m1' e1 loc_Exact ltac:(lia)) as H2. cbv zeta in H2.
  destruct (shr_fexp prec emax m1' e1 loc_Exact) as [mrs2 e2]. cbn [fst snd] in H2.
  destruct H2 as [Hm2 He2].
  set (n2 := Z.max 0 (fexp prec emax (Zdigits2 m1' + e1) - e1)) in *.
  assert (Hd' : Zdigits2 m1' <= k - e1 + 1).
  { apply Zdigits2_le; try lia. rewrite Z.pow_add_r by lia. lia. }
  assert (Hf2 : fexp prec emax (Zdigits2 m1' + e1) <= Z.min k 971)
    by (unfold fexp, emin, prec, emax; lia).
  assert (Hn2 : 0 <= n2 <= k - e1) by lia.
  assert (Hm2le : shr_m mrs2 <= 2 ^ (k - e2)).
  { rewrite Hm2, He2. replace (k - (e1 + n2)) with (k - e1 - n2) by lia.
    apply pow2_div_le; lia. }
  assert (Hm2nn : 0 <= shr_m mrs2) by (rewrite Hm2; apply Z.div_pos; lia).
  destruct (shr_m mrs2) as [| m | m] eqn:Em; cbn [rounded_within].
  - reflexivity.
  - destruct (Z.leb_spec e2 (emax - prec)) as [_ | Hbad];
      [| unfold emax, prec in Hbad; lia].
    cbn. repeat split; lia.
  - lia.
Qed.

(** ** Inputs whose logarithm rounds to 0 *)

(** A float that rounds to the integer 0 has magnitude at most 1/2. *)
Lemma round_zero_small (x : float) :
  round x = Ok 0 -> mag_le_pow2 x (-1) = true.
Proof.
  destruct x as [s | s | | s m e]; cbn [round]; try discriminate;
    [reflexivity |].
  intro H. injection H as H.
  assert (H0 : round_half_even (Zpos m) e = 0)
    by (destruct s; cbn [cond_Zopp] in H; lia).
  clear H. unfold round_half_even in H0. cbv zeta in H0. cbn [mag_le_pow2].
  destruct (Z.leb_spec 0 e).
  - assert (0 < 2 ^ e) by (apply Z.pow_pos_nonneg; lia). nia.
  - assert (Hd : 0 < 2 ^ (- e)) by (apply Z.pow_pos_nonneg; lia).
    pose proof (Z.div_mod (Zpos m) (2 ^ (- e)) ltac:(lia)) as Hdm.
    pose proof (Z.mod_pos_bound (Zpos m) (2 ^ (- e)) Hd) as Hmod.
    assert (Hq : 0 <= Zpos m / 2 ^ (- e)) by (apply Z.div_pos; lia).
    assert (Hpow : 2 ^ (- e) = 2 * 2 ^ (-1 - e)).
    { replace (- e) with (-1 - e + 1) at 1 by lia.
      rewrite Z.pow_add_r by lia. lia. }
    assert (Hle : 2 * Zpos m <= 2 ^ (- e)).
    { destruct (Z.compare_spec (2 * (Zpos m mod 2 ^ (- e))) (2 ^ (- e)))
        as [Ec | Ec | Ec].
      - assert (Hq0 : Zpos m / 2 ^ (- e) = 0)
          by (destruct (Z.even (Zpos m / 2 ^ (- e))); lia).
        rewrite Hq0, Z.mul_0_r in Hdm. lia.
      - rewrite H0, Z.mul_0_r in Hdm. lia.
      - lia. }
    apply andb_true_intro; split; apply Z.leb_le; lia.
Qed.

Lemma float_of_int_pow2_exact (j : Z) :
  0 <= j <= 59 ->
  float_of_int (1 * 2 ^ j) = Ok (S754_finite false 4503599627370496 (j - 52)).
Proof.
  intro Hj. rewrite Z.mul_1_l.
  assert (Hall : forallb pow2_float_exactb (Zrange 0 60) = true)
    by (vm_compute; reflexivity).
  pose proof (Zrange_forallb pow2_float_exactb 0 60 Hall j ltac:(lia)) as Hb.
  unfold pow2_float_exactb in Hb.
  destruct (float_of_int (2 ^ j)) as [[s | s | | [] m e] |]; try discriminate.
  apply andb_prop in Hb. destruct Hb as [H1 H2].
  apply Z.eqb_eq in H1, H2. change (2 ^ 52) with 4503599627370496 in H1.
  now inversion H1; subst.
Qed.

(** The mantissa the encoder computes from a logarithm of magnitude at
    most 1/2 and rounded value 0 fills at most half of the field. *)
Lemma mantissa_of_small_log (x : float) (j : Z) :
  mag_le_pow2 x (-1) = true -> 1 <= j <= 59 ->
  exists m,
    int_of_float
      (fmul (fsub (SFabs x) fzero) (S754_finite false 4503599627370496 (j - 52)))
    = Ok m /\ 0 <= m <= 2 ^ (j - 1).
Proof.
  intros Hx Hj. apply mag_le_pow2_finite in Hx.
  assert (Hp : 0 < 2 ^ (j - 1)) by (apply Z.pow_pos_nonneg; lia).
  destruct x as [s | s | | s m e]; try contradiction.
  - exists 0. split; [destruct s; reflexivity | lia].
  - destruct Hx as [He Hm]. cbn [SFabs].
    change (fsub (S754_finite false m e) fzero) with (S754_finite false m e).
    unfold fmul. cbn [SFmul xorb].
    pose proof (binary_round_aux_exact_within false
                  (Zpos (m * 4503599627370496)) (e + (j - 52)) (j - 1)
                  ltac:(lia) ltac:(lia)) as Hw.
    assert (Hle : Zpos (m * 4503599627370496) <= 2 ^ (j - 1 - (e + (j - 52)))).
    { rewrite Pos2Z.inj_mul.
      replace (j - 1 - (e + (j - 52))) with ((-1 - e) + 52) by lia.
      rewrite Z.pow_add_r by lia. change (2 ^ 52) with 4503599627370496. nia. }
    specialize (Hw Hle ltac:(lia) ltac:(lia)).
    destruct (binary_round_aux prec emax false _ _ loc_Exact)
      as [s' | s' | | s' m' e']; cbn [rounded_within] in Hw; try contradiction.
    + exists 0. split; [reflexivity | lia].
    + destruct Hw as (-> & He' & Hm'). cbn [int_of_float cond_Zopp].
      eexists; split; [reflexivity |].
      destruct (Z.leb_spec 0 e').
      * replace (j - 1) with ((j - 1 - e') + e') by lia.
        rewrite Z.pow_add_r by lia.
        assert (0 < 2 ^ e') by (apply Z.pow_pos_nonneg; lia). nia.
      * split; [apply Z.div_pos; [lia | apply Z.pow_pos_nonneg; lia] |].
        replace (j - 1) with (j - 1 - e' - (- e')) by lia.
        apply pow2_div_le; lia.
Qed.

(** What lines 201-203 leave in [l_frac] and [m]. *)
Lemma encode_locals_inv_mantissa math_log (value : float)
  (config : TakumConfig) (f : enc_locals) :
  encode_locals math_log value config = Ok f ->
  exists fl, float_of_int (Z.abs (e_l f)) = Ok fl /\
    e_l_frac f = fsub (SFabs (e_l_float f)) fl /\
    (if 0 <? e_m_bits f then
       p <- lshift 1 (e_m_bits f) ;;
       fp <- float_of_int p ;;
       int_of_float (fmul (e_l_frac f) fp)
     else Ok 0) = Ok (e_m f).
Proof.
  unfold encode_locals. cbv zeta. intro H.
  apply bind_Ok_inv in H. destruct H as (ln & Hln & H).
  apply bind_Ok_inv in H. destruct H as (l & Hl & H).
  apply bind_Ok_inv in H. destruct H as (c & Hc & H).
  apply bind_Ok_inv in H. destruct H as (fl & Hfl & H).
  apply bind_Ok_inv in H. destruct H as (m & Hm & H).
  injection H as <-. cbn [e_l e_l_frac e_l_float e_m_bits e_m].
  exists fl. auto.
Qed.

(** The fields of an input whose rounded logarithm is 0 fit the layout. *)
Lemma fields_fit_of_zero_log math_log (value : float) (config : TakumConfig)
  (f : enc_locals) :
  supported config ->
  encode_locals math_log value config = Ok f -> e_l f = 0 ->
  fields_fit config f /\ e_d f = 1 /\ e_r f = 0 /\ e_c f = 0 /\
  e_m_bits f = bits config - 5 /\ 0 <= 2 * e_m f <= 2 ^ e_m_bits f.
Proof.
  intros H Hf Hl0.
  destruct (supported_bits config H) as [_ Hb].
  pose proof (encode_locals_inv _ _ _ _ Hf)
    as (Hs & _ & (l0 & Hround & Hclamp) & Hd & Hr & Hc & Hmb).
  pose proof (encode_locals_inv_mantissa _ _ _ _ Hf) as (fl & Hfl & Hfrac & Hm).
  rewrite Hl0 in *. cbn [Z.abs] in *.
  change (compute_regime 0) with 0 in Hr. rewrite Hr in *.
  change (characteristic 0 0 0) with (@Ok Z 0) in Hc. injection Hc as Hc.
  change (0 <=? 0) with true in Hd.
  rewrite mantissa_bits_supported in Hmb by exact H.
  replace (Z.max 0 (bits config - 5 - 0)) with (bits config - 5) in Hmb by lia.
  assert (Hl00 : l0 = 0) by lia. subst l0.
  change (float_of_int 0) with (Ok fzero) in Hfl. injection Hfl as <-.
  destruct (Z.ltb_spec 0 (e_m_bits f)); [| lia].
  rewrite lshift_nonneg_count in Hm by lia. cbn [bind] in Hm.
  rewrite float_of_int_pow2_exact in Hm by lia. cbn [bind] in Hm.
  rewrite Hfrac in Hm.
  destruct (mantissa_of_small_log (e_l_float f) (e_m_bits f)
              (round_zero_small _ Hround) ltac:(lia)) as (m & Hm' & Hrange).
  rewrite Hm' in Hm. injection Hm as Hm.
  assert (Hpow : 2 ^ e_m_bits f = 2 * 2 ^ (e_m_bits f - 1)).
  { replace (e_m_bits f) with (e_m_bits f - 1 + 1) at 1 by lia.
    rewrite Z.pow_add_r by lia. lia. }
  assert (Hsb : 0 <= e_s f <= 1) by (rewrite Hs; destruct (SFltb fzero value); lia).
  unfold fields_fit. rewrite Hr, <- Hc, Hd.
  rewrite mantissa_bits_supported by exact H.
  change (2 ^ 0) with 1.
  repeat split; lia.
Qed.

(** X17. Where the codec round-trips: for every input whose rounded
    logarithm is 0 (magnitude between about e^-0.25 and e^0.25), on every
    supported width, the encoder's fields are [d = 1, r = 0, c = 0] with a
    mantissa of at most half the field, the pattern is a signed integer of
    the width, and the decoder extracts exactly the encoder's [s], [d],
    [r], [c], [m] and the logarithm [l = 0]. *)
Theorem fields_round_trip_at_zero_log :
  forall math_log value config f,
    supported config ->
    encoder_reaches math_log value config f -> e_l f = 0 ->
    0 <= 2 * e_m f <= 2 ^ (bits config - 5) /\
    exists p, encode_takum_log math_log value config = Ok p /\
      in_width config p /\
      decode_locals p config =
        Ok {| d_s := e_s f; d_d := 1; d_r := 0; d_m_bits := bits config - 5;
              d_c := 0; d_m := e_m f; d_l := 0 |}.
Proof.
  intros math_log value config f H (Hnan & Hinf & Hz & Hf) Hl0.
  destruct (fields_fit_of_zero_log math_log value config f H Hf Hl0)
    as (Hfit & Hd & Hr & Hc & Hmb & Hm).
  rewrite Hmb in Hm. split; [exact Hm |].
  destruct (decode_locals_of_assemble f config H Hfit)
    as (p & l & Hp & Hw & Hl & Hdec).
  rewrite Hd, Hr, Hc in Hl. change (rebuild_log 1 0 0) with (@Ok Z 0) in Hl.
  injection Hl as <-.
  exists p. split; [| split; [exact Hw |]].
  - unfold encode_takum_log. rewrite Hnan, Hinf, Hz, Hf. exact Hp.
  - rewrite Hdec, Hd, Hr, Hc, Hmb. reflexivity.
Qed.

Lemma fields_round_trip_at_zero_log_witness :
  0 <= 2 * 746 <= 2 ^ (16 - 5) /\
  exists p, encode_takum_log sample_log_near_one f1_2 TAKUM16 = Ok p /\
    in_width TAKUM16 p /\
    decode_locals p TAKUM16 =
      Ok {| d_s := 0; d_d := 1; d_r := 0; d_m_bits := 16 - 5;
            d_c := 0; d_m := 746; d_l := 0 |}.
Proof.
  exact (fields_round_trip_at_zero_log sample_log_near_one f1_2 TAKUM16
           locals_1_2 supported_TAKUM16
           (conj eq_refl (conj eq_refl (conj eq_refl eq_refl))) eq_refl).
Defined.

(** ** Lower bounds of binary64 results *)

Lemma digits2_pos_upper (p : positive) :
  Zpos p < 2 ^ Zpos (digits2_pos p).
Proof.
  induction p as [p IH | p IH |]; cbn [digits2_pos].
  - rewrite Pos2Z.inj_succ, Z.pow_succ_r by lia. lia.
  - rewrite Pos2Z.inj_succ, Z.pow_succ_r by lia. lia.
  - cbn. lia.
Qed.

Lemma pow2_scale_lower (m e e' k : Z) :
  1 <= m -> 2 ^ (k - e) <= m -> e' <= e ->
  2 ^ (k - e') <= m * 2 ^ (e - e').
Proof.
  intros Hm Hk He.
  assert (Hp : 0 < 2 ^ (e - e')) by (apply Z.pow_pos_nonneg; lia).
  destruct (Z.le_gt_cases e k) as [Hek | Hek].
  - replace (k - e') with ((k - e) + (e - e')) by lia.
    rewrite Z.pow_add_r by lia.
    apply Z.mul_le_mono_nonneg_r; lia.
  - destruct (Z.le_gt_cases e' k) as [He'k | He'k].
    + pose proof (pow2_le_mono (k - e') (e - e') ltac:(lia)). nia.
    + rewrite Z.pow_neg_r by lia. nia.
Qed.

(** The shift of [shr_fexp] keeps a value of at least [2^k], [k >= -1074],
    at least [2^k], and leaves at most 53 digits. *)
Lemma shr_fexp_lower (m e k : Z) :
  1 <= m -> 2 ^ (k - e) <= m -> -1074 <= k ->
  let n := Z.max 0 (fexp prec emax (Zdigits2 m + e) - e) in
  1 <= m / 2 ^ n /\ 2 ^ (k - (e + n)) <= m / 2 ^ n /\ m / 2 ^ n < 2 ^ 53.
Proof.
  intros Hm Hk Hk' n.
  destruct m as [| p | p]; try lia.
  pose proof (digits2_pos_lower p) as Hlo.
  pose proof (digits2_pos_upper p) as Hup.
  cbn [Zdigits2] in n.
  set (d := Zpos (digits2_pos p)) in *.
  assert (Hd : 1 <= d) by (subst d; lia).
  assert (Hf : fexp prec emax (d + e) = Z.max (d + e - 53) (-1074)) by reflexivity.
  assert (Hn0 : 0 <= n) by (subst n; lia).
  assert (Hp : 0 < 2 ^ n) by (apply Z.pow_pos_nonneg; lia).
  assert (H1 : 2 ^ n <= Zpos p).
  { destruct (Z.eq_dec n 0) as [-> | Hn]; [cbn; lia |].
    destruct (Z.le_gt_cases (-1074) (d + e - 53)).
    - assert (n = d - 53) by (subst n; lia).
      pose proof (pow2_le_mono n (d - 1) ltac:(lia)). lia.
    - assert (n = -1074 - e) by (subst n; lia).
      pose proof (pow2_le_mono n (k - e) ltac:(lia)). lia. }
  split; [apply Z.div_le_lower_bound; lia |].
  split.
  - destruct (Z.le_gt_cases 0 (k - (e + n))).
    + apply Z.div_le_lower_bound; [lia |].
      rewrite <- Z.pow_add_r by lia.
      now replace (n + (k - (e + n))) with (k - e) by lia.
    + rewrite Z.pow_neg_r by lia. apply Z.div_pos; lia.
  - apply Z.div_lt_upper_bound; [lia |].
    rewrite <- Z.pow_add_r by lia.
    pose proof (pow2_le_mono d (n + 53) ltac:(subst n; lia)). lia.
Qed.

(** Rounding [mx * 2^ex >= 2^k], with [2^k] at least the least positive
    double, gives at least [2^k]. *)
Lemma binary_round_aux_at_least (sx : bool) (mx ex : Z) (lx : location) (k : Z) :
  1 <= mx -> 2 ^ (k - ex) <= mx -> -1074 <= k ->
  at_least sx k (binary_round_aux prec emax sx mx ex lx).
Proof.
  intros Hmx Hlo Hk.
  unfold binary_round_aux.
  pose proof (shr_fexp_spec mx ex lx ltac:(lia)) as H1. cbv zeta in H1.
  pose proof (shr_fexp_lower mx ex k Hmx Hlo Hk) as L1. cbv zeta in L1.
  destruct (shr_fexp prec emax mx ex lx) as [mrs1 e1]. cbn [fst snd] in H1.
  destruct H1 as [Hm1 He1].
  rewrite <- Hm1, <- He1 in L1. destruct L1 as (L1a & L1b & L1c).
  pose proof (round_nearest_even_range (shr_m mrs1) (loc_of_shr_record mrs1)) as Hr.
  set (m1' := round_nearest_even (shr_m mrs1) (loc_of_shr_record mrs1)) in *.
  pose proof (shr_fexp_spec m1' e1 loc_Exact ltac:(lia)) as H2. cbv zeta in H2.
  pose proof (shr_fexp_lower m1' e1 k ltac:(lia) ltac:(lia) Hk) as L2.
  cbv zeta in L2.
  destruct (shr_fexp prec emax m1' e1 loc_Exact) as [mrs2 e2]. cbn [fst snd] in H2.
  destruct H2 as [Hm2 He2].
  rewrite <- Hm2, <- He2 in L2. destruct L2 as (L2a & L2b & L2c).
  destruct (shr_m mrs2) as [| m | m] eqn:Em; try lia.
  destruct (e2 <=? emax - prec); cbn [at_least]; auto.
Qed.

Lemma binary_round_aux_has_sign (sx : bool) (mx ex : Z) (lx : location) :
  0 <= mx -> has_sign sx (binary_round_aux prec emax sx mx ex lx).
Proof.
  intro Hmx. unfold binary_round_aux.
  pose proof (shr_fexp_spec mx ex lx Hmx) as H1. cbv zeta in H1.
  destruct (shr_fexp prec emax mx ex lx) as [mrs1 e1]. cbn [fst snd] in H1.
  destruct H1 as [Hm1 He1].
  assert (Hm1nn : 0 <= shr_m mrs1)
    by (rewrite Hm1; apply Z.div_pos; [lia | apply Z.pow_pos_nonneg; lia]).
  pose proof (round_nearest_even_range (shr_m mrs1) (loc_of_shr_record mrs1)) as Hr.
  set (m1' := round_nearest_even (shr_m mrs1) (loc_of_shr_record mrs1)) in *.
  pose proof (shr_fexp_spec m1' e1 loc_Exact ltac:(lia)) as H2. cbv zeta in H2.
  destruct (shr_fexp prec emax m1' e1 loc_Exact) as [mrs2 e2]. cbn [fst snd] in H2.
  destruct H2 as [Hm2 He2].
  assert (Hm2nn : 0 <= shr_m mrs2)
    by (rewrite Hm2; apply Z.div_pos; [lia | apply Z.pow_pos_nonneg; lia]).
  destruct (shr_m mrs2) as [| m | m] eqn:Em; try lia; [reflexivity |].
  destruct (e2 <=? emax - prec); reflexivity.
Qed.

Lemma binary_round_at_least (sx : bool) (mx : positive) (ex k : Z) :
  2 ^ (k - ex) <= Zpos mx -> -1074 <= k ->
  at_least sx k (binary_round prec emax sx mx ex).
Proof.
  intros Hlo Hk. unfold binary_round.
  pose proof (shl_align_spec mx ex
                (fexp prec emax (Zpos (digits2_pos mx) + ex))) as Hs.
  destruct (shl_align mx ex _) as [mz ez]. destruct Hs as [Hez Hmz].
  apply binary_round_aux_at_least; try lia.
  rewrite Hmz. apply pow2_scale_lower; lia.
Qed.

(** [x - y] for a negative finite [x] and a [y >= 2^k] is at most [-2^k]. *)
Lemma fsub_at_least (mx : positive) (ex : Z) (my : positive) (ey k : Z) :
  2 ^ (k - ey) <= Zpos my -> -1074 <= k ->
  at_least true k (fsub (S754_finite true mx ex) (S754_finite false my ey)).
Proof.
  intros Hlo Hk. unfold fsub. cbn [SFsub].
  set (ez := Z.min ex ey).
  pose proof (shl_align_spec mx ex ez) as Hax.
  pose proof (shl_align_spec my ey ez) as Hay.
  destruct (shl_align mx ex ez) as [mx' ex'], (shl_align my ey ez) as [my' ey'].
  cbn [fst cond_Zopp]. destruct Hax as [Hex' Hmx'], Hay as [Hey' Hmy'].
  assert (Eey : ey' = ez) by (subst ez; lia).
  rewrite Eey in Hmy'.
  replace (- Zpos mx' - Zpos my') with (Zneg (mx' + my')) by lia.
  cbn [binary_normalize].
  apply binary_round_at_least; [| exact Hk].
  rewrite Pos2Z.inj_add, Hmy'.
  pose proof (pow2_scale_lower (Zpos my) ey ez k ltac:(lia) Hlo ltac:(subst ez; lia)).
  lia.
Qed.

Lemma at_least_abs (sx : bool) (k : Z) (x : float) :
  at_least sx k x -> at_least false k (SFabs x).
Proof.
  destruct x as [s | s | | s m e]; cbn [at_least SFabs]; try tauto.
Qed.

(** The quotient digits of [SFdiv_core_binary], exactly. *)
Lemma SFdiv_core_binary_quotient (m1 e1 m2 e2 : Z) :
  0 < m1 -> 0 < m2 ->
  let '(q, e', _) := SFdiv_core_binary prec emax m1 e1 m2 e2 in
  e' = Z.min (fexp prec emax (Zdigits2 m1 + e1 - (Zdigits2 m2 + e2))) (e1 - e2) /\
  q = (m1 * 2 ^ (e1 - e2 - e')) / m2.
Proof.
  intros H1 H2. unfold SFdiv_core_binary.
  set (e' := Z.min _ (e1 - e2)).
  assert (Hs : 0 <= e1 - e2 - e') by (subst e'; lia).
  set (m' := match e1 - e2 - e' with
             | Z0 => m1
             | Zpos _ => Z.shiftl m1 (e1 - e2 - e')
             | Zneg _ => 0
             end).
  assert (Hm' : m' = m1 * 2 ^ (e1 - e2 - e')).
  { subst m'. destruct (e1 - e2 - e') as [| p | p] eqn:E; try lia.
    now rewrite Z.shiftl_mul_pow2. }
  assert (Hq : fst (Z.div_eucl m' m2) = m' / m2)
    by (unfold Z.div; destruct (Z.div_eucl m' m2); reflexivity).
  destruct (Z.div_eucl m' m2) as [q r]. cbn [fst] in Hq.
  split; [reflexivity |]. rewrite <- Hm'. exact Hq.
Qed.

(** Halving keeps a positive float of at least [2^k] at least [2^(k-1)]. *)
Lemma fdiv_two_at_least (x : float) (k : Z) :
  -1073 <= k -> at_least false k x ->
  exists y, fdiv x ftwo = Ok y /\ at_least false (k - 1) y.
Proof.
  intros Hk Hx. unfold fdiv, ftwo.
  eexists; split; [reflexivity |].
  destruct x as [sx | sx | | sx mx ex]; cbn [at_least] in Hx; try contradiction.
  - subst sx. reflexivity.
  - destruct Hx as (-> & Hup & Hlo). cbn [SFdiv xorb].
    pose proof (SFdiv_core_binary_quotient (Zpos mx) ex 4503599627370496 (-51)
                  ltac:(lia) ltac:(lia)) as Hc.
    destruct (SFdiv_core_binary prec emax (Zpos mx) ex 4503599627370496 (-51))
      as [[q e'] l].
    destruct Hc as (He' & Hq).
    change (Zdigits2 4503599627370496) with 53 in He'.
    cbn [Zdigits2] in He'.
    pose proof (digits2_pos_lower mx) as Hdl.
    set (d := Zpos (digits2_pos mx)) in *.
    assert (Hf : fexp prec emax (d + ex - (53 + -51)) = Z.max (d + ex - 55) (-1074))
      by (unfold fexp, emin, prec, emax; lia).
    rewrite Hf in He'.
    set (s := ex - -51 - e') in *.
    assert (Hs : 0 <= s) by (subst s; lia).
    pose proof (pow2_scale_lower (Zpos mx) ex (ex - s) k ltac:(lia) Hlo ltac:(lia))
      as Hsc.
    replace (ex - (ex - s)) with s in Hsc by lia.
    replace (k - (ex - s)) with (k - 1 - e' + 52) in Hsc by (subst s; lia).
    assert (Hps : 0 < 2 ^ s) by (apply Z.pow_pos_nonneg; lia).
    assert (Hq1 : 1 <= q /\ 2 ^ (k - 1 - e') <= q).
    { rewrite Hq.
      destruct (Z.le_gt_cases 0 (k - 1 - e')) as [Hc | Hc].
      - rewrite Z.pow_add_r in Hsc by lia.
        change (2 ^ 52) with 4503599627370496 in Hsc.
        assert (Hpk : 1 <= 2 ^ (k - 1 - e'))
          by (assert (0 < 2 ^ (k - 1 - e')) by (apply Z.pow_pos_nonneg; lia); lia).
        assert (2 ^ (k - 1 - e') <= Zpos mx * 2 ^ s / 4503599627370496)
          by (apply Z.div_le_lower_bound; lia).
        lia.
      - rewrite (Z.pow_neg_r 2 (k - 1 - e')) by lia.
        assert (Hd55 : e' <= d + ex - 55) by lia.
        assert (Hds : 105 <= d - 1 + s) by (subst s; lia).
        assert (Hd1 : 0 <= d - 1) by (subst d; lia).
        assert (Hbig : 2 ^ 105 <= Zpos mx * 2 ^ s).
        { pose proof (pow2_le_mono 105 (d - 1 + s) ltac:(lia)) as Hmono.
          rewrite Z.pow_add_r in Hmono by lia. nia. }
        assert (1 <= Zpos mx * 2 ^ s / 4503599627370496).
        { apply Z.div_le_lower_bound; [lia |].
          change (2 ^ 105) with 40564819207303340847894502572032 in Hbig. lia. }
        lia. }
    apply binary_round_aux_at_least; lia.
Qed.

(** A positive result of at least [2^k] is not below a double [m' * 2^e']
    that is at most [2^k], [e' <= k - 52]. *)
Lemma SFltb_at_least (x : float) (k : Z) (m' : positive) (e' : Z) :
  at_least false k x -> e' <= k - 52 -> Zpos m' <= 2 ^ (k - e') ->
  SFltb x (S754_finite false m' e') = false.
Proof.
  intros Hx He Hm.
  destruct x as [s | s | | s m e]; cbn [at_least] in Hx; try contradiction.
  - subst s. reflexivity.
  - destruct Hx as (-> & Hup & Hlo).
    unfold SFltb. cbn [SFcompare].
    destruct (Z.compare_spec e e') as [Heq | Hlt | Hgt]; try reflexivity.
    + subst e'. change (Pos.compare_cont Eq m m') with (Pos.compare m m').
      destruct (Pos.compare_spec m m') as [| Hc |]; try reflexivity. lia.
    + assert (Hmono : 2 ^ 53 <= 2 ^ (k - e)) by (apply pow2_le_mono; lia). lia.
Qed.

(** ** Loops *)

Lemma for_each_cons {S A : Type} (body : S -> A -> result S) (x : A)
  (xs : list A) (st : S) :
  for_each body (x :: xs) st = (st' <- body st x ;; for_each body xs st').
Proof. reflexivity. Qed.

Lemma for_each_app {S A : Type} (body : S -> A -> result S) (xs ys : list A)
  (st : S) :
  for_each body (xs ++ ys) st =
  (st' <- for_each body xs st ;; for_each body ys st').
Proof.
  revert st. induction xs as [| x xs IH]; intro st; cbn [app for_each bind].
  - reflexivity.
  - destruct (body st x) as [st' | e]; cbn [bind]; [apply IH | reflexivity].
Qed.

Lemma for_each_invariant {S A : Type} (body : S -> A -> result S)
  (P : A -> Prop) (I : S -> Prop) (xs : list A) :
  (forall st x, P x -> I st -> exists st', body st x = Ok st' /\ I st') ->
  Forall P xs ->
  forall st, I st -> exists st', for_each body xs st = Ok st' /\ I st'.
Proof.
  intros Hbody Hxs. induction Hxs as [| x xs Hx _ IH]; intros st Hst.
  - exists st. split; [reflexivity | exact Hst].
  - cbn [for_each]. destruct (Hbody st x Hx Hst) as (st' & -> & Hst').
    cbn [bind]. apply IH, Hst'.
Qed.

(** ** The pattern of 2.0 and of 0.5 *)

Lemma encode_two math_log (config : TakumConfig) :
  supported config -> math_log ftwo = Some log_2 ->
  exists p, encode_takum_log math_log ftwo config = Ok p /\
    p < 0 /\ in_width config p /\ p <> - 2 ^ (bits config - 1).
Proof.
  intros H Hlog. apply supported_cases in H.
  rewrite (encode_takum_log_at math_log ftwo config log_2 Hlog).
  destruct H as [-> | [-> | [-> | ->]]];
    (eexists; split; [vm_compute; reflexivity |]);
    (split; [reflexivity |]); (split; [split; discriminate |]);
    discriminate.
Qed.

Lemma encode_half math_log (config : TakumConfig) :
  supported config -> math_log fhalf = Some (SFopp log_2) ->
  exists p, encode_takum_log math_log fhalf config = Ok p /\
    0 < p /\ in_width config p.
Proof.
  intros H Hlog. apply supported_cases in H.
  rewrite (encode_takum_log_at math_log fhalf config (SFopp log_2) Hlog).
  destruct H as [-> | [-> | [-> | ->]]];
    (eexists; split; [vm_compute; reflexivity |]);
    (split; [reflexivity |]); split; discriminate.
Qed.

(** ** The tolerance *)

Lemma tolerance_value libm_pow (config : TakumConfig) :
  supported config -> pow_exact_on_two libm_pow ->
  pow_two libm_pow (- (bits config - 8)) =
  Ok (S754_finite false 4503599627370496 (- 52 - (bits config - 8))).
Proof.
  intros H Hpow. apply supported_cases in H.
  assert (Hj : forall j w, 1 <= j <= 56 -> float_of_int (- j) = Ok w ->
               SFeqb w fzero = false ->
               pow_two libm_pow (- j) =
               Ok (S754_finite false 4503599627370496 (- 52 - j))).
  { intros j w Hj Hw Hz. unfold pow_two. rewrite Hw. cbn [bind].
    rewrite Hz, (Hpow j w Hj Hw). reflexivity. }
  destruct H as [-> | [-> | [-> | ->]]].
  - reflexivity.
  - exact (Hj 8 _ ltac:(lia) eq_refl eq_refl).
  - exact (Hj 24 _ ltac:(lia) eq_refl eq_refl).
  - exact (Hj 56 _ ltac:(lia) eq_refl eq_refl).
Qed.

(** ** The round-trip test *)

Lemma decode_returns math_exp (config : TakumConfig) (encoded : Z) :
  supported config -> exp_in_range math_exp ->
  exists y, decode_takum_log math_exp encoded config = Ok y.
Proof.
  intros H Hexp.
  unfold decode_takum_log.
  rewrite (nar_value_supported config H). cbn [bind].
  destruct (encoded =? - 2 ^ (bits config - 1)); [eauto |].
  destruct (encoded =? 0); [eauto |].
  destruct (decode_locals_total encoded config H)
    as (f & -> & Hr & Hmb & Hc & Hm & Hl).
  cbn [bind].
  destruct (decode_l_float_within f ltac:(lia) Hm Hl) as (lf & -> & Hlf).
  cbn [bind].
  destruct (fdiv_two_within lf 9 ltac:(lia) Hlf) as (x & -> & Hx).
  cbn [bind].
  destruct (Hexp x Hx) as (m & e & ->). cbn [bind]. eauto.
Qed.

Section SuiteProperties.

Variable math_log : float -> option float.
Variable math_exp : float -> option float.
Variable libm_pow : float -> float -> option float.
Variable config : TakumConfig.

Hypothesis Hconfig : supported config.
Hypothesis Hlog : log_in_range math_log.
Hypothesis Hexp : exp_in_range math_exp.

(** Every pass of the loop returns, and keeps [all_passed] false once it
    is. *)
Lemma roundtrip_body_returns (st : bool * float) (value : float) :
  pow_exact_on_two libm_pow -> finite_value value ->
  exists st',
    roundtrip_body math_log math_exp libm_pow config st value = Ok st' /\
    (fst st = false -> fst st' = false).
Proof.
  intros Hpow Hv. destruct st as [ap mx]. unfold roundtrip_body.
  destruct value as [s | s | | s m e]; cbn [finite_value] in Hv;
    try contradiction.
  - change (SFeqb (S754_zero s) fzero) with true. cbv iota.
    change (encode_takum_log math_log (S754_zero s) config) with (@Ok Z 0).
    cbn [bind]. rewrite (decode_zero math_exp config Hconfig). cbn [bind].
    eexists; split; [reflexivity |]. cbn [fst]. now intros ->.
  - replace (SFeqb (S754_finite s m e) fzero) with false
      by (destruct s; reflexivity).
    destruct (encode_total math_log (S754_finite s m e) config Hconfig Hlog)
      as (p & ->). cbn [bind].
    destruct (decode_returns math_exp config p Hconfig Hexp) as (y & ->).
    cbn [bind SFabs fdiv].
    rewrite (tolerance_value libm_pow config Hconfig Hpow). cbn [bind].
    eexists; split; [reflexivity |]. cbn [fst]. now intros ->.
Qed.

(** The pass for 2.0 fails: its pattern is negative, so it decodes to a
    negative number, at a relative error of at least 1. *)
Lemma roundtrip_body_two (st : bool * float) :
  pow_exact_on_two libm_pow -> math_log ftwo = Some log_2 ->
  exists st',
    roundtrip_body math_log math_exp libm_pow config st ftwo = Ok st' /\
    fst st' = false.
Proof.
  intros Hpow H2. destruct st as [ap mx]. unfold roundtrip_body.
  change (SFeqb ftwo fzero) with false. cbv iota.
  destruct (encode_two math_log config Hconfig H2) as (p & -> & Hneg & Hw & Hnar).
  cbn [bind].
  destruct (decode_finite_with_sign math_exp config p Hconfig Hexp Hw Hnar
              ltac:(lia)) as (m & e & ->).
  cbn [bind].
  replace (p <? 0) with true by (symmetry; apply Z.ltb_lt; exact Hneg).
  assert (Hd : at_least true 1 (fsub (S754_finite true m e) ftwo))
    by (apply fsub_at_least; [cbn; lia | lia]).
  apply at_least_abs in Hd.
  change (SFabs ftwo) with ftwo.
  destruct (fdiv_two_at_least _ 1 ltac:(lia) Hd) as (re & -> & Hrel).
  cbn [bind].
  rewrite (tolerance_value libm_pow config Hconfig Hpow). cbn [bind].
  destruct (supported_bits config Hconfig) as [_ Hb].
  rewrite (SFltb_at_least re (1 - 1)); [| exact Hrel | lia |].
  - rewrite andb_false_r. eexists; split; reflexivity.
  - replace (1 - 1 - (- 52 - (bits config - 8))) with (52 + (bits config - 8))
      by lia.
    rewrite Z.pow_add_r by lia. change (2 ^ 52) with 4503599627370496.
    assert (0 < 2 ^ (bits config - 8)) by (apply Z.pow_pos_nonneg; lia). nia.
Qed.

Lemma test_encoding_roundtrip_false :
  pow_exact_on_two libm_pow -> math_log ftwo = Some log_2 ->
  test_encoding_roundtrip math_log math_exp libm_pow config = Ok false.
Proof.
  intros Hpow H2. unfold test_encoding_roundtrip.
  change roundtrip_test_values
    with ([fzero; fone; SFopp fone; SQRT_E; math_e; math_pi; fhalf]
          ++ ftwo :: [f0_1; f10; f100; f001]).
  rewrite for_each_app.
  destruct (for_each_invariant
              (roundtrip_body math_log math_exp libm_pow config)
              finite_value (fun _ => True)
              [fzero; fone; SFopp fone; SQRT_E; math_e; math_pi; fhalf])
    with (st := (true, fzero)) as (st1 & -> & _).
  { intros st x Hx _.
    destruct (roundtrip_body_returns st x Hpow Hx) as (st' & Hst' & _). eauto. }
  { repeat (constructor; [vm_compute; exact I |]). constructor. }
  { exact I. }
  cbn [bind]. rewrite for_each_cons.
  destruct (roundtrip_body_two st1 Hpow H2) as (st2 & -> & Hst2).
  cbn [bind].
  destruct (for_each_invariant
              (roundtrip_body math_log math_exp libm_pow config)
              finite_value (fun st => fst st = false)
              [f0_1; f10; f100; f001])
    with (st := st2) as (st3 & -> & Hst3).
  { intros st x Hx Hst.
    destruct (roundtrip_body_returns st x Hpow Hx) as (st' & Hst' & Hk). eauto. }
  { repeat (constructor; [exact I |]). constructor. }
  { exact Hst2. }
  cbn [bind]. now rewrite Hst3.
Qed.

(** ** The symmetry test *)

Lemma symmetry_body_returns (all_passed : bool) (x : float) :
  finite_value x -> x <> S754_zero false -> x <> S754_zero true ->
  exists b,
    symmetry_body math_log math_exp config all_passed x = Ok b /\
    (all_passed = false -> b = false).
Proof.
  intros Hx Hz Hz'. unfold symmetry_body.
  destruct x as [[] | s | | s m e]; cbn [finite_value] in Hx;
    try contradiction; try congruence.
  cbn [fdiv bind].
  destruct (encode_total math_log (S754_finite s m e) config Hconfig Hlog)
    as (p & ->). cbn [bind].
  destruct (encode_total math_log (SFdiv prec emax fone (S754_finite s m e))
              config Hconfig Hlog) as (q & ->). cbn [bind].
  destruct (decode_returns math_exp config p Hconfig Hexp) as (y & ->).
  destruct (decode_returns math_exp config q Hconfig Hexp) as (z & ->).
  cbn [bind]. eexists; split; [reflexivity |]. now intros ->.
Qed.

(** A negative result, possibly a zero or an infinity, is at least 1 away
    from 1.0. *)
Lemma far_from_one (x : float) :
  has_sign true x ->
  SFltb (SFabs (fsub x fone)) f0_1 = false.
Proof.
  intro Hx. destruct x as [s | s | | s m e]; cbn [has_sign] in Hx;
    try contradiction; subst s; try reflexivity.
  assert (Hd : at_least true 0 (fsub (S754_finite true m e) fone))
    by (apply fsub_at_least; [cbn; lia | lia]).
  apply at_least_abs in Hd.
  apply (SFltb_at_least _ 0); [exact Hd | lia | cbn; lia].
Qed.

(** The pass for 2.0 fails: 2.0 decodes to a negative number and 0.5 to a
    positive one. *)
Lemma symmetry_body_two (all_passed : bool) :
  math_log ftwo = Some log_2 -> math_log fhalf = Some (SFopp log_2) ->
  symmetry_body math_log math_exp config all_passed ftwo = Ok false.
Proof.
  intros H2 Hh. unfold symmetry_body.
  change (fdiv fone ftwo) with (Ok fhalf). cbn [bind].
  destruct (encode_two math_log config Hconfig H2) as (p & -> & Hneg & Hw & Hnar).
  destruct (encode_half math_log config Hconfig Hh) as (q & -> & Hpos & Hwq).
  cbn [bind].
  destruct (supported_bits config Hconfig) as [_ Hb].
  assert (Hp0 : 0 < 2 ^ (bits config - 1)) by (apply Z.pow_pos_nonneg; lia).
  destruct (decode_finite_with_sign math_exp config p Hconfig Hexp Hw Hnar
              ltac:(lia)) as (mx & ex & ->).
  destruct (decode_finite_with_sign math_exp config q Hconfig Hexp Hwq
              ltac:(lia) ltac:(lia)) as (my & ey & ->).
  cbn [bind].
  replace (p <? 0) with true by (symmetry; apply Z.ltb_lt; exact Hneg).
  replace (q <? 0) with false by (symmetry; apply Z.ltb_ge; lia).
  rewrite far_from_one; [now rewrite andb_false_r |].
  unfold fmul. cbn [SFmul xorb].
  apply binary_round_aux_has_sign. lia.
Qed.

Lemma test_symmetry_false :
  math_log ftwo = Some log_2 -> math_log fhalf = Some (SFopp log_2) ->
  test_symmetry math_log math_exp config = Ok false.
Proof.
  intros H2 Hh. unfold test_symmetry.
  change symmetry_test_values with (ftwo :: [f4; f10; SQRT_E; math_e; math_pi]).
  rewrite for_each_cons, (symmetry_body_two true H2 Hh). cbn [bind].
  destruct (for_each_invariant (symmetry_body math_log math_exp config)
              (fun x => finite_value x /\ x <> S754_zero false /\
                        x <> S754_zero true)
              (fun b => b = false)
              [f4; f10; SQRT_E; math_e; math_pi])
    with (st := false) as (b & -> & ->); [| | reflexivity | reflexivity].
  - intros b x (Hx & Hz & Hz') ->.
    destruct (symmetry_body_returns false x Hx Hz Hz') as (b' & -> & Hb').
    eauto.
  - repeat (constructor;
            [vm_compute; (split; [exact I | split; discriminate]) |]).
    constructor.
Qed.

(** ** The whole suite *)


End SuiteProperties.



Lemma sample_log_2_in_range : log_in_range sample_log_2.
Proof.
  intros m e. unfold sample_log_2, sample_log_total, sample_log.
  repeat match goal with
         | |- context [if ?b then _ else _] => destruct b
         end; eexists; split; reflexivity.
Qed.

Lemma exact_pow_on_two : pow_exact_on_two exact_pow.
Proof.
  intros j w Hj Hw.
  assert (Hall : forallb neg_int_floatb (Zrange 1 56) = true)
    by (vm_compute; reflexivity).
  pose proof (Zrange_forallb neg_int_floatb 1 56 Hall j ltac:(lia)) as Hb.
  unfold neg_int_floatb in Hb. rewrite Hw in Hb.
  unfold exact_pow, pow2_exp.
  destruct (int_of_float w) as [n |]; [| discriminate].
  apply Z.eqb_eq in Hb. subst n.
  now replace (- j - 52) with (- 52 - j) by lia.
Qed.

(** X18. [test_encoding_roundtrip] returns [False] on every supported
    width, given a [math.log] and a [math.exp] that return in range, libm's
    exact powers of two and [math.log(2.0) = 0.6931471805599453]: no pass of
    the loop raises, and the pass for 2.0 fails, because the encoder gives
    2.0 a negative pattern, which decodes to a negative number, at a
    relative error of at least 1. *)
Theorem test_encoding_roundtrip_fails :
  forall math_log math_exp libm_pow config,
    supported config ->
    log_in_range math_log -> exp_in_range math_exp ->
    pow_exact_on_two libm_pow ->
    math_log ftwo = Some log_2 ->
    test_encoding_roundtrip math_log math_exp libm_pow config = Ok false /\
    exists p m e,
      encode_takum_log math_log ftwo config = Ok p /\ p < 0 /\
      decode_takum_log math_exp p config = Ok (S754_finite true m e).
Proof.
  intros math_log math_exp libm_pow config H Hlog Hexp Hpow H2.
  split; [now apply test_encoding_roundtrip_false |].
  destruct (encode_two math_log config H H2) as (p & Hp & Hneg & Hw & Hnar).
  destruct (decode_finite_with_sign math_exp config p H Hexp Hw Hnar
              ltac:(lia)) as (m & e & Hd).
  exists p, m, e. repeat split; try assumption.
  rewrite Hd. f_equal. f_equal. apply Z.ltb_lt. exact Hneg.
Qed.

Lemma test_encoding_roundtrip_fails_witness :
  test_encoding_roundtrip sample_log_2 pow2_exp exact_pow TAKUM16 = Ok false /\
  exists p m e,
    encode_takum_log sample_log_2 ftwo TAKUM16 = Ok p /\ p < 0 /\
    decode_takum_log pow2_exp p TAKUM16 = Ok (S754_finite true m e).
Proof.
  exact (test_encoding_roundtrip_fails sample_log_2 pow2_exp exact_pow TAKUM16
           supported_TAKUM16 sample_log_2_in_range pow2_exp_in_range
           exact_pow_on_two eq_refl).
Defined.

(** X19. [test_symmetry] returns [False] on every supported width, given a
    [math.log] and a [math.exp] that return in range and CPython's values
    of [math.log] at 2.0 and 0.5: no pass of the loop raises, and the first
    pass fails, because 2.0 decodes to a negative number and 0.5 to a
    positive one, so that their product is at least 1 away from 1.0. *)
Theorem test_symmetry_fails :
  forall math_log math_exp config,
    supported config ->
    log_in_range math_log -> exp_in_range math_exp ->
    math_log ftwo = Some log_2 -> math_log fhalf = Some (SFopp log_2) ->
    test_symmetry math_log math_exp config = Ok false.
Proof. exact test_symmetry_false. Qed.

Lemma test_symmetry_fails_witness :
  test_symmetry sample_log_2 pow2_exp TAKUM16 = Ok false.
Proof.
  exact (test_symmetry_fails sample_log_2 pow2_exp TAKUM16 supported_TAKUM16
           sample_log_2_in_range pow2_exp_in_range eq_refl eq_refl).
Defined.


